(** * TPEC website: translation store, language switch, retry policy and
      project renderer

    A shallow embedding of the browser-side modules of the site:
    - [ErrorHandler] (the fetch wrapper with its retry counter),
    - [I18n] (dictionary lookup with fallback, the DOM text binder, the
      language switch, dictionary loading with the localStorage cache),
    - [SEOManager] (the alternate links it rewrites after a switch),
    - [App] (project tabs, cards and hash deep-linking).

    JavaScript values are an inductive type; a plain object is a finite map
    from property names to values.  What the JavaScript engine and the
    browser contribute (inherited members, string conversion, JSON parsing,
    the attribute names the DOM takes, whether localStorage takes a value)
    is an interface, [JsRuntime], and every result below holds for every
    implementation of it.  Code that can raise returns a [Completion].  The
    listeners of the [languageChanged] event and the re-rendering of the app
    are parameters of the language switch. *)

From Stdlib Require Import ZArith Ascii String Permutation.
From stdpp Require Import gmap strings list fin_maps pretty.
From Equations Require Import Equations.

Set Warnings "-register-all".
Local Open Scope string_scope.
Local Open Scope Z_scope.

(** ** JavaScript values and completions *)

(** The values the modules handle: what [JSON.parse] produces, [undefined],
    and host objects (functions, prototypes) that a lookup can reach through
    an inherited member.  Numbers are the integers the modules meet:
    lengths, counters and millisecond timestamps. *)
Inductive JsValue : Type :=
| JUndefined
| JNull
| JBool (b : bool)
| JNum (n : Z)
| JStr (s : string)
| JArr (items : list JsValue)
| JObj (props : gmap string JsValue)
| JHost (name : string).

(** Result of evaluating code that may raise. *)
Inductive Completion (A : Type) : Type :=
| Normal (a : A)
| Throw (err : string).
Arguments Normal {A} a.
Arguments Throw {A} err.

Definition cbind {A B} (c : Completion A) (k : A -> Completion B) : Completion B :=
  match c with
  | Normal a => k a
  | Throw e => Throw e
  end.

(** [try { c } catch (error) { h error }] *)
Definition try_catch {A} (c : Completion A) (h : string -> Completion A) : Completion A :=
  match c with
  | Normal a => Normal a
  | Throw e => h e
  end.

#[global] Instance completion_ret : MRet Completion := @Normal.
#[global] Instance completion_bind : MBind Completion :=
  fun A B k c => cbind c k.

(** Monadic [Array.prototype.reduce] with an initial value. *)
Fixpoint reduceM {A B} (f : A -> B -> Completion A) (xs : list B) (acc : A)
  : Completion A :=
  match xs with
  | [] => Normal acc
  | x :: rest => acc' ← f acc x; reduceM f rest acc'
  end.

(** [Array.prototype.filter] and [find] with a callback that may raise. *)
Fixpoint filterM {A} (f : A -> Completion bool) (xs : list A) : Completion (list A) :=
  match xs with
  | [] => Normal []
  | x :: rest =>
      keep ← f x;
      kept ← filterM f rest;
      Normal (if keep : bool then x :: kept else kept)
  end.

Fixpoint findM {A} (f : A -> Completion bool) (xs : list A) : Completion (option A) :=
  match xs with
  | [] => Normal None
  | x :: rest =>
      hit ← f x;
      if hit : bool then Normal (Some x) else findM f rest
  end.

(** What the engine supplies.  [inherited v k] is what reading [v[k]] gives
    when [k] is not a property of [v] that the model holds: a member found
    on the prototype chain of a plain object, an array or a primitive, or
    the length or a character of a string (reading those never raises);
    [host_get] reads a member of a host object or function and may raise;
    [to_string] is the string conversion of a value that is not already a
    string; [to_number] is the numeric conversion ([None] for NaN);
    [own_props] lists the own enumerable properties of a value that is not a
    plain object; [json_parse] is [JSON.parse] ([None] when it raises);
    [valid_attribute_name] tells whether [element.setAttribute] takes a
    string as the name of an attribute (it raises [InvalidCharacterError]
    for the others: the empty string, a string with a space in it; the
    exact rule is the browser's); [storage_accepts] tells whether
    [localStorage.setItem(key, value)] succeeds on a storage with the given
    content (it raises when the quota is exceeded or the storage is
    disabled). *)
Class JsRuntime : Type := {
  inherited : JsValue -> string -> JsValue;
  host_get : string -> string -> Completion JsValue;
  to_string : JsValue -> string;
  to_number : JsValue -> option Z;
  own_props : JsValue -> gmap string JsValue;
  json_parse : string -> option JsValue;
  valid_attribute_name : string -> bool;
  storage_accepts : gmap string string -> string -> string -> bool
}.

(** Truthiness, as [!v] and [v && ...] test it. *)
Definition truthy (v : JsValue) : bool :=
  match v with
  | JUndefined | JNull => false
  | JBool b => b
  | JNum n => negb (n =? 0)
  | JStr s => negb (String.eqb s EmptyString)
  | JArr _ | JObj _ | JHost _ => true
  end.

(** [v !== undefined && v !== null && v !== ''] *)
Definition usable (v : JsValue) : bool :=
  match v with
  | JUndefined | JNull => false
  | JStr s => negb (String.eqb s EmptyString)
  | _ => true
  end.

Definition is_undefined (v : JsValue) : bool :=
  match v with JUndefined => true | _ => false end.

(** [v === s] for a string [s]. *)
Definition is_string (s : string) (v : JsValue) : bool :=
  match v with
  | JStr x => String.eqb x s
  | _ => false
  end.

(** ** Strings: [split], and the character classes of the regular
    expressions the modules use.  Only ASCII classes occur, so a string is
    its sequence of code units and every unit above 127 is left alone. *)

Definition ascii_in (lo hi : nat) (c : ascii) : bool :=
  ((lo <=? nat_of_ascii c) && (nat_of_ascii c <=? hi))%nat.

Definition is_lower (c : ascii) : bool := ascii_in 97 122 c.
Definition is_upper (c : ascii) : bool := ascii_in 65 90 c.
Definition is_digit (c : ascii) : bool := ascii_in 48 57 c.

(** The class [\w]. *)
Definition is_word (c : ascii) : bool :=
  is_lower c || is_upper c || is_digit c || Ascii.eqb c "_".

(** [l.toUpperCase()] for one code unit. *)
Definition upcase (c : ascii) : ascii :=
  if is_lower c then ascii_of_nat (nat_of_ascii c - 32) else c.

Definition downcase (c : ascii) : ascii :=
  if is_upper c then ascii_of_nat (nat_of_ascii c + 32) else c.

(** [s.split(sep)] for a one-character separator: never empty. *)
Fixpoint split (sep : ascii) (s : string) : list string :=
  match s with
  | EmptyString => [EmptyString]
  | String c rest =>
      if Ascii.eqb c sep then EmptyString :: split sep rest
      else match split sep rest with
           | [] => [String c EmptyString]
           | seg :: segs => String c seg :: segs
           end
  end.

(** [s.replace(/[_-]/g, ' ')] *)
Fixpoint replace_separators (s : string) : string :=
  match s with
  | EmptyString => EmptyString
  | String c rest =>
      String (if Ascii.eqb c "_" || Ascii.eqb c "-" then " "%char else c)
             (replace_separators rest)
  end.

(** [s.replace(/\b\w/g, l => l.toUpperCase())]: a word character is
    upper-cased when it starts the string or follows a non-word character.
    [inside] tells whether the previous character was a word character. *)
Fixpoint capitalize_from (inside : bool) (s : string) : string :=
  match s with
  | EmptyString => EmptyString
  | String c rest =>
      String (if is_word c && negb inside then upcase c else c)
             (capitalize_from (is_word c) rest)
  end.

Definition capitalize_words (s : string) : string := capitalize_from false s.

(** [s.replace(/([a-z])([A-Z])/g, '$1 $2')] *)
Fixpoint split_camel (s : string) : string :=
  match s with
  | EmptyString => EmptyString
  | String c rest =>
      match rest with
      | String d _ =>
          if is_lower c && is_upper d
          then String c (String " " (split_camel rest))
          else String c (split_camel rest)
      | EmptyString => String c EmptyString
      end
  end.

(** Whether a lower-case letter is directly followed by an upper-case one,
    as inside a camelCase word. *)
Fixpoint has_hump (s : string) : bool :=
  match s with
  | EmptyString => false
  | String c rest =>
      match rest with
      | String d _ => (is_lower c && is_upper d) || has_hump rest
      | EmptyString => false
      end
  end.

(** [parts[parts.length - 1]]: [None] stands for [undefined]. *)
Definition last_part (parts : list string) : option string :=
  parts !! (length parts - 1)%nat.

(** Canonical array index: ["0"], or digits without a leading zero. *)
Fixpoint digits_value (acc : N) (s : string) : option N :=
  match s with
  | EmptyString => Some acc
  | String c rest =>
      if is_digit c
      then digits_value (acc * 10 + (N_of_ascii c - 48))%N rest
      else None
  end.

Definition array_index (k : string) : option nat :=
  match k with
  | EmptyString => None
  | String c rest =>
      if Ascii.eqb c "0"
      then (if String.eqb rest EmptyString then Some 0%nat else None)
      else N.to_nat <$> digits_value 0%N k
  end.

(** The [Name] production of XML, which is the rule of the DOM for the name
    of an attribute, on the bytes of the UTF-8 form: a name starts with a
    letter, an underscore or a colon and goes on with these, digits, hyphens
    and full stops; the bytes of the characters beyond ASCII are let
    through. *)
Definition is_name_start (c : ascii) : bool :=
  is_lower c || is_upper c || Ascii.eqb c "_" || Ascii.eqb c ":"
  || (128 <=? nat_of_ascii c)%nat.

Definition is_name_char (c : ascii) : bool :=
  is_name_start c || is_digit c || Ascii.eqb c "-" || Ascii.eqb c ".".

Fixpoint all_name_chars (s : string) : bool :=
  match s with
  | EmptyString => true
  | String c rest => is_name_char c && all_name_chars rest
  end.

Definition xml_name (s : string) : bool :=
  match s with
  | EmptyString => false
  | String c rest => is_name_start c && all_name_chars rest
  end.

(** An engine with nothing on its prototypes, a [JSON.parse] given by a
    table, the XML rule for attribute names and a storage that takes every
    value, used to run examples. *)
Definition runtime_parsing (parse : string -> option JsValue) : JsRuntime := {|
  inherited := fun _ _ => JUndefined;
  host_get := fun _ _ => Throw "TypeError";
  to_string := fun _ => "[object Object]";
  to_number := fun _ => None;
  own_props := fun _ => ∅;
  json_parse := parse;
  valid_attribute_name := xml_name;
  storage_accepts := fun _ _ _ => true
|}.

Definition bare_runtime : JsRuntime := runtime_parsing (fun _ => None).

(** ** Property access [v[k]] *)
Section PropertyAccess.
Context {RT : JsRuntime}.

Definition js_get (v : JsValue) (k : string) : Completion JsValue :=
  match v with
  | JUndefined | JNull => Throw "TypeError"
  | JObj props =>
      match props !! k with
      | Some x => Normal x
      | None => Normal (inherited v k)
      end
  | JArr items =>
      match array_index k with
      | Some i =>
          match items !! i with
          | Some x => Normal x
          | None => Normal (inherited v k)
          end
      | None =>
          if String.eqb k "length" then Normal (JNum (Z.of_nat (length items)))
          else Normal (inherited v k)
      end
  | JHost name => host_get name k
  | JBool _ | JNum _ | JStr _ => Normal (inherited v k)
  end.

(** [o[k]] where [o] is known to be a plain object: reading never raises. *)
Definition object_get (props : gmap string JsValue) (k : string) : JsValue :=
  match props !! k with
  | Some x => x
  | None => inherited (JObj props) k
  end.

(** The properties that [{...v}] copies. *)
Definition spread (v : JsValue) : gmap string JsValue :=
  match v with
  | JObj props => props
  | _ => own_props v
  end.

(** Conversion to a string attribute or template-literal text. *)
Definition dom_string (v : JsValue) : string :=
  match v with
  | JStr s => s
  | _ => to_string v
  end.

(** Conversion for [textContent], which takes [null] for the empty text. *)
Definition nullable_dom_string (v : JsValue) : string :=
  match v with
  | JUndefined | JNull => EmptyString
  | _ => dom_string v
  end.

(** Numeric conversion, as the operand of a subtraction. *)
Definition number_of (v : JsValue) : option Z :=
  match v with
  | JNum n => Some n
  | JUndefined => None
  | JNull => Some 0
  | JBool b => Some (if b then 1 else 0)
  | _ => to_number v
  end.
End PropertyAccess.

(** An object literal. *)
Definition obj (members : list (string * JsValue)) : JsValue :=
  JObj (list_to_map members).

(** [s.includes(needle)] *)
Fixpoint includes (s needle : string) : bool :=
  String.prefix needle s
  || match s with
     | EmptyString => false
     | String _ rest => includes rest needle
     end.

(** [phone.replace(/[^\d+]/g, '')]: only digits and plus signs stay. *)
Fixpoint keep_phone_characters (s : string) : string :=
  match s with
  | EmptyString => EmptyString
  | String c rest =>
      if is_digit c || Ascii.eqb c "+" then String c (keep_phone_characters rest)
      else keep_phone_characters rest
  end.

(** The characters [encodeURIComponent] leaves as they are. *)
Definition uri_unreserved (c : ascii) : bool :=
  is_lower c || is_upper c || is_digit c
  || existsb (Ascii.eqb c) ["-"; "_"; "."; "!"; "~"; "*"; "'"; "("; ")"]%char.

Definition hex_digit (n : nat) : ascii :=
  ascii_of_nat (if (n <? 10)%nat then 48 + n else 55 + n).

(** [encodeURIComponent(s)].  A string is held as the bytes of its UTF-8
    form, and these are what the function escapes, each as a percent sign and
    two upper-case hexadecimal digits.  (It raises on a string with an
    unpaired surrogate; such a string has no UTF-8 form.) *)
Fixpoint encodeURIComponent (s : string) : string :=
  match s with
  | EmptyString => EmptyString
  | String c rest =>
      if uri_unreserved c then String c (encodeURIComponent rest)
      else String "%" (String (hex_digit (nat_of_ascii c / 16))
                         (String (hex_digit (nat_of_ascii c mod 16))
                            (encodeURIComponent rest)))
  end.

(** Whether every character of a string is in a class. *)
Fixpoint all_chars (class : ascii -> bool) (s : string) : bool :=
  match s with
  | EmptyString => true
  | String c rest => class c && all_chars class rest
  end.

(** ** The document, as the selectors of the modules see it: its elements in
    document order, the root first.  An element has a tag name (in lower
    case), attributes and a text content of its own.  The list does not say
    which element is inside which: an element whose text is read or written
    stands for one without child elements, whose text content is its own
    text. *)
Record Element : Type := {
  tag : string;
  attrs : gmap string string;
  text : string
}.

Record Document : Type := {
  root : Element;
  descendants : list Element
}.

Definition elements (d : Document) : list Element := root d :: descendants d.

Fixpoint lowercase (s : string) : string :=
  match s with
  | EmptyString => EmptyString
  | String c rest => String (downcase c) (lowercase rest)
  end.

(** [element.setAttribute(name, value)] for a name the DOM accepts, as the
    names are that the modules write as literals: an HTML element stores the
    name in lower case. *)
Definition setAttribute (name value : string) (e : Element) : Element :=
  {| tag := tag e; attrs := <[lowercase name := value]> (attrs e); text := text e |}.

(** [element.textContent = value], for an element without child
    elements. *)
Definition set_textContent (value : string) (e : Element) : Element :=
  {| tag := tag e; attrs := attrs e; text := value |}.

Definition has_attr (name : string) (e : Element) : bool :=
  bool_decide (is_Some (attrs e !! name)).

Definition attr_is (name value : string) (e : Element) : bool :=
  bool_decide (attrs e !! name = Some value).

Definition is_tag (name : string) (e : Element) : bool :=
  String.eqb (tag e) name.

(** The first element that matches, as [querySelector] returns it. *)
Definition querySelector (sel : Element -> bool) (d : Document) : option Element :=
  List.find sel (elements d).

(** Change the first element of a list that matches. *)
Fixpoint update_first (sel : Element -> bool) (f : Element -> Element)
  (l : list Element) : list Element :=
  match l with
  | [] => []
  | e :: rest => if sel e then f e :: rest else e :: update_first sel f rest
  end.

Definition update_first_in (sel : Element -> bool) (f : Element -> Element)
  (d : Document) : Document :=
  if sel (root d) then {| root := f (root d); descendants := descendants d |}
  else {| root := root d; descendants := update_first sel f (descendants d) |}.

(** ** The browser environment *)

(** A [Response]; [body] is the text that [response.json()] parses. *)
Record Response : Type := {
  ok : bool;
  status : Z;
  statusText : string;
  body : string
}.

(** What one call of the engine's own [fetch] does: the promise rejects,
    or it resolves with a response. *)
Inductive FetchOutcome : Type :=
| Rejected (message : string)
| Resolved (response : Response).

(** The network: the outcome of the [n]-th request ever issued, for a URL. *)
Definition Network : Type := string -> nat -> FetchOutcome.

(** Mutable environment: [localStorage] with the keys read from it (oldest
    first), the number of requests issued, the timer delays awaited (oldest
    first, in milliseconds) and the clock that [Date.now()] reads, which
    moves with the delays awaited. *)
Record Env : Type := {
  localStorage : gmap string string;
  storage_reads : list string;
  requests : nat;
  slept : list Z;
  clock : Z
}.

Definition count_request (env : Env) : Env :=
  {| localStorage := localStorage env; storage_reads := storage_reads env;
     requests := S (requests env); slept := slept env; clock := clock env |}.

(** [await new Promise(resolve => setTimeout(resolve, delay))] *)
Definition sleep (delay : Z) (env : Env) : Env :=
  {| localStorage := localStorage env; storage_reads := storage_reads env;
     requests := requests env; slept := slept env ++ [delay];
     clock := clock env + delay |}.

(** [localStorage.getItem(key)]: the read is recorded. *)
Definition getItem (key : string) (env : Env) : option string * Env :=
  (localStorage env !! key,
   {| localStorage := localStorage env;
      storage_reads := storage_reads env ++ [key];
      requests := requests env; slept := slept env; clock := clock env |}).

(** [localStorage.setItem(key, value)] *)
Definition setItem (key value : string) (env : Env) : Env :=
  {| localStorage := <[key := value]> (localStorage env);
     storage_reads := storage_reads env;
     requests := requests env; slept := slept env; clock := clock env |}.

(** ** Class lists and blank text *)

(** ASCII whitespace, which separates the tokens of a [class] attribute. *)
Definition is_ascii_whitespace (c : ascii) : bool :=
  existsb (Ascii.eqb c) ["009"; "010"; "012"; "013"; " "]%char.

(** The tokens of an attribute value, in order; [current] is the token
    being read. *)
Fixpoint tokens_from (current : string) (s : string) : list string :=
  match s with
  | EmptyString => if String.eqb current EmptyString then [] else [current]
  | String c rest =>
      if is_ascii_whitespace c then
        if String.eqb current EmptyString then tokens_from EmptyString rest
        else current :: tokens_from EmptyString rest
      else tokens_from (current +:+ String c EmptyString) rest
  end.

(** Append to an ordered set: a token that is there stays where it is. *)
Definition set_append (tokens : list string) (token : string) : list string :=
  if bool_decide (token ∈ tokens) then tokens else tokens ++ [token].

(** The token set of an element: the tokens of its [class] attribute
    without repetitions. *)
Definition classList (e : Element) : list string :=
  fold_left set_append (tokens_from EmptyString (default EmptyString (attrs e !! "class"))) [].

Fixpoint join_tokens (tokens : list string) : string :=
  match tokens with
  | [] => EmptyString
  | [token] => token
  | token :: rest => token +:+ " " +:+ join_tokens rest
  end.

(** [element.classList.add(token)] for a valid token: the attribute is
    rewritten from the token set. *)
Definition classList_add (token : string) (e : Element) : Element :=
  {| tag := tag e;
     attrs := <["class" := join_tokens (set_append (classList e) token)]> (attrs e);
     text := text e |}.

(** [element.classList.toggle(token, force)] for a valid token: nothing
    happens when the token is there and [force] is true, or is not there and
    [force] is false; otherwise the token is removed or appended and the
    attribute is rewritten from the token set. *)
Definition classList_toggle (token : string) (force : bool) (e : Element) : Element :=
  if bool_decide (token ∈ classList e) then
    if force then e
    else {| tag := tag e;
            attrs := <["class" := join_tokens
                                    (List.filter (fun x => negb (String.eqb x token))
                                       (classList e))]> (attrs e);
            text := text e |}
  else if force then classList_add token e else e.

(** The white-space code points of [String.prototype.trim] (the WhiteSpace
    and LineTerminator productions), by the bytes of their UTF-8 form:
    U+0009 to U+000D and U+0020; U+00A0; U+1680, U+2000 to U+200A, U+2028,
    U+2029, U+202F, U+205F, U+3000 and U+FEFF. *)
Definition space_byte (a : ascii) : bool :=
  ascii_in 9 13 a || Ascii.eqb a " ".

Definition space_bytes2 (a b : ascii) : bool :=
  Ascii.eqb a "194" && Ascii.eqb b "160".

Definition space_bytes3 (a b c : ascii) : bool :=
  Ascii.eqb a "225" && Ascii.eqb b "154" && Ascii.eqb c "128"
  || Ascii.eqb a "226" && Ascii.eqb b "128"
     && (ascii_in 128 138 c || Ascii.eqb c "168" || Ascii.eqb c "169"
         || Ascii.eqb c "175")
  || Ascii.eqb a "226" && Ascii.eqb b "129" && Ascii.eqb c "159"
  || Ascii.eqb a "227" && Ascii.eqb b "128" && Ascii.eqb c "128"
  || Ascii.eqb a "239" && Ascii.eqb b "187" && Ascii.eqb c "191".

(** [s.trim() === '']: the string consists of white space. *)
Fixpoint is_blank (s : string) : bool :=
  match s with
  | EmptyString => true
  | String a s1 =>
      if space_byte a then is_blank s1
      else match s1 with
           | String b s2 =>
               if space_bytes2 a b then is_blank s2
               else match s2 with
                    | String c s3 => space_bytes3 a b c && is_blank s3
                    | EmptyString => false
                    end
           | EmptyString => false
           end
  end.

(** ** ErrorHandler: the retrying fetch and readable text from a key *)
Module ErrorHandler.

(** The fields of the handler that the fetch wrapper uses. *)
Record Handler : Type := {
  retryAttempts : gmap string nat;
  maxRetries : nat;
  retryDelay : Z
}.

(** [constructor()] *)
Definition create : Handler :=
  {| retryAttempts := ∅; maxRetries := 3; retryDelay := 1000 |}.

(** [`${url}-${JSON.stringify(options)}`], [options] given serialized. *)
Definition retryKey (url options : string) : string :=
  url +:+ "-" +:+ options.

(** [this.retryAttempts.get(retryKey) || 0] *)
Definition attempts_of (h : Handler) (key : string) : nat :=
  default 0%nat (retryAttempts h !! key).

Definition set_attempts (key : string) (n : nat) (h : Handler) : Handler :=
  {| retryAttempts := <[key := n]> (retryAttempts h);
     maxRetries := maxRetries h; retryDelay := retryDelay h |}.

Definition delete_attempts (key : string) (h : Handler) : Handler :=
  {| retryAttempts := delete key (retryAttempts h);
     maxRetries := maxRetries h; retryDelay := retryDelay h |}.

(** The body of the [try] up to the response check: a rejected promise or
    a response that is not [ok] raises. *)
Definition checked (o : FetchOutcome) : Completion Response :=
  match o with
  | Rejected message => Throw message
  | Resolved response =>
      if ok response then Normal response
      else Throw ("HTTP " +:+ pretty (status response) +:+ ": "
                    +:+ statusText response)
  end.

(** [this.retryDelay * Math.pow(2, attempts)] *)
Definition backoff (h : Handler) (attempts : nat) : Z :=
  retryDelay h * 2 ^ Z.of_nat attempts.

Section Fetch.
Variable originalFetch : Network.

(** [fetchWithRetry(url, options, originalFetch)].  The counter is read
    from the map at every call, and a retry is a recursive call after the
    counter was incremented, so the distance to [maxRetries] decreases. *)
Equations? fetchWithRetry (h : Handler) (env : Env) (url options : string)
  : Completion Response * Handler * Env
  by wf (maxRetries h - attempts_of h (retryKey url options))%nat lt :=
fetchWithRetry h env url options
  with checked (originalFetch url (requests env)) := {
  | Normal response =>
      (Normal response, delete_attempts (retryKey url options) h,
       count_request env)
  | Throw error
      with lt_dec (attempts_of h (retryKey url options)) (maxRetries h) := {
    | left _ =>
        fetchWithRetry
          (set_attempts (retryKey url options)
             (attempts_of h (retryKey url options) + 1)%nat h)
          (sleep (backoff h (attempts_of h (retryKey url options)))
             (count_request env))
          url options
    | right _ =>
        (Throw error, delete_attempts (retryKey url options) h,
         count_request env) } }.
Proof.
  unfold attempts_of, set_attempts in *; simpl.
  rewrite lookup_insert_eq; simpl. lia.
Qed.

(** [window.fetch] as [setupNetworkErrorHandling] replaces it:
    [(url, options = {}) => this.fetchWithRetry(url, options, originalFetch)]. *)
Definition fetch (h : Handler) (env : Env) (url : string)
  : Completion Response * Handler * Env :=
  fetchWithRetry h env url "{}".

End Fetch.

(** [generateFallbackText(key)]: "Convert snake_case or camelCase to Title
    Case" on the last dotted segment of the key. *)
Definition generateFallbackText (key : string) : Completion string :=
  match last_part (split "." key) with
  | Some lastPart =>
      Normal (capitalize_words (split_camel (replace_separators lastPart)))
  | None => Throw "TypeError"
  end.

(** [enableTranslationFallbacks()], for one element of the document: an
    element with [data-i18n] whose text contains the bare marker or is blank
    gets the readable form of its key and the class [translation-fallback]. *)
Definition needs_fallback (e : Element) : bool :=
  includes (text e) "[MISSING]" || is_blank (text e).

Definition fallback_element (e : Element) : Completion Element :=
  match attrs e !! "data-i18n" with
  | None => Normal e
  | Some key =>
      if needs_fallback e then
        fallbackText ← generateFallbackText key;
        Normal (classList_add "translation-fallback" (set_textContent fallbackText e))
      else Normal e
  end.

(** [enableTranslationFallbacks()] *)
Definition enableTranslationFallbacks (d : Document) : Completion Document :=
  r ← fallback_element (root d);
  rest ← mapM fallback_element (descendants d);
  Normal {| root := r; descendants := rest |}.

(** *** Errors caught by the global handlers *)

(** The style sheets the handler can inject, named for the literal that is
    their text. *)
Inductive Sheet : Type :=
| FontFallbackSheet
| AnimationFallbackSheet
| ErrorBannerSheet.

(** What the handler keeps and what it changes on the page: [this.errors];
    the class tokens of [document.body]; the style elements appended to the
    head, with their ids; the document; the number of error banners inserted
    at the top of the body; [sessionStorage]; and the delays of the timers
    set.  The class list of the body is held here and not in [page]: the
    body is taken to carry no [data-i18n]. *)
Record Screen : Type := {
  errors : list JsValue;
  body_classes : list string;
  head_styles : list (string * Sheet);
  page : Document;
  banners : nat;
  sessionStorage : gmap string string;
  timeouts : list Z
}.

(** What the browser reports when an error is recorded:
    [new Date().toISOString()], [navigator.userAgent] and
    [window.location.href]. *)
Record Moment : Type := {
  timestamp : string;
  userAgent : string;
  url : string
}.

Definition with_errors (l : list JsValue) (s : Screen) : Screen :=
  {| errors := l; body_classes := body_classes s; head_styles := head_styles s;
     page := page s; banners := banners s; sessionStorage := sessionStorage s;
     timeouts := timeouts s |}.

Definition with_body_classes (l : list string) (s : Screen) : Screen :=
  {| errors := errors s; body_classes := l; head_styles := head_styles s;
     page := page s; banners := banners s; sessionStorage := sessionStorage s;
     timeouts := timeouts s |}.

Definition with_head_styles (l : list (string * Sheet)) (s : Screen) : Screen :=
  {| errors := errors s; body_classes := body_classes s; head_styles := l;
     page := page s; banners := banners s; sessionStorage := sessionStorage s;
     timeouts := timeouts s |}.

Definition with_page (d : Document) (s : Screen) : Screen :=
  {| errors := errors s; body_classes := body_classes s; head_styles := head_styles s;
     page := d; banners := banners s; sessionStorage := sessionStorage s;
     timeouts := timeouts s |}.

(** [document.body.classList.add(...tokens)] *)
Definition body_classList_add (tokens : list string) (s : Screen) : Screen :=
  with_body_classes (fold_left set_append tokens (body_classes s)) s.

(** [document.getElementById(id)] finds something. *)
Definition has_id (id : string) (s : Screen) : bool :=
  existsb (fun style => String.eqb (fst style) id) (head_styles s)
  || existsb (attr_is "id" id) (elements (page s)).

(** [injectCSS(css, id)] *)
Definition injectCSS (css : Sheet) (id : string) (s : Screen) : Screen :=
  if has_id id s then s
  else with_head_styles (head_styles s ++ [(id, css)]) s.

(** [enableFontFallbacks()] *)
Definition enableFontFallbacks (s : Screen) : Screen :=
  body_classList_add ["font-fallback"] (injectCSS FontFallbackSheet "font-fallbacks" s).

(** [enableCSSAnimationFallbacks()] *)
Definition enableCSSAnimationFallbacks (s : Screen) : Screen :=
  injectCSS AnimationFallbackSheet "animation-fallbacks" s.

(** [message?.includes(pattern)], as a condition.  A string searches
    itself, an array its elements; [undefined] and [null] stop the chain;
    any other value has no [includes] to call. *)
Definition message_includes (message : JsValue) (pattern : string) : Completion bool :=
  match message with
  | JUndefined | JNull => Normal false
  | JStr s => Normal (includes s pattern)
  | JArr items => Normal (existsb (is_string pattern) items)
  | _ => Throw "TypeError"
  end.

(** [message?.includes(p) || message?.includes(q)] *)
Definition includes_either (message : JsValue) (p q : string) : Completion bool :=
  first ← message_includes message p;
  if first : bool then Normal true else message_includes message q.

Section ErrorReports.
Context {RT : JsRuntime}.

(** [handleJavaScriptError(errorInfo)] *)
Definition handleJavaScriptError (errorInfo : gmap string JsValue) (s : Screen)
  : Screen * Completion unit :=
  let message := object_get errorInfo "message" in
  match includes_either message "gsap" "ScrollTrigger" with
  | Throw e => (s, Throw e)
  | Normal animation =>
      let s1 := if animation
                then enableCSSAnimationFallbacks
                       (body_classList_add ["no-gsap"; "no-animations"] s)
                else s in
      match includes_either message "i18n" "translation" with
      | Throw e => (s1, Throw e)
      | Normal translation =>
          if translation then
            match enableTranslationFallbacks (page s1) with
            | Normal d => (with_page d s1, Normal ())
            | Throw e => (s1, Throw e)
            end
          else (s1, Normal ())
      end
  end.

(** [handlePromiseError(errorInfo)]: it only logs. *)
Definition handlePromiseError (errorInfo : gmap string JsValue) : Completion unit :=
  _ ← includes_either (object_get errorInfo "message") "fetch" "network";
  Normal ().

(** [isCriticalError(errorInfo)]: [some] stops at the first pattern
    found. *)
Definition criticalPatterns : list string :=
  ["Cannot read property"; "Cannot read properties"; "is not a function";
   "is not defined"].

Fixpoint some_pattern (message : JsValue) (patterns : list string) : Completion bool :=
  match patterns with
  | [] => Normal false
  | pattern :: rest =>
      found ← message_includes message pattern;
      if found : bool then Normal true else some_pattern message rest
  end.

Definition isCriticalError (errorInfo : gmap string JsValue) : Completion bool :=
  some_pattern (object_get errorInfo "message") criticalPatterns.

(** [sessionStorage.getItem('error-message-shown')], as a condition. *)
Definition message_shown (s : Screen) : bool :=
  match sessionStorage s !! "error-message-shown" with
  | Some flag => truthy (JStr flag)
  | None => false
  end.

(** [showUserErrorMessage()]: once the session has the flag, nothing is
    shown; otherwise the banner is built, its styles are injected, it is
    inserted at the top of the body, its removal is scheduled, and the flag
    is set. *)
Definition showUserErrorMessage (s : Screen) : Screen :=
  if message_shown s then s
  else
    let s1 := injectCSS ErrorBannerSheet "error-banner-styles" s in
    {| errors := errors s1; body_classes := body_classes s1;
       head_styles := head_styles s1; page := page s1;
       banners := S (banners s1);
       sessionStorage := <["error-message-shown" := "true"]> (sessionStorage s1);
       timeouts := timeouts s1 ++ [10000] |}.

(** The record [handleError] pushes:
    [{ ...errorInfo, timestamp, userAgent, url }]. *)
Definition error_record (now : Moment) (errorInfo : gmap string JsValue) : JsValue :=
  JObj (<["url" := JStr (url now)]>
          (<["userAgent" := JStr (userAgent now)]>
             (<["timestamp" := JStr (timestamp now)]> errorInfo))).

(** [handleError(errorInfo)]: the record is pushed first, whatever
    follows. *)
Definition handleError (now : Moment) (errorInfo : gmap string JsValue) (s : Screen)
  : Screen * Completion unit :=
  let s1 := with_errors (errors s ++ [error_record now errorInfo]) s in
  let '(s2, handled) :=
    match object_get errorInfo "type" with
    | JStr type =>
        if String.eqb type "javascript" then handleJavaScriptError errorInfo s1
        else if String.eqb type "promise" then (s1, handlePromiseError errorInfo)
        else (s1, Normal ())
    | _ => (s1, Normal ())
    end in
  match handled with
  | Throw e => (s2, Throw e)
  | Normal _ =>
      match isCriticalError errorInfo with
      | Throw e => (s2, Throw e)
      | Normal critical =>
          if critical then (showUserErrorMessage s2, Normal ()) else (s2, Normal ())
      end
  end.

(** The errors of a visit, handled one after the other; an exception that
    escapes a handler ends that handler only. *)
Definition handle_all (reports : list (Moment * gmap string JsValue)) (s : Screen) : Screen :=
  fold_left (fun acc report => fst (handleError (fst report) (snd report) acc)) reports s.

End ErrorReports.

End ErrorHandler.

(** ** SEOManager: what the language switch asks of it *)
Module SEOManager.

(** [this.baseUrl] *)
Definition baseUrl : string := "https://example.com".

(** [link[hreflang]] *)
Definition hreflang_link (e : Element) : bool :=
  is_tag "link" e && has_attr "hreflang" e.

(** The body of the [forEach]: [tag.href = `${baseUrl}${currentPath}`],
    whatever the language of the tag; elements that are not selected stay. *)
Definition retarget (currentPath : string) (e : Element) : Element :=
  if hreflang_link e then setAttribute "href" (baseUrl +:+ currentPath) e else e.

(** [updateHreflangTags(currentLang)] on a page whose
    [window.location.pathname] is [currentPath]. *)
Definition updateHreflangTags (currentPath currentLang : string) (d : Document)
  : Document :=
  let d1 := {| root := retarget currentPath (root d);
               descendants := retarget currentPath <$> descendants d |} in
  let d2 := {| root := setAttribute "lang" currentLang (root d1);
               descendants := descendants d1 |} in
  update_first_in (fun e => is_tag "meta" e && attr_is "property" "og:locale" e)
    (setAttribute "content" (if String.eqb currentLang "lo" then "lo_LA" else "en_US"))
    d2.

End SEOManager.

(** ** I18n: the translation store *)
Module I18n.

(** The fields of the [I18n] object.  [translations] is the object that
    holds one dictionary per language code. *)
Record State : Type := {
  currentLang : string;
  translations : gmap string JsValue;
  fallbackLang : string;
  storageKey : string
}.

(** [constructor()] *)
Definition initial : State := {|
  currentLang := "en";
  translations := ∅;
  fallbackLang := "en";
  storageKey := "preferred-language"
|}.

(** The default value of the [fallback] parameter of [t]. *)
Definition MISSING : string := "[MISSING]".

(** [fallback === '[MISSING]'] *)
Definition is_default_marker (v : JsValue) : bool :=
  match v with
  | JStr s => String.eqb s MISSING
  | _ => false
  end.

Section Lookup.
Context {RT : JsRuntime}.

(** The callback of [reduce] in [getNestedValue]:
    [current && current[key] !== undefined ? current[key] : undefined]. *)
Definition nested_step (current : JsValue) (key : string) : Completion JsValue :=
  if truthy current then
    probe ← js_get current key;
    if is_undefined probe then Normal JUndefined else js_get current key
  else Normal JUndefined.

(** [getNestedValue(obj, path)] *)
Definition getNestedValue (obj : JsValue) (path : string) : Completion JsValue :=
  if negb (truthy obj) || negb (truthy (JStr path)) then Normal JUndefined
  else try_catch (reduceM nested_step (split "." path) obj)
                 (fun _ => Normal JUndefined).

(** [handleMissingKey(key, fallback)] *)
Definition handleMissingKey (key : string) (fallback : JsValue) : Completion JsValue :=
  if is_default_marker fallback then
    match last_part (split "." key) with
    | Some lastPart =>
        Normal (JStr ("[MISSING: "
                        +:+ capitalize_words (replace_separators lastPart)
                        +:+ "]"))
    | None => Throw "TypeError"
    end
  else Normal fallback.

(** [this.getNestedValue(this.translations[lang], key)] *)
Definition lookup_in (st : State) (lang key : string) : Completion JsValue :=
  getNestedValue (object_get (translations st) lang) key.

(** [t(key, fallback = '[MISSING]')]: an absent or [undefined] second
    argument takes the default. *)
Definition t (st : State) (key : string) (fallback : JsValue) : Completion JsValue :=
  let fallback := if is_undefined fallback then JStr MISSING else fallback in
  try_catch
    (translation ← lookup_in st (currentLang st) key;
     if usable translation then Normal translation
     else if negb (String.eqb (currentLang st) (fallbackLang st)) then
       fallbackTranslation ← lookup_in st (fallbackLang st) key;
       if usable fallbackTranslation then Normal fallbackTranslation
       else handleMissingKey key fallback
     else handleMissingKey key fallback)
    (fun _ => handleMissingKey key fallback).

(** Whether the lookup of a key in a language gives a value that [t]
    returns: one that is neither [undefined], [null] nor empty. *)
Definition resolves (st : State) (lang key : string) : bool :=
  match lookup_in st lang key with
  | Normal v => usable v
  | Throw _ => false
  end.

(** [t] as callers reach it with a key read from data, which may not be a
    string: then [getNestedValue] yields [undefined] in both languages, and
    [handleMissingKey], needing [key.split], raises for the default marker
    (in the [try] and again in the [catch]). *)
Definition t_of (st : State) (key fallback : JsValue) : Completion JsValue :=
  match key with
  | JStr k => t st k fallback
  | _ =>
      let fallback := if is_undefined fallback then JStr MISSING else fallback in
      if is_default_marker fallback then Throw "TypeError" else Normal fallback
  end.

End Lookup.

(** The placeholder [handleMissingKey] builds for the default marker. *)
Definition placeholder (segment : string) : string :=
  "[MISSING: " +:+ capitalize_words (replace_separators segment) +:+ "]".

(** A key is present in a dictionary when each of its dotted segments is
    an own property along the path. *)
Fixpoint present_path (obj : JsValue) (segments : list string) : bool :=
  match segments with
  | [] => true
  | seg :: rest =>
      match obj with
      | JObj props =>
          match props !! seg with
          | Some child => present_path child rest
          | None => false
          end
      | _ => false
      end
  end.

Definition present (st : State) (lang key : string) : bool :=
  match translations st !! lang with
  | Some dict => negb (String.eqb key EmptyString) && present_path dict (split "." key)
  | None => false
  end.

(** *** State changes *)
Definition with_lang (lang : string) (st : State) : State :=
  {| currentLang := lang; translations := translations st;
     fallbackLang := fallbackLang st; storageKey := storageKey st |}.

(** [this.translations[lang] = dict] *)
Definition set_translation (lang : string) (dict : JsValue) (st : State) : State :=
  {| currentLang := currentLang st;
     translations := <[lang := dict]> (translations st);
     fallbackLang := fallbackLang st; storageKey := storageKey st |}.

(** The calls [set] and [init] make beyond the binder, in the order they
    are made: the update of the switcher buttons, the hreflang update of the
    SEO manager, the [languageChanged] event, the direct call of the app, and
    the console line. *)
Inductive Event : Type :=
| SwitcherSynced (lang : string)
| HreflangUpdated (lang : string)
| LanguageChanged (lang : string)
| AppLanguageChange (lang : string)
| Logged (message : string).

(** The page: the [I18n] object, the installed error handler, the
    environment, the document, whether [window.seoManager] and [window.app]
    (with its [handleLanguageChange]) exist, and the calls made so far. *)
Record Page : Type := {
  i18n : State;
  handler : ErrorHandler.Handler;
  env : Env;
  document : Document;
  seoManager : bool;
  app : bool;
  events : list Event
}.

Definition with_i18n (st : State) (p : Page) : Page :=
  {| i18n := st; handler := handler p; env := env p; document := document p;
     seoManager := seoManager p; app := app p; events := events p |}.

Definition with_env (e : Env) (p : Page) : Page :=
  {| i18n := i18n p; handler := handler p; env := e; document := document p;
     seoManager := seoManager p; app := app p; events := events p |}.

Definition with_document (d : Document) (p : Page) : Page :=
  {| i18n := i18n p; handler := handler p; env := env p; document := d;
     seoManager := seoManager p; app := app p; events := events p |}.

Definition record (happened : list Event) (p : Page) : Page :=
  {| i18n := i18n p; handler := handler p; env := env p; document := document p;
     seoManager := seoManager p; app := app p; events := events p ++ happened |}.

(** The literal of [getFallbackTranslations]. *)
Definition fallbacks : gmap string JsValue :=
  list_to_map [
    ("en", obj [
      ("nav", obj [
        ("home", JStr "Home");
        ("about", JStr "About Us");
        ("projects", JStr "Projects");
        ("contact", JStr "Contact");
        ("logo", JStr "ConstructCo") ]);
      ("hero", obj [
        ("title", JStr "Professional Construction Consulting");
        ("subtitle", JStr "Expert guidance for your construction projects");
        ("cta", JStr "View Our Projects") ]);
      ("loading", obj [
        ("default", JStr "Loading...");
        ("error", JStr "Failed to load content. Please try again.") ]) ]);
    ("lo", obj [
      ("nav", obj [
        ("home", JStr "ໜ້າຫຼັກ");
        ("about", JStr "ກ່ຽວກັບພວກເຮົາ");
        ("projects", JStr "ໂຄງການ");
        ("contact", JStr "ຕິດຕໍ່");
        ("logo", JStr "ConstructCo") ]);
      ("hero", obj [
        ("title", JStr "ບໍລິການປຶກສາກໍ່ສ້າງແບບມືອາຊີບ");
        ("subtitle", JStr "ຄໍາແນະນໍາຈາກຜູ້ຊ່ຽວຊານສໍາລັບໂຄງການກໍ່ສ້າງຂອງທ່ານ");
        ("cta", JStr "ເບິ່ງໂຄງການຂອງພວກເຮົາ") ]);
      ("loading", obj [
        ("default", JStr "ກໍາລັງໂຫລດ...");
        ("error", JStr "ບໍ່ສາມາດໂຫລດເນື້ອຫາໄດ້. ກະລຸນາລອງໃໝ່.") ]) ]) ].

(** [24 * 60 * 60 * 1000] *)
Definition cache_window : Z := 24 * 60 * 60 * 1000.

Section Binder.
Context {RT : JsRuntime}.

(** The body of the [forEach] in [applyTranslations], for one element of
    the document: elements without [data-i18n] are not selected.  The
    attribute target is a string of the page, and [setAttribute] raises when
    it is not the name of an attribute. *)
Definition bind_element (st : State) (element : Element) : Completion Element :=
  match attrs element !! "data-i18n" with
  | None => Normal element
  | Some key =>
      translation ← t st key JUndefined;
      match attrs element !! "data-i18n-attr" with
      | Some attr =>
          if valid_attribute_name attr
          then Normal (setAttribute attr (dom_string translation) element)
          else Throw "InvalidCharacterError"
      | None => Normal (set_textContent (nullable_dom_string translation) element)
      end
  end.

(** [elements.forEach(...)]: the callback runs on the elements in document
    order; when it raises, the elements before stay as it left them and the
    others stay as they were. *)
Fixpoint bind_each (st : State) (l : list Element) : list Element * Completion unit :=
  match l with
  | [] => ([], Normal ())
  | element :: rest =>
      match bind_element st element with
      | Normal shown =>
          let '(others, done) := bind_each st rest in (shown :: others, done)
      | Throw e => (element :: rest, Throw e)
      end
  end.

(** [applyTranslations()]: the document it leaves, and how it ends. *)
Definition applyTranslations (st : State) (d : Document) : Document * Completion unit :=
  match bind_element st (root d) with
  | Normal shown =>
      let '(others, done) := bind_each st (descendants d) in
      ({| root := shown; descendants := others |}, done)
  | Throw e => (d, Throw e)
  end.

(** [updateHtmlLang()] *)
Definition updateHtmlLang (st : State) (d : Document) : Document :=
  {| root := setAttribute "lang" (currentLang st) (root d);
     descendants := descendants d |}.

(** One step of [updateMetaTags]: find an element that carries a key and
    write the translation of the key somewhere. *)
Definition translate_into (st : State) (sel : Element -> bool)
  (write : string -> Document -> Document) (d : Document) : Completion Document :=
  match querySelector sel d with
  | None => Normal d
  | Some found =>
      match attrs found !! "data-i18n" with
      | None => Throw "TypeError"
      | Some key =>
          translation ← t st key JUndefined;
          Normal (write (dom_string translation) d)
      end
  end.

Definition title_with_key (e : Element) : bool :=
  is_tag "title" e && has_attr "data-i18n" e.

Definition meta_with_key (name value : string) (e : Element) : bool :=
  is_tag "meta" e && attr_is name value e && has_attr "data-i18n" e.

(** [document.title = value]: the text of the first [title] element. *)
Definition set_document_title (value : string) (d : Document) : Document :=
  update_first_in (is_tag "title") (set_textContent value) d.

Definition set_content_of (sel : Element -> bool) (value : string)
  (d : Document) : Document :=
  update_first_in sel (setAttribute "content" value) d.

(** [updateMetaTags()] *)
Definition updateMetaTags (st : State) (d : Document) : Completion Document :=
  d1 ← translate_into st title_with_key set_document_title d;
  d2 ← translate_into st (meta_with_key "name" "description")
         (set_content_of (meta_with_key "name" "description")) d1;
  d3 ← translate_into st (meta_with_key "property" "og:title")
         (set_content_of (meta_with_key "property" "og:title")) d2;
  d4 ← translate_into st (meta_with_key "property" "og:description")
         (set_content_of (meta_with_key "property" "og:description")) d3;
  Normal
    (set_content_of (fun e => is_tag "meta" e && attr_is "property" "og:locale" e)
       (if String.eqb (currentLang st) "lo" then "lo_LA" else "en_US") d4).

(** [.language-switcher] and [.lang-option] *)
Definition language_switcher (e : Element) : bool :=
  bool_decide ("language-switcher" ∈ classList e).

Definition lang_option (e : Element) : bool :=
  bool_decide ("lang-option" ∈ classList e).

(** The body of the [forEach] in [updateLanguageSwitcher]: an option
    without [data-lang] is the option of no language. *)
Definition sync_option (st : State) (option : Element) : Element :=
  if lang_option option then
    let current := bool_decide (attrs option !! "data-lang" = Some (currentLang st)) in
    setAttribute "aria-pressed" (if current then "true" else "false")
      (classList_toggle "active" current option)
  else option.

(** The elements after the first switcher, among which its options are.
    The options inside the first switcher are taken to be the [.lang-option]
    elements that follow it, which is where [createLanguageSwitcher] puts
    them. *)
Fixpoint sync_after_switcher (st : State) (l : list Element) : list Element :=
  match l with
  | [] => []
  | e :: rest =>
      if language_switcher e then e :: (sync_option st <$> rest)
      else e :: sync_after_switcher st rest
  end.

(** [updateLanguageSwitcher()] *)
Definition updateLanguageSwitcher (st : State) (d : Document) : Document :=
  if language_switcher (root d)
  then {| root := root d; descendants := sync_option st <$> descendants d |}
  else {| root := root d; descendants := sync_after_switcher st (descendants d) |}.

(** A line break and the indentation that follows it in a template. *)
Fixpoint spaces (n : nat) : string :=
  match n with
  | O => EmptyString
  | S m => String " " (spaces m)
  end.

Definition line (indentation : nat) : string := String "010" (spaces indentation).

(** One button of the literal of [createLanguageSwitcher], with its two
    spans. *)
Definition created_option (lang label code name : string) : list Element :=
  [ {| tag := "button";
       attrs := list_to_map [("class", "lang-option"); ("data-lang", lang);
                             ("aria-label", label)];
       text := line 8 +:+ line 8 +:+ line 6 |};
    {| tag := "span"; attrs := {[ "class" := "lang-code" ]}; text := code |};
    {| tag := "span"; attrs := {[ "class" := "lang-name" ]}; text := name |} ].

(** [createLanguageSwitcher(container)]: the elements the literal makes,
    and the text that is left in the container itself. *)
Definition createLanguageSwitcher : list Element :=
  (created_option "en" "Switch to English" "EN" "English"
   ++ created_option "lo" "Switch to Lao" "ລາວ" "ລາວ")%list.

Definition filled (container : Element) : Element :=
  set_textContent (line 6 +:+ line 6 +:+ line 4) container.

(** [initLanguageSwitcher()]: a first switcher without options, which is
    empty as the shell writes it, gets the two buttons, then the options are
    brought up to date.  (The click handlers it adds call [set].) *)
Fixpoint init_after_switcher (st : State) (l : list Element) : list Element :=
  match l with
  | [] => []
  | e :: rest =>
      if language_switcher e then
        if existsb lang_option rest then e :: (sync_option st <$> rest)
        else filled e :: (sync_option st <$> (createLanguageSwitcher ++ rest)%list)
      else e :: init_after_switcher st rest
  end.

Definition initLanguageSwitcher (st : State) (d : Document) : Document :=
  if language_switcher (root d) then
    if existsb lang_option (descendants d)
    then {| root := root d; descendants := sync_option st <$> descendants d |}
    else {| root := filled (root d);
            descendants := sync_option st <$> (createLanguageSwitcher ++ descendants d)%list |}
  else {| root := root d; descendants := init_after_switcher st (descendants d) |}.

(** [localStorage.setItem(key, value)], which raises when the storage does
    not take the value. *)
Definition try_setItem (key value : string) (e : Env) : Completion Env :=
  if storage_accepts (localStorage e) key value then Normal (setItem key value e)
  else Throw "QuotaExceededError".

Section Switch.

(** [window.location.pathname] *)
Variable pathname : string.

(** What the listeners of [languageChanged] do to the page when the event
    is dispatched; what a listener raises is reported, not raised to the
    one who dispatches. *)
Variable languageChanged : string -> Page -> Page.

(** [window.app.handleLanguageChange(language)], which re-renders what the
    app has put on the page. *)
Variable handleLanguageChange : string -> Page -> Page * Completion unit.

(** The end of [set]: the event is dispatched, the app is called when it
    is there, and the console line is written. *)
Definition notify (p : Page) (language : string) : Page * Completion unit :=
  let p1 := languageChanged language (record [LanguageChanged language] p) in
  if app p1 then
    let '(p2, handled) :=
      handleLanguageChange language (record [AppLanguageChange language] p1) in
    match handled with
    | Throw e => (p2, Throw e)
    | Normal _ => (record [Logged ("Language changed to: " +:+ language)] p2, Normal ())
    end
  else (record [Logged ("Language changed to: " +:+ language)] p1, Normal ()).

(** [set(language)]: the page it leaves, and how it ends.  The language is
    assigned first and stays assigned when a later step raises. *)
Definition set (p : Page) (language : string) : Page * Completion unit :=
  if String.eqb language (currentLang (i18n p)) then (p, Normal ())
  else
    let st := with_lang language (i18n p) in
    let p1 := with_i18n st p in
    match try_setItem (storageKey st) language (env p1) with
    | Throw e => (p1, Throw e)
    | Normal stored =>
        let p2 := with_env stored p1 in
        let '(d1, bound) := applyTranslations st (document p2) in
        match bound with
        | Throw e => (with_document d1 p2, Throw e)
        | Normal _ =>
            match updateMetaTags st (updateHtmlLang st d1) with
            | Throw e => (with_document (updateHtmlLang st d1) p2, Throw e)
            | Normal d2 =>
                let p3 := record [SwitcherSynced language]
                            (with_document (updateLanguageSwitcher st d2) p2) in
                let p4 :=
                  if seoManager p3
                  then record [HreflangUpdated language]
                         (with_document
                            (SEOManager.updateHreflangTags pathname language (document p3))
                            p3)
                  else p3 in
                notify p4 language
            end
        end
    end.

End Switch.

(** [getFallbackTranslations(lang)]: [fallbacks[lang] || fallbacks.en] *)
Definition getFallbackTranslations (lang : string) : JsValue :=
  if truthy (object_get fallbacks lang) then object_get fallbacks lang
  else object_get fallbacks "en".

(** [Date.now() - data.timestamp < 24 * 60 * 60 * 1000] *)
Definition fresh (now : Z) (stamp : JsValue) : bool :=
  match number_of stamp with
  | Some n => now - n <? cache_window
  | None => false
  end.

(** The [try] block of [loadFromCache]; falling out of it leads to the
    final [return null]. *)
Definition read_cache_entry (cached : option string) (now : Z) : Completion JsValue :=
  match cached with
  | Some raw =>
      if truthy (JStr raw) then
        match json_parse raw with
        | None => Throw "SyntaxError"
        | Some data =>
            stamp ← js_get data "timestamp";
            if fresh now stamp then js_get data "translations"
            else Normal JNull
        end
      else Normal JNull
  | None => Normal JNull
  end.

(** [loadFromCache(lang)] *)
Definition loadFromCache (lang : string) (e : Env) : Completion JsValue * Env :=
  let '(cached, e1) := getItem ("i18n-cache-" +:+ lang) e in
  (try_catch (read_cache_entry cached (clock e1)) (fun _ => Normal JNull), e1).

(** The [try] block of [loadTranslations] after the fetch. *)
Definition parsed_dictionary (lang : string) (res : Completion Response)
  : Completion JsValue :=
  response ← res;
  if negb (ok response)
  then Throw ("Failed to load " +:+ lang +:+ ".json: " +:+ pretty (status response))
  else match json_parse (body response) with
       | Some dict => Normal dict
       | None => Throw "SyntaxError"
       end.

Section Loading.
Variable network : Network.

(** The body of the loop of [loadTranslations] for one language. *)
Definition load_language (acc : State * ErrorHandler.Handler * Env) (lang : string)
  : State * ErrorHandler.Handler * Env :=
  let '(st, h, e) := acc in
  let '(res, h1, e1) :=
    ErrorHandler.fetch network h e ("assets/i18n/" +:+ lang +:+ ".json") in
  match parsed_dictionary lang res with
  | Normal dict => (set_translation lang dict st, h1, e1)
  | Throw _ =>
      let st1 := set_translation lang (getFallbackTranslations lang) st in
      let '(cachedTranslations, e2) := loadFromCache lang e1 in
      match cachedTranslations with
      | Normal cached =>
          if truthy cached then
            (set_translation lang
               (JObj (spread cached ∪ spread (object_get (translations st1) lang)))
               st1, h1, e2)
          else (st1, h1, e2)
      | Throw _ => (st1, h1, e2)
      end
  end.

(** [loadTranslations()] *)
Definition loadTranslations (acc : State * ErrorHandler.Handler * Env)
  : State * ErrorHandler.Handler * Env :=
  fold_left load_language ["en"; "lo"] acc.

(** [init(defaultLang = 'en')].  What the [try] raises (the binder, on an
    attribute target that is no name) ends in the [catch]: the language is
    set to English and the page stays as the binder left it. *)
Definition init (p : Page) (defaultLang : string) : Page :=
  let '(storedLang, e1) := getItem (storageKey (i18n p)) (env p) in
  let lang := match storedLang with
              | Some s => if truthy (JStr s) then s else defaultLang
              | None => defaultLang
              end in
  let '(st, h, e2) := loadTranslations (with_lang lang (i18n p), handler p, e1) in
  let '(d, bound) := applyTranslations st (document p) in
  match bound with
  | Normal _ =>
      {| i18n := st; handler := h; env := e2;
         document := initLanguageSwitcher st (updateHtmlLang st d);
         seoManager := seoManager p; app := app p;
         events := events p ++ [SwitcherSynced (currentLang st);
                                Logged ("i18n initialized with language: "
                                          +:+ currentLang st)] |}
  | Throw _ =>
      {| i18n := with_lang "en" st; handler := h; env := e2;
         document := d; seoManager := seoManager p; app := app p;
         events := events p |}
  end.

End Loading.
End Binder.

Section Cache.
(** [JSON.stringify], [None] when it raises. *)
Variable json_stringify : JsValue -> option string.

(** The object [{ translations, timestamp: Date.now() }]. *)
Definition cache_entry (translations : JsValue) (now : Z) : JsValue :=
  obj [("translations", translations); ("timestamp", JNum now)].

(** [saveToCache(lang, translations)]: what the [try] raises is logged and
    dropped.  localStorage is taken to accept the write. *)
Definition saveToCache (lang : string) (translations : JsValue) (e : Env) : Env :=
  match json_stringify (cache_entry translations (clock e)) with
  | Some serialized => setItem ("i18n-cache-" +:+ lang) serialized e
  | None => e
  end.

End Cache.

End I18n.

(** ** App: the projects page *)
Module App.

(** A project card: the record it was built from (which its click handler
    keeps), its position in the grid (the reveal delay is a tenth of a
    second times the position) and the texts placed in its markup. *)
Record Card : Type := {
  card_project : JsValue;
  card_index : nat;
  card_slug : string;
  card_cover : string;
  card_title : string;
  card_summary : string;
  card_location : string;
  card_year : string;
  card_scope : string
}.

(** The content of a grid container. *)
Inductive Grid : Type :=
| GridMarkup (html : string)
| GridEmpty (message : string)
| GridCards (cards : list Card).

(** The [#project-detail] section: whether it is shown (the class [hidden]
    is absent) and the project whose detail markup fills it. *)
Record Detail : Type := {
  visible : bool;
  shown : option JsValue
}.

(** Callbacks waiting in [setTimeout], with their delay. *)
Inductive Timer : Type :=
| ShowDetailGuarded (project : JsValue) (delay : Z)
| ShowDetailLater (project : JsValue) (delay : Z)
| FocusCloseButton (delay : Z).

(** The [App] object on the projects page together with the parts of the
    page it works on.  A missing grid or section is [None]. *)
Record State : Type := {
  projects : JsValue;
  initialHash : option string;
  ongoingGrid : option Grid;
  completedGrid : option Grid;
  detailSection : option Detail;
  location_hash : string;
  timers : list Timer;
  hashchange_bound : bool
}.

Definition with_projects (v : JsValue) (a : State) : State :=
  {| projects := v; initialHash := initialHash a; ongoingGrid := ongoingGrid a;
     completedGrid := completedGrid a; detailSection := detailSection a;
     location_hash := location_hash a; timers := timers a;
     hashchange_bound := hashchange_bound a |}.

Definition with_initialHash (h : string) (a : State) : State :=
  {| projects := projects a; initialHash := Some h; ongoingGrid := ongoingGrid a;
     completedGrid := completedGrid a; detailSection := detailSection a;
     location_hash := location_hash a; timers := timers a;
     hashchange_bound := hashchange_bound a |}.

Definition with_grids (o c : option Grid) (a : State) : State :=
  {| projects := projects a; initialHash := initialHash a; ongoingGrid := o;
     completedGrid := c; detailSection := detailSection a;
     location_hash := location_hash a; timers := timers a;
     hashchange_bound := hashchange_bound a |}.

Definition with_detail (d : option Detail) (hash : string) (a : State) : State :=
  {| projects := projects a; initialHash := initialHash a; ongoingGrid := ongoingGrid a;
     completedGrid := completedGrid a; detailSection := d;
     location_hash := hash; timers := timers a;
     hashchange_bound := hashchange_bound a |}.

Definition with_timers (ts : list Timer) (a : State) : State :=
  {| projects := projects a; initialHash := initialHash a; ongoingGrid := ongoingGrid a;
     completedGrid := completedGrid a; detailSection := detailSection a;
     location_hash := location_hash a; timers := ts;
     hashchange_bound := hashchange_bound a |}.

Definition with_hashchange (a : State) : State :=
  {| projects := projects a; initialHash := initialHash a; ongoingGrid := ongoingGrid a;
     completedGrid := completedGrid a; detailSection := detailSection a;
     location_hash := location_hash a; timers := timers a;
     hashchange_bound := true |}.

(** [constructor()] on a page with the given grids, detail section and
    URL hash. *)
Definition create (o c : option Grid) (d : option Detail) (hash : string) : State :=
  {| projects := JNull; initialHash := None; ongoingGrid := o; completedGrid := c;
     detailSection := d; location_hash := hash; timers := [];
     hashchange_bound := false |}.

(** [s.substring(1)] *)
Definition substring_from_1 (s : string) : string :=
  match s with
  | EmptyString => EmptyString
  | String _ rest => rest
  end.

Section Projects.
Context {RT : JsRuntime}.
Variable translator : I18n.State.

(** [project && project.status === status] *)
Definition status_is (status : string) (project : JsValue) : Completion bool :=
  if truthy project then
    s ← js_get project "status";
    Normal (is_string status s)
  else Normal false.

(** [p.slug === hash] *)
Definition slug_is (hash : string) (p : JsValue) : Completion bool :=
  s ← js_get p "slug";
  Normal (is_string hash s).

(** A field of the record as a template literal shows it. *)
Definition field_text (project : JsValue) (name : string) : Completion string :=
  v ← js_get project name;
  Normal (dom_string v).

(** [i18n.t(project.summary_i18n_key, 'Project description not available')] *)
Definition summary_of (project : JsValue) : Completion string :=
  key ← js_get project "summary_i18n_key";
  summary ← I18n.t_of translator key (JStr "Project description not available");
  Normal (dom_string summary).

(** [createProjectCard(project, index)] *)
Definition createProjectCard (project : JsValue) (index : nat) : Completion Card :=
  slug ← field_text project "slug";
  summary ← summary_of project;
  cover ← field_text project "cover";
  title ← field_text project "title";
  location ← field_text project "location";
  year ← field_text project "year";
  scope ← field_text project "scope";
  Normal {| card_project := project; card_index := index; card_slug := slug;
            card_cover := cover; card_title := title; card_summary := summary;
            card_location := location; card_year := year; card_scope := scope |}.

(** The [forEach] of [renderProjectGrid]: cards are appended one by one,
    and a card that cannot be built stops the loop with the cards appended
    so far in place. *)
Fixpoint append_cards (projects : list JsValue) (index : nat) (placed : list Card)
  : list Card * Completion unit :=
  match projects with
  | [] => (placed, Normal ())
  | project :: rest =>
      match createProjectCard project index with
      | Normal card => append_cards rest (S index) (placed ++ [card])
      | Throw e => (placed, Throw e)
      end
  end.

(** [renderProjectGrid(container, projects)] for a container that exists. *)
Definition renderProjectGrid (projects : list JsValue) : Grid * Completion unit :=
  match projects with
  | [] =>
      match I18n.t translator "projects.empty"
              (JStr "No projects found in this category.") with
      | Normal message => (GridEmpty (dom_string message), Normal ())
      | Throw e => (GridMarkup EmptyString, Throw e)
      end
  | _ => let '(cards, r) := append_cards projects 0 [] in (GridCards cards, r)
  end.

(** [renderProjectTabs()]: nothing is rendered unless both grids exist and
    [this.projects] is an array; an exception is logged and swallowed. *)
Definition renderProjectTabs (a : State) : State :=
  match ongoingGrid a, completedGrid a, projects a with
  | Some _, Some _, JArr items =>
      match (ongoing ← filterM (status_is "ongoing") items;
             completed ← filterM (status_is "completed") items;
             Normal (ongoing, completed)) with
      | Normal (ongoingProjects, completedProjects) =>
          let '(g1, r1) := renderProjectGrid ongoingProjects in
          match r1 with
          | Normal _ =>
              let '(g2, _) := renderProjectGrid completedProjects in
              with_grids (Some g1) (Some g2) a
          | Throw _ => with_grids (Some g1) (completedGrid a) a
          end
      | Throw _ => a
      end
  | _, _, _ => a
  end.

(** The gallery part of the detail markup:
    [project.gallery && project.gallery.length > 0
       ? this.renderProjectGallery(project.gallery) : ''],
    where [renderProjectGallery] calls [gallery.map]. *)
Definition gallery_markup (project : JsValue) : Completion unit :=
  gallery ← js_get project "gallery";
  if truthy gallery then
    len ← js_get gallery "length";
    match number_of len with
    | Some n =>
        if 0 <? n then
          match gallery with
          | JArr _ => Normal ()
          | _ => Throw "TypeError"
          end
        else Normal ()
    | None => Normal ()
    end
  else Normal ().

(** [showProjectDetail(project)]: without the section nothing happens;
    otherwise the hash is rewritten first, then the markup is built and
    the section shown. *)
Definition showProjectDetail (project : JsValue) (a : State) : State * Completion unit :=
  match detailSection a with
  | None => (a, Normal ())
  | Some d =>
      match field_text project "slug" with
      | Throw e => (a, Throw e)
      | Normal slug =>
          let a1 := with_detail (Some d) ("#" +:+ slug) a in
          match (_ ← summary_of project;
                 _ ← field_text project "cover";
                 _ ← field_text project "title";
                 _ ← field_text project "location";
                 _ ← field_text project "scope";
                 _ ← field_text project "year";
                 _ ← field_text project "status";
                 gallery_markup project) with
          | Throw e => (a1, Throw e)
          | Normal _ =>
              (with_timers (timers a1 ++ [FocusCloseButton 300])
                 (with_detail (Some {| visible := true; shown := Some project |})
                    ("#" +:+ slug) a1),
               Normal ())
          end
      end
  end.

(** [hideProjectDetail()] *)
Definition hideProjectDetail (a : State) : State :=
  match detailSection a with
  | None => a
  | Some d => with_detail (Some {| visible := false; shown := shown d |}) EmptyString a
  end.

(** [<div class="...">...</div>] *)
Definition div_markup (class content : string) : string :=
  "<div class=" +:+ String "034" class +:+ String "034" ">" +:+ content +:+ "</div>".

(** [showProjectsLoading()] and [showProjectsError(message)] *)
Definition fill_grids (html : string) (a : State) : State :=
  with_grids ((fun _ => GridMarkup html) <$> ongoingGrid a)
             ((fun _ => GridMarkup html) <$> completedGrid a) a.

Definition showProjectsLoading (a : State) : State :=
  fill_grids (div_markup "projects-loading" "Loading projects...") a.

Definition showProjectsError (message : string) (a : State) : State :=
  fill_grids (div_markup "projects-error" message) a.

(** [this.projects.find(p => p.slug === hash)] *)
Definition find_by_slug (hash : string) (projects : JsValue) : Completion JsValue :=
  match projects with
  | JArr items =>
      found ← findM (slug_is hash) items;
      Normal (default JUndefined found)
  | _ => Throw "TypeError"
  end.

(** [setupProjectDeepLinking()]: the hash is stored; a detail is scheduled
    only when the projects are already there; the [hashchange] listener is
    registered. *)
Definition setupProjectDeepLinking (a : State) : State * Completion unit :=
  let hash := substring_from_1 (location_hash a) in
  let a1 := with_initialHash hash a in
  if truthy (JStr hash) && truthy (projects a1) then
    match find_by_slug hash (projects a1) with
    | Throw e => (a1, Throw e)
    | Normal project =>
        if truthy project
        then (with_hashchange (with_timers (timers a1 ++ [ShowDetailLater project 500]) a1),
              Normal ())
        else (with_hashchange a1, Normal ())
    end
  else (with_hashchange a1, Normal ()).

(** The [hashchange] listener, for the hash the URL then has. *)
Definition on_hashchange (a : State) : State * Completion unit :=
  let newHash := substring_from_1 (location_hash a) in
  if negb (truthy (JStr newHash)) then (hideProjectDetail a, Normal ())
  else if truthy (projects a) then
    match find_by_slug newHash (projects a) with
    | Throw e => (a, Throw e)
    | Normal project =>
        if truthy project then showProjectDetail project a else (a, Normal ())
    end
  else (a, Normal ()).

Section Loading.
Variable network : Network.

(** The [try] block of [loadProjects] from the fetch to [data.projects || []]. *)
Definition fetched_projects (res : Completion Response) : Completion JsValue :=
  response ← res;
  if negb (ok response)
  then Throw ("Failed to load projects: " +:+ pretty (status response))
  else match json_parse (body response) with
       | None => Throw "SyntaxError"
       | Some data =>
           listed ← js_get data "projects";
           Normal (if truthy listed then listed else JArr [])
       end.

(** The rest of the [try] block once [this.projects] is assigned. *)
Definition after_loading (a : State) : State * Completion unit :=
  match js_get (projects a) "length" with
  | Throw e => (a, Throw e)
  | Normal _ =>
      let a1 := renderProjectTabs a in
      match initialHash a1 with
      | Some hash =>
          if truthy (JStr hash) then
            match find_by_slug hash (projects a1) with
            | Throw e => (a1, Throw e)
            | Normal project =>
                if truthy project
                then (with_timers (timers a1 ++ [ShowDetailGuarded project 500]) a1,
                      Normal ())
                else (a1, Normal ())
            end
          else (a1, Normal ())
      | None => (a1, Normal ())
      end
  end.

(** [loadProjects()] up to its first [await]. *)
Definition loadProjects_begin (a : State) : State := showProjectsLoading a.

(** [loadProjects()] from the settled fetch on.  The outer [catch] resets
    the collection and shows the error message; the completion returned is
    how the promise of [loadProjects] settles. *)
Definition loadProjects_resume (h : ErrorHandler.Handler) (e : Env) (a : State)
  : State * Completion unit * ErrorHandler.Handler * Env :=
  let '(res, h1, e1) := ErrorHandler.fetch network h e "/assets/data/projects.json" in
  match fetched_projects res with
  | Throw _ =>
      (showProjectsError "Failed to load projects. Please try again."
         (with_projects (JArr []) a), Normal (), h1, e1)
  | Normal listed =>
      match after_loading (with_projects listed a) with
      | (a1, Normal _) => (a1, Normal (), h1, e1)
      | (a1, Throw _) =>
          (showProjectsError "Failed to load projects. Please try again."
             (with_projects (JArr []) a1), Normal (), h1, e1)
      end
  end.

(** One timer callback. *)
Definition run_timer (a : State) (timer : Timer) : State * Completion unit :=
  match timer with
  | ShowDetailGuarded project _ =>
      (fst (showProjectDetail project a), Normal ())
  | ShowDetailLater project _ => showProjectDetail project a
  | FocusCloseButton _ => (a, Normal ())
  end.

(** The timers pending now run in order; the ones they schedule stay
    pending.  An exception escaping a callback goes to the global handler
    and does not stop the others. *)
Definition run_pending (a : State) : State :=
  fold_left (fun acc timer => fst (run_timer acc timer)) (timers a)
            (with_timers [] a).

(** [initProjectsPage()] and what follows it on a page load: the
    synchronous part runs [loadProjects] up to its [await] and then
    [setupProjectDeepLinking] (which cannot raise here, the projects being
    [null] still); the fetch settles afterwards; then the timers fire, and
    those scheduled meanwhile fire too.  [setupProjectTabs] only wires the
    tab buttons and is left out. *)
Definition initProjectsPage (a : State) : State * Completion unit :=
  setupProjectDeepLinking (loadProjects_begin a).

Definition page_load (h : ErrorHandler.Handler) (e : Env)
  (o c : option Grid) (d : option Detail) (hash : string)
  : State * Completion unit :=
  let '(a1, _) := initProjectsPage (create o c d hash) in
  let '(a2, settled, _, _) := loadProjects_resume h e a1 in
  (run_pending (run_pending a2), settled).

End Loading.
End Projects.

(** The records that a grid shows, in the order of its cards. *)
Definition grid_records (g : Grid) : list JsValue :=
  match g with
  | GridCards cards => card_project <$> cards
  | _ => []
  end.

(** ** Contact links *)

(** What a click on a contact element asks of the browser: a navigation
    ([window.location.href = href]), a new window
    ([window.open(url, target, features)], the URL being [null] when the
    element has no value) or nothing. *)
Inductive ContactAction : Type :=
| Navigate (href : string)
| OpenWindow (url : option string) (target features : string)
| NoAction.

(** The line feed of ['\n']. *)
Definition LF : string := String "010" EmptyString.

(** The fallback body of the e-mail. *)
Definition email_body : string :=
  "Hello," +:+ LF +:+ LF
  +:+ "I would like to inquire about your construction consulting services."
  +:+ LF +:+ LF +:+ "Best regards".

Definition whatsapp_message : string :=
  "Hello, I would like to inquire about your construction consulting services.".

Section Contact.
Context {RT : JsRuntime}.
Variable translator : I18n.State.

(** [encodeURIComponent(i18n.t(key, fallback))] *)
Definition encoded_translation (key fallback : string) : Completion string :=
  v ← I18n.t translator key (JStr fallback);
  Normal (encodeURIComponent (dom_string v)).

(** [openEmail(email)]; an absent value is [null], which the template
    literal prints as such. *)
Definition openEmail (email : option string) : Completion ContactAction :=
  subject ← encoded_translation "contact.email.subject" "Construction Consulting Inquiry";
  body ← encoded_translation "contact.email.body" email_body;
  Normal (Navigate ("mailto:" +:+ default "null" email
                      +:+ "?subject=" +:+ subject +:+ "&body=" +:+ body)).

(** [openWhatsApp(phone)]: [phone.replace] raises on [null]. *)
Definition openWhatsApp (phone : option string) : Completion ContactAction :=
  message ← encoded_translation "contact.whatsapp.message" whatsapp_message;
  match phone with
  | None => Throw "TypeError"
  | Some number =>
      Normal (OpenWindow
                (Some ("https://wa.me/" +:+ keep_phone_characters number
                         +:+ "?text=" +:+ message))
                "_blank" "noopener,noreferrer")
  end.

(** [openFacebook(url)] *)
Definition openFacebook (url : option string) : ContactAction :=
  OpenWindow url "_blank" "noopener,noreferrer".

(** [handleContactClick(e)], given [e.target.closest('[data-contact-method]')]. *)
Definition handleContactClick (contactElement : option Element)
  : Completion ContactAction :=
  match contactElement with
  | None => Normal NoAction
  | Some element =>
      let value := attrs element !! "data-contact-value" in
      match attrs element !! "data-contact-method" with
      | Some method =>
          if String.eqb method "email" then openEmail value
          else if String.eqb method "whatsapp" then openWhatsApp value
          else if String.eqb method "facebook" then Normal (openFacebook value)
          else Normal NoAction
      | None => Normal NoAction
      end
  end.

(** The click listener [setupContactMethods] puts on a link whose [href]
    starts with [mailto:]: the new value of [href].  Reading the attribute
    gives [null] when it has been removed, and [null.includes] raises. *)
Definition email_link_clicked (href : option string) : Completion string :=
  match href with
  | None => Throw "TypeError"
  | Some href =>
      if negb (includes href "subject=") then
        subject ← encoded_translation "contact.email.subject"
                    "Construction Consulting Inquiry";
        Normal (href +:+ "?subject=" +:+ subject)
      else Normal href
  end.

(** The click listener on a link whose [href] contains [whatsapp]. *)
Definition whatsapp_link_clicked (href : option string) : Completion string :=
  match href with
  | None => Throw "TypeError"
  | Some href =>
      if negb (includes href "text=") then
        message ← encoded_translation "contact.whatsapp.message" whatsapp_message;
        Normal (href +:+ (if includes href "?" then "&" else "?")
                     +:+ "text=" +:+ message)
      else Normal href
  end.

End Contact.

End App.

(** * Scenarios, and the statements of the specification that the results
      are compared with *)

Definition fresh_env : Env :=
  {| localStorage := ∅; storage_reads := []; requests := 0; slept := []; clock := 0 |}.

(** The store of the specification's scenario: [{"nav":{"home":"Home"}}]
    for [en], [{"nav":{"home":""}}] for [lo]. *)
Definition scenario_en : JsValue := obj [("nav", obj [("home", JStr "Home")])].
Definition scenario_lo : JsValue := obj [("nav", obj [("home", JStr EmptyString)])].

Definition scenario_store (active : string) : I18n.State :=
  {| I18n.currentLang := active;
     I18n.translations := list_to_map [("en", scenario_en); ("lo", scenario_lo)];
     I18n.fallbackLang := "en";
     I18n.storageKey := "preferred-language" |}.

(** An optional string argument: absent is [undefined]. *)
Definition optional_text (o : option string) : JsValue :=
  match o with
  | Some s => JStr s
  | None => JUndefined
  end.

(** The placeholder as the specification words it: the last segment of the
    key with underscores and camelCase turned into Title Case, which is what
    [ErrorHandler.generateFallbackText] computes, behind the marker. *)
Definition specified_placeholder (key : string) : Completion JsValue :=
  match ErrorHandler.generateFallbackText key with
  | Normal title => Normal (JStr ("[MISSING: " +:+ title +:+ "]"))
  | Throw e => Throw e
  end.

(** The resolve property as the specification states it, for one key:
    the result is a string, either the translation found in the active or
    the default language, or the specified placeholder. *)
Definition resolves_as_specified `{RT : JsRuntime} (st : I18n.State) (key : string) : Prop :=
  ∃ s : string,
    I18n.t st key JUndefined = Normal (JStr s) ∧
    (I18n.lookup_in st (I18n.currentLang st) key = Normal (JStr s)
     ∨ I18n.lookup_in st (I18n.fallbackLang st) key = Normal (JStr s)
     ∨ specified_placeholder key = Normal (JStr s)).

(** A store whose English dictionary holds a list under a key, as the
    site's dictionaries do for the steps of the approach. *)
Definition list_store : I18n.State :=
  {| I18n.currentLang := "en";
     I18n.translations :=
       list_to_map [("en", obj [("about", obj [("steps", JArr [JStr "Plan"; JStr "Build"])])])];
     I18n.fallbackLang := "en";
     I18n.storageKey := "preferred-language" |}.

(** A store whose English dictionary holds a camelCase key with an empty
    value. *)
Definition camel_store : I18n.State :=
  {| I18n.currentLang := "en";
     I18n.translations :=
       list_to_map [("en", obj [("projects", obj [("viewDetails", JStr EmptyString)])])];
     I18n.fallbackLang := "en";
     I18n.storageKey := "preferred-language" |}.

(** A record of the project collection whose own [status] is the given
    string. *)
Definition record_status_is (status : string) (p : JsValue) : bool :=
  match p with
  | JObj props =>
      match props !! "status" with
      | Some v => is_string status v
      | None => false
      end
  | _ => false
  end.

(** Every record's status is ["ongoing"] or ["completed"]. *)
Definition statused (p : JsValue) : bool :=
  record_status_is "ongoing" p || record_status_is "completed" p.

Definition grid_cards (g : App.Grid) : list App.Card :=
  match g with
  | App.GridCards cards => cards
  | _ => []
  end.

(** The collection of the specification's scenario: [bridge-a] is ongoing
    and [road-b] is completed. *)
Definition bridge_a : JsValue :=
  obj [("slug", JStr "bridge-a"); ("title", JStr "Bridge A");
       ("status", JStr "ongoing"); ("location", JStr "Vientiane");
       ("scope", JStr "Design review"); ("year", JStr "2024");
       ("cover", JStr "/assets/img/projects/bridge-a.jpg");
       ("summary_i18n_key", JStr "projects.bridge_a.summary")].

Definition road_b : JsValue :=
  obj [("slug", JStr "road-b"); ("title", JStr "Road B");
       ("status", JStr "completed"); ("location", JStr "Luang Prabang");
       ("scope", JStr "Supervision"); ("year", JStr "2023");
       ("cover", JStr "/assets/img/projects/road-b.jpg");
       ("summary_i18n_key", JStr "projects.road_b.summary");
       ("gallery", JArr [JStr "/assets/img/projects/road-b-1.jpg"])].

Definition closed_detail : App.Detail :=
  {| App.visible := false; App.shown := None |}.

(** The projects page as served, with the given URL hash. *)
Definition projects_page (hash : string) : App.State :=
  App.create (Some (App.GridMarkup EmptyString)) (Some (App.GridMarkup EmptyString))
             (Some closed_detail) hash.

(** The two codes the site recognizes. *)
Definition recognized (code : string) : bool :=
  String.eqb code "en" || String.eqb code "lo".

(** A page nobody listens on, and an app whose handler does nothing. *)
Definition quiet (language : string) (p : I18n.Page) : I18n.Page := p.

Definition idle (language : string) (p : I18n.Page) : I18n.Page * Completion unit :=
  (p, Normal ()).

(** The switch as the specification states it: an unrecognized code leaves
    the page as it is. *)
Definition rejects_unrecognized `{RT : JsRuntime} (pathname : string)
    (languageChanged : string → I18n.Page → I18n.Page)
    (handleLanguageChange : string → I18n.Page → I18n.Page * Completion unit)
    (p : I18n.Page) (language : string) : Prop :=
  recognized language = false →
  I18n.set pathname languageChanged handleLanguageChange p language = (p, Normal ()).

(** A small site: two dictionaries served as [en.json] and [lo.json], and a
    document whose title is bound with an attribute target and whose
    navigation link is bound as text. *)
Definition site_en : JsValue :=
  obj [("site", obj [("title", JStr "TPEC Consulting")]);
       ("nav", obj [("home", JStr "Home")])].

Definition site_lo : JsValue :=
  obj [("site", obj [("title", JStr "TPEC Lao")]);
       ("nav", obj [("home", JStr "ໜ້າຫຼັກ")])].

Definition site_parse (source : string) : option JsValue :=
  if String.eqb source "en-dictionary" then Some site_en
  else if String.eqb source "lo-dictionary" then Some site_lo
  else None.

Definition site_runtime : JsRuntime := runtime_parsing site_parse.

Definition site_network : Network := fun url _ =>
  Resolved {| ok := true; status := 200; statusText := "OK";
              body := if String.eqb url "assets/i18n/en.json"
                      then "en-dictionary" else "lo-dictionary" |}.

Definition served_document : Document :=
  {| root := {| tag := "html"; attrs := {[ "lang" := "en" ]}; text := EmptyString |};
     descendants :=
       [ {| tag := "title";
            attrs := list_to_map [("data-i18n", "site.title");
                                  ("data-i18n-attr", "data-label")];
            text := "Construction Consulting" |};
         {| tag := "a";
            attrs := list_to_map [("data-i18n", "nav.home"); ("href", "/")];
            text := "Home" |} ] |}.

Definition served_page : I18n.Page :=
  {| I18n.i18n := I18n.initial; I18n.handler := ErrorHandler.create;
     I18n.env := fresh_env; I18n.document := served_document;
     I18n.seoManager := false; I18n.app := false; I18n.events := [] |}.

(** The page once [init] has run with English as the language. *)
Definition english_page : I18n.Page :=
  I18n.init (RT := site_runtime) site_network served_page "en".

(** The same site with the title bound as text, after [init], once the app
    has rendered a project detail: among its headings is the one for the
    scope, bound to [projects.details.scope] and filled with
    [i18n.t('projects.details.scope', 'Project Scope')], a key that neither
    dictionary of the site has. *)
Definition plain_document : Document :=
  {| root := {| tag := "html"; attrs := {[ "lang" := "en" ]}; text := EmptyString |};
     descendants :=
       [ {| tag := "title"; attrs := {[ "data-i18n" := "site.title" ]};
            text := "Construction Consulting" |};
         {| tag := "a";
            attrs := list_to_map [("data-i18n", "nav.home"); ("href", "/")];
            text := "Home" |} ] |}.

Definition scope_heading : Element :=
  {| tag := "h3"; attrs := {[ "data-i18n" := "projects.details.scope" ]};
     text := "Project Scope" |}.

Definition with_rendered (extra : list Element) (p : I18n.Page) : I18n.Page :=
  {| I18n.i18n := I18n.i18n p; I18n.handler := I18n.handler p; I18n.env := I18n.env p;
     I18n.document := {| root := root (I18n.document p);
                         descendants := descendants (I18n.document p) ++ extra |};
     I18n.seoManager := I18n.seoManager p; I18n.app := I18n.app p;
     I18n.events := I18n.events p |}.

Definition detail_page : I18n.Page :=
  with_rendered [scope_heading]
    (I18n.init (RT := site_runtime) site_network
       {| I18n.i18n := I18n.initial; I18n.handler := ErrorHandler.create;
          I18n.env := fresh_env; I18n.document := plain_document;
          I18n.seoManager := false; I18n.app := false; I18n.events := [] |}
       "en").

(** An element bound through the translation-key attribute. *)
Definition bound (e : Element) : bool := has_attr "data-i18n" e.

(** The round trip as the specification states it: after switching to [lo]
    and back to [en], every bound element has the text it had. *)
Definition round_trip_restores `{RT : JsRuntime} (pathname : string)
    (languageChanged : string → I18n.Page → I18n.Page)
    (handleLanguageChange : string → I18n.Page → I18n.Page * Completion unit)
    (p : I18n.Page) : Prop :=
  ∃ p1 p2,
    I18n.set pathname languageChanged handleLanguageChange p "lo" = (p1, Normal ())
    ∧ I18n.set pathname languageChanged handleLanguageChange p1 "en" = (p2, Normal ())
    ∧ ∀ i e0 e2,
        elements (I18n.document p) !! i = Some e0 →
        elements (I18n.document p2) !! i = Some e2 →
        bound e0 = true → text e2 = text e0.

(** The value of [this.t(key)]. *)
Definition translated `{RT : JsRuntime} (st : I18n.State) (key : string) : JsValue :=
  match I18n.t st key JUndefined with
  | Normal v => v
  | Throw _ => JUndefined
  end.

(** What the binder does to one element when it does not raise. *)
Definition rebind `{RT : JsRuntime} (st : I18n.State) (e : Element) : Element :=
  match attrs e !! "data-i18n" with
  | None => e
  | Some key =>
      match attrs e !! "data-i18n-attr" with
      | Some attr => setAttribute attr (dom_string (translated st key)) e
      | None => set_textContent (nullable_dom_string (translated st key)) e
      end
  end.

(** An element the binder can bind: its attribute target, when it is bound
    and has one, is a name [setAttribute] takes. *)
Definition valid_target `{RT : JsRuntime} (e : Element) : bool :=
  match attrs e !! "data-i18n", attrs e !! "data-i18n-attr" with
  | Some _, Some attr => valid_attribute_name attr
  | _, _ => true
  end.

(** The elements as the binder leaves them: bound up to the first one whose
    target is no name. *)
Fixpoint rebind_until `{RT : JsRuntime} (st : I18n.State) (l : list Element)
  : list Element :=
  match l with
  | [] => []
  | e :: rest => if valid_target e then rebind st e :: rebind_until st rest else e :: rest
  end.

(** A change of attributes only, and only of the attributes named. *)
Definition attr_step (names : list string) (e e' : Element) : Prop :=
  tag e' = tag e ∧ text e' = text e
  ∧ ∀ k, k ∉ names → attrs e' !! k = attrs e !! k.

(** The attributes that the update of the switcher and the SEO manager
    write. *)
Definition decorations : list string :=
  ["class"; "aria-pressed"; "href"; "lang"; "content"].

(** What the theorems ask of the listeners of [languageChanged] and of the
    handler of the app: that they leave the [I18n] object and localStorage
    alone, and that they leave alone the element in a given place of the
    document (one that is not in a container they fill). *)
Definition keeps_store (f : string → I18n.Page → I18n.Page) : Prop :=
  ∀ language q,
    I18n.i18n (f language q) = I18n.i18n q
    ∧ localStorage (I18n.env (f language q)) = localStorage (I18n.env q).

Definition keeps_element (i : nat) (f : string → I18n.Page → I18n.Page) : Prop :=
  ∀ language q,
    elements (I18n.document (f language q)) !! i = elements (I18n.document q) !! i.

(** The page a handler leaves. *)
Definition left_by (handle : string → I18n.Page → I18n.Page * Completion unit)
    (language : string) (q : I18n.Page) : I18n.Page :=
  (handle language q).1.

(** The state of a document the binder has been through: every bound
    element without attribute target shows the translation of its key. *)
Definition shows_translation `{RT : JsRuntime} (st : I18n.State) (e : Element) : bool :=
  match attrs e !! "data-i18n", attrs e !! "data-i18n-attr" with
  | Some key, None => String.eqb (text e) (nullable_dom_string (translated st key))
  | _, _ => true
  end.

(** A title element that is bound with an attribute target. *)
Definition title_with_target (e : Element) : bool :=
  is_tag "title" e && has_attr "data-i18n-attr" e.

(** How [updateMetaTags] may change an element: only the [content]
    attribute, and the text of a title, which becomes the translation of
    the key the title carries. *)
Definition meta_step `{RT : JsRuntime} (st : I18n.State) (e e' : Element) : Prop :=
  tag e' = tag e
  ∧ (∀ k, k ≠ "content" → attrs e' !! k = attrs e !! k)
  ∧ (text e' = text e
     ∨ (is_tag "title" e = true
        ∧ ∀ key, attrs e !! "data-i18n" = Some key →
                 text e' = dom_string (translated st key))).

(** How one run of [set] to another language changes an element. *)
Definition switch_step `{RT : JsRuntime} (st : I18n.State) (e e' : Element) : Prop :=
  tag e' = tag e
  ∧ has_attr "data-i18n-attr" e' = has_attr "data-i18n-attr" e
  ∧ (has_attr "data-i18n-attr" e = false →
     attrs e' !! "data-i18n" = attrs e !! "data-i18n"
     ∧ ∀ key, attrs e !! "data-i18n" = Some key →
              text e' = nullable_dom_string (translated st key))
  ∧ (has_attr "data-i18n-attr" e = true → is_tag "title" e = false →
     text e' = text e).

(** A record of the project collection whose own [slug] is the given
    string. *)
Definition record_slug_is (slug : string) (p : JsValue) : bool :=
  match p with
  | JObj props =>
      match props !! "slug" with
      | Some v => is_string slug v
      | None => false
      end
  | _ => false
  end.

(** A record in the format of the project collection, as far as the detail
    view reads it: an object with a string [slug] whose [gallery], when it
    has one, is an array. *)
Definition displayable `{RT : JsRuntime} (p : JsValue) : bool :=
  match p with
  | JObj props =>
      match props !! "slug" with
      | Some (JStr _) =>
          match object_get props "gallery" with
          | JArr _ => true
          | gallery => negb (truthy gallery)
          end
      | _ => false
      end
  | _ => false
  end.

(** The project list served as [projects.json] in the scenario. *)
Definition scenario_parse (source : string) : option JsValue :=
  if String.eqb source "project-list"
  then Some (obj [("projects", JArr [bridge_a; road_b])])
  else None.

Definition scenario_runtime : JsRuntime := runtime_parsing scenario_parse.

Definition scenario_network : Network := fun _ _ =>
  Resolved {| ok := true; status := 200; statusText := "OK"; body := "project-list" |}.

(** A visitor who is offline and has a cached Lao dictionary, stamped at
    [stamp], while the clock reads [now]. *)
Definition cached_entry (stamp : Z) : JsValue :=
  obj [("translations", obj [("nav", obj [("home", JStr "Cached home")])]);
       ("timestamp", JNum stamp)].

Definition offline_runtime (stamp : Z) : JsRuntime :=
  runtime_parsing (fun source =>
    if String.eqb source "cached-lo" then Some (cached_entry stamp) else None).

Definition offline_network : Network := fun _ _ => Rejected "Failed to fetch".

Definition offline_env (now : Z) : Env :=
  {| localStorage := {[ "i18n-cache-lo" := "cached-lo" ]}; storage_reads := [];
     requests := 0; slept := []; clock := now |}.

(** The store and the environment after [loadTranslations], with Lao as
    the language. *)
Definition offline_load (stamp now : Z) : I18n.State * ErrorHandler.Handler * Env :=
  I18n.loadTranslations (RT := offline_runtime stamp) offline_network
    (I18n.with_lang "lo" I18n.initial, ErrorHandler.create, offline_env now).

(** The environment after [k] more requests and the given waits. *)
Definition after_requests (k : nat) (delays : list Z) (e : Env) : Env :=
  {| localStorage := localStorage e; storage_reads := storage_reads e;
     requests := (requests e + k)%nat; slept := slept e ++ delays;
     clock := clock e + foldr Z.add 0 delays |}.

(** A network whose first [failures] requests are rejected and whose later
    requests are answered. *)
Definition flaky_network (failures : nat) : Network := fun _ n =>
  if (n <? failures)%nat then Rejected "Failed to fetch"
  else Resolved {| ok := true; status := 200; statusText := "OK"; body := "payload" |}.

(** The value a dictionary holds under a path of own properties. *)
Fixpoint stored_at (v : JsValue) (segments : list string) : option JsValue :=
  match segments with
  | [] => Some v
  | segment :: rest =>
      match v with
      | JObj props =>
          match props !! segment with
          | Some child => stored_at child rest
          | None => None
          end
      | _ => None
      end
  end.

(** An element whose attribute target is one of the two attributes the
    binder itself reads. *)
Definition targets_binder (e : Element) : bool :=
  match attrs e !! "data-i18n-attr" with
  | Some attr =>
      String.eqb (lowercase attr) "data-i18n"
      || String.eqb (lowercase attr) "data-i18n-attr"
  | None => false
  end.

(** [meta[property="og:locale"]] *)
Definition og_locale_meta (e : Element) : bool :=
  is_tag "meta" e && attr_is "property" "og:locale" e.

(** The locale [updateMetaTags] writes for a language. *)
Definition locale_of (lang : string) : string :=
  if String.eqb lang "lo" then "lo_LA" else "en_US".

(** A page as a reload builds it: a new [I18n] object and error handler
    over the storage the previous page left. *)
Definition reloaded (storage : gmap string string) (served : Document) : I18n.Page :=
  {| I18n.i18n := I18n.initial; I18n.handler := ErrorHandler.create;
     I18n.env := {| localStorage := storage; storage_reads := []; requests := 0;
                    slept := []; clock := 0 |};
     I18n.document := served;
     I18n.seoManager := false; I18n.app := false; I18n.events := [] |}.

(** [storedLang || defaultLang] *)
Definition preferred (stored : option string) (defaultLang : string) : string :=
  match stored with
  | Some s => if String.eqb s EmptyString then defaultLang else s
  | None => defaultLang
  end.

(** The status a record of the collection shows to [project.status], for a
    plain object. *)
Definition status_reads `{RT : JsRuntime} (status : string) (p : JsValue) : bool :=
  match p with
  | JObj props => is_string status (object_get props "status")
  | _ => false
  end.

Definition is_object (p : JsValue) : bool :=
  match p with JObj _ => true | _ => false end.

(** An entry of the collection that is a plain object, or a hole: [null] or
    another value that [project && ...] rejects. *)
Definition object_or_hole (p : JsValue) : bool :=
  match p with
  | JObj _ => true
  | _ => negb (truthy p)
  end.

(** The markup [showProjectsLoading] and [showProjectsError] put into the
    grids. *)
Definition loading_markup : string :=
  App.div_markup "projects-loading" "Loading projects...".

Definition error_markup : string :=
  App.div_markup "projects-error" "Failed to load projects. Please try again.".

(** A record whose status is neither of the two the tabs know. *)
Definition tower_c : JsValue :=
  obj [("slug", JStr "tower-c"); ("title", JStr "Tower C");
       ("status", JStr "planned"); ("location", JStr "Pakse");
       ("scope", JStr "Feasibility study"); ("year", JStr "2026");
       ("cover", JStr "/assets/img/projects/tower-c.jpg");
       ("summary_i18n_key", JStr "projects.tower_c.summary")].

(** The message of an empty grid. *)
Definition empty_message `{RT : JsRuntime} (translator : I18n.State) : string :=
  match I18n.t translator "projects.empty" (JStr "No projects found in this category.") with
  | Normal v => dom_string v
  | Throw _ => EmptyString
  end.

(** An engine that parses the body ["payload"] into the given value. *)
Definition payload_runtime (payload : JsValue) : JsRuntime :=
  runtime_parsing (fun source =>
    if String.eqb source "payload" then Some payload else None).

(** The projects page with the list loaded and the detail of [bridge-a]
    open, the URL then showing the given hash. *)
Definition open_page (hash : string) : App.State :=
  App.with_detail (Some {| App.visible := true; App.shown := Some bridge_a |}) hash
    (App.with_projects (JArr [bridge_a; road_b]) (projects_page EmptyString)).

(** The environment some time later: the clock has advanced, localStorage
    is as it was. *)
Definition later (elapsed : Z) (e : Env) : Env :=
  {| localStorage := localStorage e; storage_reads := storage_reads e;
     requests := requests e; slept := slept e; clock := clock e + elapsed |}.

(** A serializer for the cache round trip of the examples: it writes the
    entry that [offline_runtime] parses. *)
Definition offline_stringify (v : JsValue) : option string := Some "cached-lo".

(** The characters that [generateFallbackText] removes from a key: the dot
    that separates segments, and the underscore and hyphen it turns into
    spaces. *)
Definition key_punctuation (c : ascii) : bool :=
  Ascii.eqb c "." || Ascii.eqb c "_" || Ascii.eqb c "-".

(** Whether a message text is one [isCriticalError] recognizes. *)
Definition critical_text (message : string) : bool :=
  existsb (includes message) ErrorHandler.criticalPatterns.

(** The ids of the style elements the handler has injected. *)
Definition style_ids (s : ErrorHandler.Screen) : list string :=
  fst <$> ErrorHandler.head_styles s.

(** A page on which the handler has done nothing yet. *)
Definition clean_screen (d : Document) : ErrorHandler.Screen :=
  {| ErrorHandler.errors := []; ErrorHandler.body_classes := [];
     ErrorHandler.head_styles := []; ErrorHandler.page := d;
     ErrorHandler.banners := 0; ErrorHandler.sessionStorage := ∅;
     ErrorHandler.timeouts := [] |}.

(** An uncaught exception as the [error] listener reports it. *)
Definition script_error (message : string) : gmap string JsValue :=
  list_to_map [("type", JStr "javascript"); ("message", JStr message);
               ("filename", JStr "/assets/js/main.js"); ("lineno", JNum 12);
               ("colno", JNum 7)].

Definition visit_moment : ErrorHandler.Moment :=
  {| ErrorHandler.timestamp := "2025-01-15T08:30:00.000Z";
     ErrorHandler.userAgent := "Mozilla/5.0";
     ErrorHandler.url := "https://example.com/projects.html" |}.

(** A page with alternate links and a locale, after [init] with English as
    the language. *)
Definition seo_document : Document :=
  {| root := {| tag := "html"; attrs := {[ "lang" := "en" ]}; text := EmptyString |};
     descendants :=
       [ {| tag := "title"; attrs := {[ "data-i18n" := "site.title" ]};
            text := "Construction Consulting" |};
         {| tag := "link";
            attrs := list_to_map [("rel", "alternate"); ("hreflang", "en");
                                  ("href", "https://example.com/en/")];
            text := EmptyString |};
         {| tag := "link";
            attrs := list_to_map [("rel", "alternate"); ("hreflang", "lo");
                                  ("href", "https://example.com/lo/")];
            text := EmptyString |};
         {| tag := "meta";
            attrs := list_to_map [("property", "og:locale"); ("content", "en_US")];
            text := EmptyString |} ] |}.

Definition seo_page : I18n.Page :=
  I18n.init (RT := site_runtime) site_network
    {| I18n.i18n := I18n.initial; I18n.handler := ErrorHandler.create;
       I18n.env := fresh_env; I18n.document := seo_document;
       I18n.seoManager := true; I18n.app := false; I18n.events := [] |}
    "en".

(** The button of a project card, as the template of [createProjectCard]
    writes it: bound, and carrying the text of the template. *)
Definition view_button : Element :=
  {| tag := "button";
     attrs := list_to_map [("class", "project-view-btn");
                           ("data-i18n", "projects.details.view_details");
                           ("aria-label", "View details for Bridge A")];
     text := "View Details" |}.

(** The projects page of the small site: the title and a link bound as
    text, two alternate links, the locale, and at the end the button of the
    card the app has rendered. *)
Definition projects_document : Document :=
  {| root := {| tag := "html"; attrs := {[ "lang" := "en" ]}; text := EmptyString |};
     descendants :=
       [ {| tag := "title"; attrs := {[ "data-i18n" := "site.title" ]};
            text := "Construction Consulting" |};
         {| tag := "a";
            attrs := list_to_map [("data-i18n", "nav.home"); ("href", "/")];
            text := "Home" |};
         {| tag := "link";
            attrs := list_to_map [("rel", "alternate"); ("hreflang", "en");
                                  ("href", "https://example.com/en/")];
            text := EmptyString |};
         {| tag := "link";
            attrs := list_to_map [("rel", "alternate"); ("hreflang", "lo");
                                  ("href", "https://example.com/lo/")];
            text := EmptyString |};
         {| tag := "meta";
            attrs := list_to_map [("property", "og:locale"); ("content", "en_US")];
            text := EmptyString |};
         view_button ] |}.

(** A handler that renders again what the app has put at the end of the
    document, after the first [k] elements below the root: what was there is
    replaced by fresh elements. *)
Definition rerender_after (k : nat) (fresh : list Element)
    (language : string) (p : I18n.Page) : I18n.Page * Completion unit :=
  (I18n.with_document
     {| root := root (I18n.document p);
        descendants :=
          if (k <=? length (descendants (I18n.document p)))%nat
          then (take k (descendants (I18n.document p)) ++ fresh)%list
          else descendants (I18n.document p) |}
     p,
   Normal ()).

(** The projects page after [init] with English as the language, with the
    SEO manager and the app. *)
Definition site_page : I18n.Page :=
  I18n.init (RT := site_runtime) site_network
    {| I18n.i18n := I18n.initial; I18n.handler := ErrorHandler.create;
       I18n.env := fresh_env; I18n.document := projects_document;
       I18n.seoManager := true; I18n.app := true; I18n.events := [] |}
    "en".

(** A served page with a link whose attribute target is a list of two
    names, which is no name. *)
Definition mistargeted_document : Document :=
  {| root := {| tag := "html"; attrs := {[ "lang" := "en" ]}; text := EmptyString |};
     descendants :=
       [ {| tag := "a";
            attrs := list_to_map [("data-i18n", "nav.home"); ("href", "/")];
            text := "Home" |};
         {| tag := "a";
            attrs := list_to_map [("data-i18n", "nav.home");
                                  ("data-i18n-attr", "aria-label, title")];
            text := EmptyString |};
         {| tag := "a";
            attrs := list_to_map [("data-i18n", "nav.home"); ("href", "/home")];
            text := "Start" |} ] |}.

(** The handler as constructed, with some retries counted. *)
Definition counting (counted : gmap string nat) : ErrorHandler.Handler :=
  {| ErrorHandler.retryAttempts := counted; ErrorHandler.maxRetries := 3;
     ErrorHandler.retryDelay := 1000 |}.

(** The retry policy as the specification states it, for one request: a
    failure is raised only after three retries, which come 1, 2 and 4
    seconds after the attempts before them. *)
Definition retried_as_specified (network : Network) (h : ErrorHandler.Handler)
    (e : Env) (url options : string) : Prop :=
  match (ErrorHandler.fetchWithRetry network h e url options).1.1 with
  | Normal _ => True
  | Throw _ =>
      slept (ErrorHandler.fetchWithRetry network h e url options).2
      = (slept e ++ [1000; 2000; 4000])%list
  end.

(** * Results *)

(** ** Strings *)

Lemma split_not_nil sep s : split sep s ≠ [].
Proof.
  induction s as [|c rest IH]; simpl; [discriminate|].
  destruct (Ascii.eqb c sep); [discriminate|].
  destruct (split sep rest); discriminate.
Qed.

Lemma last_part_split sep s : ∃ segment, last_part (split sep s) = Some segment.
Proof.
  pose proof (split_not_nil sep s) as Hne.
  unfold last_part.
  destruct (lookup_lt_is_Some_2 (split sep s) (length (split sep s) - 1)) as [x Hx].
  - destruct (split sep s); [done | simpl; lia].
  - eauto.
Qed.

Lemma separator_keeps_case c :
  let c' := if Ascii.eqb c "_" || Ascii.eqb c "-" then " "%char else c in
  is_lower c' = is_lower c ∧ is_upper c' = is_upper c.
Proof.
  simpl. destruct (Ascii.eqb_spec c "_") as [->|]; [done|].
  destruct (Ascii.eqb_spec c "-") as [->|]; done.
Qed.

Lemma has_hump_replace_separators s :
  has_hump (replace_separators s) = has_hump s.
Proof.
  induction s as [|c rest IH]; [done|].
  destruct rest as [|d rest']; [done|].
  change (replace_separators (String c (String d rest')))
    with (String (if Ascii.eqb c "_" || Ascii.eqb c "-" then " "%char else c)
            (replace_separators (String d rest'))).
  change (has_hump (String c (String d rest')))
    with ((is_lower c && is_upper d) || has_hump (String d rest')).
  rewrite <- IH.
  change (replace_separators (String d rest'))
    with (String (if Ascii.eqb d "_" || Ascii.eqb d "-" then " "%char else d)
            (replace_separators rest')).
  cbn [has_hump].
  destruct (separator_keeps_case c) as [-> _].
  destruct (separator_keeps_case d) as [_ ->].
  done.
Qed.

Lemma split_camel_without_hump s :
  has_hump s = false → split_camel s = s.
Proof.
  induction s as [|c rest IH]; [done|].
  destruct rest as [|d rest']; [done|].
  change (has_hump (String c (String d rest')))
    with ((is_lower c && is_upper d) || has_hump (String d rest')).
  intros [Hcd Hrest]%orb_false_elim.
  change (split_camel (String c (String d rest')))
    with (if is_lower c && is_upper d
          then String c (String " " (split_camel (String d rest')))
          else String c (split_camel (String d rest'))).
  rewrite Hcd, (IH Hrest). done.
Qed.

(** ** Lookup never raises *)

Section LookupFacts.
Context {RT : JsRuntime}.

Lemma getNestedValue_normal obj path :
  ∃ v, I18n.getNestedValue obj path = Normal v.
Proof.
  unfold I18n.getNestedValue.
  destruct (negb (truthy obj) || negb (truthy (JStr path))); [eauto|].
  destruct (reduceM I18n.nested_step (split "." path) obj); simpl; eauto.
Qed.

Lemma lookup_in_normal st lang key :
  ∃ v, I18n.lookup_in st lang key = Normal v.
Proof. apply getNestedValue_normal. Qed.

Lemma handleMissingKey_normal key fallback :
  ∃ r, I18n.handleMissingKey key fallback = Normal r.
Proof.
  unfold I18n.handleMissingKey.
  destruct (I18n.is_default_marker fallback); [|eauto].
  destruct (last_part_split "." key) as [segment ->]. eauto.
Qed.

Lemma handleMissingKey_marker key :
  ∃ segment, last_part (split "." key) = Some segment ∧
    I18n.handleMissingKey key (JStr I18n.MISSING)
    = Normal (JStr (I18n.placeholder segment)).
Proof.
  destruct (last_part_split "." key) as [segment Hs]. exists segment.
  split; [done|]. unfold I18n.handleMissingKey. simpl. by rewrite Hs.
Qed.

Lemma handleMissingKey_explicit key fallback :
  I18n.is_default_marker fallback = false →
  I18n.handleMissingKey key fallback = Normal fallback.
Proof. unfold I18n.handleMissingKey. by intros ->. Qed.

(** The three ways [t] returns, in the order the code tries them. *)
Lemma t_cases st key fallback :
  let fb := if is_undefined fallback then JStr I18n.MISSING else fallback in
  (∃ v, I18n.lookup_in st (I18n.currentLang st) key = Normal v ∧ usable v = true
        ∧ I18n.t st key fallback = Normal v)
  ∨ (I18n.resolves st (I18n.currentLang st) key = false
     ∧ ∃ v, I18n.lookup_in st (I18n.fallbackLang st) key = Normal v
            ∧ usable v = true ∧ I18n.t st key fallback = Normal v)
  ∨ (I18n.resolves st (I18n.currentLang st) key = false
     ∧ I18n.resolves st (I18n.fallbackLang st) key = false
     ∧ I18n.t st key fallback = I18n.handleMissingKey key fb).
Proof.
  intros fb. unfold I18n.t, I18n.resolves. fold fb.
  destruct (lookup_in_normal st (I18n.currentLang st) key) as [v Hv].
  rewrite Hv. simpl.
  destruct (usable v) eqn:Huse; [left; eauto|].
  right.
  destruct (String.eqb_spec (I18n.currentLang st) (I18n.fallbackLang st)) as [Heq|Hne]; simpl.
  - right. rewrite <- Heq, Hv, Huse.
    destruct (handleMissingKey_normal key fb) as [r Hr]. rewrite Hr. simpl. done.
  - destruct (lookup_in_normal st (I18n.fallbackLang st) key) as [w Hw].
    rewrite Hw. simpl.
    destruct (usable w) eqn:Huw.
    + left. split; [done|]. exists w. done.
    + right. destruct (handleMissingKey_normal key fb) as [r Hr]. rewrite Hr. simpl. done.
Qed.

Lemma t_normal st key fallback : ∃ r, I18n.t st key fallback = Normal r.
Proof.
  destruct (t_cases st key fallback) as [(v & _ & _ & H) | [(_ & v & _ & _ & H) | (_ & _ & H)]];
    [eauto | eauto |].
  rewrite H. apply handleMissingKey_normal.
Qed.

End LookupFacts.

Lemma usable_not_nullish v : usable v = true → v ≠ JUndefined ∧ v ≠ JNull.
Proof. destruct v; simpl; intros; split; congruence. Qed.

(** With the default fallback the result of [t] is never [undefined] or
    [null]. *)
Lemma t_default_not_nullish `{RT : JsRuntime} st key :
  ∃ r, I18n.t st key JUndefined = Normal r ∧ r ≠ JUndefined ∧ r ≠ JNull.
Proof.
  destruct (t_cases st key JUndefined)
    as [(v & _ & Hu & Ht) | [(_ & v & _ & Hu & Ht) | (_ & _ & Ht)]].
  - exists v. destruct (usable_not_nullish v Hu). done.
  - exists v. destruct (usable_not_nullish v Hu). done.
  - simpl in Ht. destruct (handleMissingKey_marker key) as (segment & _ & Hm).
    rewrite Ht, Hm. eexists. repeat split; discriminate.
Qed.

(** ** Claims about the translation store *)

(** C1, as amended.  For every key (so for every key present in the English
    dictionary) [t] with the default fallback never returns [undefined] or
    [null]: it returns the value the active language holds for the key when
    that is neither [undefined], [null] nor empty; else such a value of the
    default language; else a string [[MISSING: T]] made from the last dotted
    segment of the key, where [T] is the segment in Title Case as
    [generateFallbackText] writes it whenever the segment has no lower-case
    letter directly followed by an upper-case one. *)
Theorem t_default_result `{RT : JsRuntime} (st : I18n.State) (key : string) :
  ∃ r, I18n.t st key JUndefined = Normal r ∧ r ≠ JUndefined ∧ r ≠ JNull ∧
    ((usable r = true ∧ I18n.lookup_in st (I18n.currentLang st) key = Normal r)
     ∨ (usable r = true
        ∧ I18n.resolves st (I18n.currentLang st) key = false
        ∧ I18n.lookup_in st (I18n.fallbackLang st) key = Normal r)
     ∨ (I18n.resolves st (I18n.currentLang st) key = false
        ∧ I18n.resolves st (I18n.fallbackLang st) key = false
        ∧ ∃ segment title,
            last_part (split "." key) = Some segment
            ∧ r = JStr ("[MISSING: " +:+ title +:+ "]")
            ∧ if has_hump segment then True
              else ErrorHandler.generateFallbackText key = Normal title)).
Proof.
  destruct (t_cases st key JUndefined) as [(v & Hv & Hu & Ht) | [(Hc & v & Hv & Hu & Ht) | (Hc & Hf & Ht)]].
  - exists v. destruct (usable_not_nullish v Hu). eauto 10.
  - exists v. destruct (usable_not_nullish v Hu). eauto 10.
  - simpl in Ht. destruct (handleMissingKey_marker key) as (segment & Hs & Hm).
    exists (JStr (I18n.placeholder segment)). rewrite Ht, Hm.
    repeat split; try discriminate. right; right.
    split; [done|]. split; [done|].
    exists segment, (capitalize_words (replace_separators segment)).
    split; [done|]. split; [done|].
    destruct (has_hump segment) eqn:Hhump; [done|].
    unfold ErrorHandler.generateFallbackText. rewrite Hs.
    rewrite split_camel_without_hump; [done|].
    by rewrite has_hump_replace_separators.
Qed.

(** C1, as the specification states it, fails in two ways.  The key
    [about.steps] is present in the English dictionary and [t] returns the
    list stored there, which is not a string.  The key [projects.viewDetails]
    is present with an empty value and [t] answers [[MISSING: ViewDetails]]
    where the specified placeholder is [[MISSING: View Details]]. *)
Lemma specified_resolve_fails :
  (I18n.present list_store "en" "about.steps" = true
   ∧ I18n.t (RT := bare_runtime) list_store "about.steps" JUndefined
     = Normal (JArr [JStr "Plan"; JStr "Build"])
   ∧ ¬ resolves_as_specified (RT := bare_runtime) list_store "about.steps")
  ∧ (I18n.present camel_store "en" "projects.viewDetails" = true
     ∧ I18n.t (RT := bare_runtime) camel_store "projects.viewDetails" JUndefined
       = Normal (JStr "[MISSING: ViewDetails]")
     ∧ specified_placeholder "projects.viewDetails"
       = Normal (JStr "[MISSING: View Details]")
     ∧ ¬ resolves_as_specified (RT := bare_runtime) camel_store "projects.viewDetails").
Proof.
  split.
  - split; [vm_compute; reflexivity|].
    split; [vm_compute; reflexivity|].
    intros (s & Ht & _). vm_compute in Ht. discriminate Ht.
  - split; [vm_compute; reflexivity|].
    split; [vm_compute; reflexivity|].
    split; [vm_compute; reflexivity|].
    intros (s & Ht & Hcases).
    assert (Hs : s = "[MISSING: ViewDetails]").
    { vm_compute in Ht. congruence. }
    subst s. vm_compute in Hcases.
    destruct Hcases as [H | [H | H]]; discriminate H.
Qed.

(** C7.  For every key, every state of the dictionaries and every fallback
    argument, [getNestedValue] returns a value and [t] returns a value:
    neither raises.  When the fallback is a string or absent, a lookup that
    finds nothing in either language ends in a string. *)
Theorem lookup_never_raises `{RT : JsRuntime}
    (st : I18n.State) (key : string) (obj fallback : JsValue) (text : option string) :
  (∃ v, I18n.getNestedValue obj key = Normal v)
  ∧ (∃ r, I18n.t st key fallback = Normal r)
  ∧ ∃ r, I18n.t st key (optional_text text) = Normal r
         ∧ ((usable r = true
             ∧ (I18n.lookup_in st (I18n.currentLang st) key = Normal r
                ∨ I18n.lookup_in st (I18n.fallbackLang st) key = Normal r))
            ∨ ∃ s, r = JStr s).
Proof.
  split; [apply getNestedValue_normal|].
  split; [apply t_normal|].
  destruct (t_cases st key (optional_text text))
    as [(v & Hv & Hu & Ht) | [(Hc & v & Hv & Hu & Ht) | (Hc & Hf & Ht)]].
  - exists v. eauto 10.
  - exists v. eauto 10.
  - rewrite Ht. destruct text as [s|]; simpl.
    + unfold I18n.handleMissingKey.
      destruct (I18n.is_default_marker (JStr s)).
      * destruct (last_part_split "." key) as [segment ->]. eauto 10.
      * eauto 10.
    + destruct (handleMissingKey_marker key) as (segment & _ & ->). eauto 10.
Qed.

(** C10.  With an explicit fallback other than the default marker, a key
    that resolves in neither the active nor the default language makes [t]
    return the fallback itself. *)
Theorem explicit_fallback_verbatim `{RT : JsRuntime}
    (st : I18n.State) (key : string) (fallback : JsValue) :
  fallback ≠ JUndefined →
  fallback ≠ JStr I18n.MISSING →
  I18n.resolves st (I18n.currentLang st) key = false →
  I18n.resolves st (I18n.fallbackLang st) key = false →
  I18n.t st key fallback = Normal fallback.
Proof.
  intros Hdef Hmark Hc Hf.
  assert (Hfb : (if is_undefined fallback then JStr I18n.MISSING else fallback) = fallback).
  { destruct fallback; simpl; congruence. }
  assert (Hm : I18n.is_default_marker fallback = false).
  { destruct fallback; simpl; try done.
    destruct (String.eqb_spec s I18n.MISSING); [congruence | done]. }
  destruct (t_cases st key fallback) as [(v & Hv & Hu & _) | [(_ & v & Hv & Hu & _) | (_ & _ & Ht)]].
  - unfold I18n.resolves in Hc. rewrite Hv in Hc. congruence.
  - unfold I18n.resolves in Hf. rewrite Hv in Hf. congruence.
  - rewrite Ht, Hfb. by apply handleMissingKey_explicit.
Qed.

Lemma explicit_fallback_verbatim_witness :
  I18n.t (RT := bare_runtime) (scenario_store "lo") "nav.about" (JStr "About Us")
  = Normal (JStr "About Us").
Proof.
  apply (explicit_fallback_verbatim (RT := bare_runtime)
           (scenario_store "lo") "nav.about" (JStr "About Us")).
  - discriminate.
  - discriminate.
  - vm_compute. reflexivity.
  - vm_compute. reflexivity.
Defined.

(** ** The retrying fetch *)

Section RetryFacts.
Variable network : Network.

(** What one run of [fetchWithRetry] does, from any state of the counter:
    with [a] attempts already counted for the request it retries at most
    [maxRetries - a] times, waits [retryDelay * 2^k] before the retry that
    the counter numbers [k + 1], issues one request more than it retries,
    and leaves the counter of the request cleared. *)
Lemma fetchWithRetry_run h e url options :
  ∃ retries : nat,
    (retries ≤ ErrorHandler.maxRetries h
               - ErrorHandler.attempts_of h (ErrorHandler.retryKey url options))%nat
    ∧ requests (ErrorHandler.fetchWithRetry network h e url options).2
      = (requests e + 1 + retries)%nat
    ∧ slept (ErrorHandler.fetchWithRetry network h e url options).2
      = (slept e ++ (ErrorHandler.backoff h
                       <$> seq (ErrorHandler.attempts_of h (ErrorHandler.retryKey url options))
                               retries))%list
    ∧ ErrorHandler.retryAttempts (ErrorHandler.fetchWithRetry network h e url options).1.2
      = delete (ErrorHandler.retryKey url options) (ErrorHandler.retryAttempts h)
    ∧ ErrorHandler.maxRetries (ErrorHandler.fetchWithRetry network h e url options).1.2
      = ErrorHandler.maxRetries h
    ∧ ErrorHandler.retryDelay (ErrorHandler.fetchWithRetry network h e url options).1.2
      = ErrorHandler.retryDelay h
    ∧ localStorage (ErrorHandler.fetchWithRetry network h e url options).2 = localStorage e
    ∧ storage_reads (ErrorHandler.fetchWithRetry network h e url options).2 = storage_reads e
    ∧ match (ErrorHandler.fetchWithRetry network h e url options).1.1 with
      | Normal response => ok response = true
      | Throw _ =>
          retries = (ErrorHandler.maxRetries h
                     - ErrorHandler.attempts_of h (ErrorHandler.retryKey url options))%nat
      end.
Proof.
  funelim (ErrorHandler.fetchWithRetry network h e url options).
  - (* the request succeeded *)
    clear Heqcall. exists 0%nat. simpl.
    rewrite app_nil_r. repeat split; try lia; try done.
    unfold ErrorHandler.checked in Heq.
    destruct (network url (requests env)); [discriminate|].
    destruct (ok response0) eqn:Hok; [|discriminate]. congruence.
  - (* a failure with retries left *)
    clear Heqcall.
    match goal with IH : ∃ _, _ |- _ =>
      destruct IH as (retries & Hle & Hreq & Hslept & Hmap & Hmax & Hdelay & Hls & Hsr & Hres) end.
    set (key := ErrorHandler.retryKey url options) in *.
    set (a := ErrorHandler.attempts_of h key) in *.
    assert (Ha : ErrorHandler.attempts_of
                   (ErrorHandler.set_attempts key (a + 1) h) key = (a + 1)%nat).
    { unfold ErrorHandler.attempts_of, ErrorHandler.set_attempts. simpl.
      by rewrite lookup_insert_eq. }
    rewrite Ha in *. simpl in *.
    exists (S retries).
    split; [lia|]. split; [rewrite Hreq; lia|].
    split.
    { rewrite Hslept, <- app_assoc. simpl. f_equal. f_equal.
      replace (a + 1)%nat with (S a) by lia. done. }
    split; [rewrite Hmap; apply delete_insert_eq|].
    split; [done|]. split; [done|]. split; [done|]. split; [done|].
    destruct (ErrorHandler.fetchWithRetry network _ _ url options).1.1; [done | lia].
  - (* a failure with no retry left *)
    clear Heqcall. exists 0%nat. simpl.
    rewrite app_nil_r. repeat split; try lia; done.
Qed.

End RetryFacts.

(** From the handler as constructed with [found] retries counted for the
    request: at most [3 - found] retries, the waits those of 1000, 2000 and
    4000 milliseconds that come after the first [found], the error raised
    only after the last of them, and the counter of the request cleared. *)
Lemma backoff_counting (counted : gmap string nat) (found retries : nat) :
  (retries ≤ 3 - found)%nat →
  ErrorHandler.backoff (counting counted) <$> seq found retries
  = take retries (drop found [1000; 2000; 4000]).
Proof.
  intros Hle.
  destruct found as [|[|[|found]]];
    destruct retries as [|[|[|[|retries]]]]; try reflexivity; simpl in Hle; lia.
Qed.

Lemma fetchWithRetry_counting (network : Network) (counted : gmap string nat)
    (e : Env) (url options : string) :
  ∃ retries : nat,
    (retries ≤ 3 - ErrorHandler.attempts_of (counting counted)
                     (ErrorHandler.retryKey url options))%nat
    ∧ requests (ErrorHandler.fetchWithRetry network (counting counted) e url options).2
      = (requests e + 1 + retries)%nat
    ∧ slept (ErrorHandler.fetchWithRetry network (counting counted) e url options).2
      = (slept e
         ++ take retries
              (drop (ErrorHandler.attempts_of (counting counted)
                       (ErrorHandler.retryKey url options))
                    [1000; 2000; 4000]))%list
    ∧ (ErrorHandler.fetchWithRetry network (counting counted) e url options).1.2
      = counting (delete (ErrorHandler.retryKey url options) counted)
    ∧ match (ErrorHandler.fetchWithRetry network (counting counted) e url options).1.1 with
      | Normal response => ok response = true
      | Throw _ =>
          retries = (3 - ErrorHandler.attempts_of (counting counted)
                           (ErrorHandler.retryKey url options))%nat
      end.
Proof.
  destruct (fetchWithRetry_run network (counting counted) e url options)
    as (retries & Hle & Hreq & Hslept & Hmap & Hmax & Hdelay & _ & _ & Hres).
  exists retries. cbn [counting ErrorHandler.maxRetries] in Hle, Hres.
  split; [done|]. split; [done|].
  split; [by rewrite Hslept, backoff_counting|].
  split; [|done].
  destruct (ErrorHandler.fetchWithRetry network (counting counted) e url options).1.2
    as [m mx dl]. simpl in *. by subst.
Qed.


(** ** The project tabs *)

Lemma filter_split_permutation {A} (f g : A → bool) (l : list A) :
  (∀ x, x ∈ l → f x = negb (g x)) →
  Permutation (List.filter f l ++ List.filter g l) l.
Proof.
  induction l as [|x l IH]; intros Hfg; simpl; [constructor|].
  assert (Hx : f x = negb (g x)) by (apply Hfg; left).
  assert (Hl : ∀ y, y ∈ l → f y = negb (g y)) by (intros y Hy; apply Hfg; by right).
  specialize (IH Hl).
  destruct (g x); simpl in Hx; rewrite Hx.
  - symmetry. apply Permutation_cons_app. by symmetry.
  - simpl. by constructor.
Qed.

Lemma statuses_exclusive p :
  statused p = true → record_status_is "ongoing" p = negb (record_status_is "completed" p).
Proof.
  unfold statused, record_status_is.
  destruct p as [| | | | |?|props|?]; try discriminate.
  destruct (props !! "status") as [v|]; [|discriminate].
  destruct v as [| | | |s| | |]; try discriminate. simpl.
  destruct (String.eqb_spec s "ongoing") as [->|]; [reflexivity|].
  simpl. by intros ->.
Qed.

Section TabFacts.
Context {RT : JsRuntime}.
Variable translator : I18n.State.

Lemma status_is_record status p :
  statused p = true →
  App.status_is status p = Normal (record_status_is status p).
Proof.
  unfold statused, record_status_is, App.status_is.
  destruct p as [| | | | |?|props|?]; try discriminate. simpl.
  destruct (props !! "status") as [v|]; [done | discriminate].
Qed.

Lemma filterM_status status items :
  forallb statused items = true →
  filterM (App.status_is status) items
  = Normal (List.filter (record_status_is status) items).
Proof.
  induction items as [|p items IH]; simpl; [done|].
  intros [Hp Hrest]%andb_prop.
  rewrite (status_is_record status p Hp). simpl.
  rewrite (IH Hrest). simpl. by destruct (record_status_is status p).
Qed.

Lemma field_text_object props name :
  ∃ s, App.field_text (JObj props) name = Normal s.
Proof.
  unfold App.field_text. simpl. destruct (props !! name); simpl; eauto.
Qed.

Lemma t_of_explicit_normal st key (fallback : string) :
  fallback ≠ I18n.MISSING →
  ∃ r, I18n.t_of st key (JStr fallback) = Normal r.
Proof.
  intros Hne. destruct key; simpl; try apply t_normal;
    (destruct (String.eqb_spec fallback I18n.MISSING); [done | eauto]).
Qed.

Lemma summary_of_object props :
  ∃ s, App.summary_of translator (JObj props) = Normal s.
Proof.
  unfold App.summary_of.
  assert (∃ key, js_get (JObj props) "summary_i18n_key" = Normal key) as [key ->].
  { simpl. destruct (props !! "summary_i18n_key"); eauto. }
  simpl.
  destruct (t_of_explicit_normal translator key "Project description not available")
    as [r ->]; [discriminate|]. simpl. eauto.
Qed.

Lemma createProjectCard_record p index :
  statused p = true →
  ∃ card, App.createProjectCard translator p index = Normal card
          ∧ App.card_project card = p ∧ App.card_index card = index.
Proof.
  unfold statused, record_status_is.
  destruct p as [| | | | |?|props|?]; try discriminate. intros _.
  unfold App.createProjectCard.
  destruct (field_text_object props "slug") as [? ->].
  destruct (summary_of_object props) as [? ->].
  destruct (field_text_object props "cover") as [? ->].
  destruct (field_text_object props "title") as [? ->].
  destruct (field_text_object props "location") as [? ->].
  destruct (field_text_object props "year") as [? ->].
  destruct (field_text_object props "scope") as [? ->].
  simpl. eauto.
Qed.

Lemma append_cards_records ps index placed :
  forallb statused ps = true →
  ∃ cards,
    App.append_cards translator ps index placed = ((placed ++ cards)%list, Normal ())
    ∧ App.card_project <$> cards = ps
    ∧ App.card_index <$> cards = seq index (length ps).
Proof.
  revert index placed.
  induction ps as [|p ps IH]; intros index placed; simpl.
  - intros _. exists []. by rewrite app_nil_r.
  - intros [Hp Hrest]%andb_prop.
    destruct (createProjectCard_record p index Hp) as (card & -> & Hproj & Hidx).
    destruct (IH (S index) (placed ++ [card])%list Hrest) as (cards & -> & Hps & Hseq).
    exists (card :: cards). rewrite <- app_assoc. simpl.
    split; [done|]. split; f_equal; done.
Qed.

Lemma renderProjectGrid_records ps :
  forallb statused ps = true →
  ∃ g, App.renderProjectGrid translator ps = (g, Normal ())
       ∧ App.grid_records g = ps
       ∧ App.card_index <$> grid_cards g = seq 0 (length ps).
Proof.
  intros Hps. unfold App.renderProjectGrid.
  destruct ps as [|p ps].
  - destruct (t_normal translator "projects.empty"
                (JStr "No projects found in this category.")) as [r ->].
    eauto.
  - destruct (append_cards_records (p :: ps) 0 [] Hps) as (cards & -> & Hproj & Hidx).
    simpl. eauto.
Qed.

Lemma forallb_filter {A} (f g : A → bool) (l : list A) :
  forallb f l = true → forallb f (List.filter g l) = true.
Proof.
  induction l as [|x l IH]; simpl; [done|].
  intros [Hx Hl]%andb_prop. destruct (g x); simpl; [rewrite Hx|]; auto.
Qed.

End TabFacts.



(** ** The binder and the language switch *)

Lemma mapM_normal {A B} (f : A → Completion B) (g : A → B) (l : list A) :
  (∀ x, f x = Normal (g x)) → mapM f l = Normal (g <$> l).
Proof.
  intros Hfg. induction l as [|x l IH]; simpl; [done|].
  rewrite Hfg. simpl. rewrite IH. done.
Qed.

Lemma Forall2_compose {A} (R S T : A → A → Prop) (l1 l2 l3 : list A) :
  (∀ x y z, R x y → S y z → T x z) →
  Forall2 R l1 l2 → Forall2 S l2 l3 → Forall2 T l1 l3.
Proof.
  intros HRS H12. revert l3.
  induction H12 as [|x y l1 l2 Hxy _ IH]; intros l3 H23; inversion H23; subst.
  - constructor.
  - constructor; eauto.
Qed.

Lemma lowercase_content : lowercase "content" = "content".
Proof. reflexivity. Qed.

Lemma lowercase_lang : lowercase "lang" = "lang".
Proof. reflexivity. Qed.

(** The first element a selector finds is the one [update_first] changes. *)
Lemma update_first_changes sel f l :
  Forall2 (λ e e', e' = e
                   ∨ (sel e = true ∧ e' = f e
                      ∧ ∀ sel' : Element → bool,
                          (∀ x, sel' x = true → sel x = true) →
                          sel' e = true → List.find sel' l = Some e))
          l (update_first sel f l).
Proof.
  induction l as [|x l IH]; simpl; [constructor|].
  destruct (sel x) eqn:Hx.
  - constructor.
    + right. split; [done|]. split; [done|].
      intros sel' _ Hsel'. simpl. by rewrite Hsel'.
    + apply Forall2_same_length_lookup. split; [done|].
      intros i e e' H1 H2. left. congruence.
  - constructor; [by left|].
    eapply Forall2_impl; [exact IH|].
    intros e e' [->|(He & -> & Hfind)]; [by left|right].
    split; [done|]. split; [done|].
    intros sel' Himp Hsel'. simpl.
    destruct (sel' x) eqn:Hsx; [|by apply Hfind].
    apply Himp in Hsx. congruence.
Qed.

Lemma elements_update_first_in sel f d :
  elements (update_first_in sel f d) = update_first sel f (elements d).
Proof.
  unfold update_first_in, elements. simpl.
  destruct (sel (root d)); done.
Qed.

Section BinderFacts.
Context {RT : JsRuntime}.

Lemma t_translated st key :
  I18n.t st key JUndefined = Normal (translated st key).
Proof.
  unfold translated. by destruct (t_normal st key JUndefined) as [r ->].
Qed.

Lemma translated_not_nullish st key :
  nullable_dom_string (translated st key) = dom_string (translated st key).
Proof.
  destruct (t_default_not_nullish st key) as (r & Hr & Hu & Hn).
  unfold translated. rewrite Hr. by destruct r.
Qed.

(** The binder raises on an element exactly when the element is bound with
    a target that is no attribute name. *)
Lemma bind_element_cases st e :
  I18n.bind_element st e
  = if valid_target e then Normal (rebind st e) else Throw "InvalidCharacterError".
Proof.
  unfold I18n.bind_element, rebind, valid_target.
  destruct (attrs e !! "data-i18n") as [key|]; [|done].
  rewrite t_translated. simpl.
  destruct (attrs e !! "data-i18n-attr") as [attr|]; [|done].
  by destruct (valid_attribute_name attr).
Qed.

Lemma bind_each_run st l :
  I18n.bind_each st l
  = (rebind_until st l,
     if forallb valid_target l then Normal () else Throw "InvalidCharacterError").
Proof.
  induction l as [|e rest IH]; simpl; [done|].
  rewrite bind_element_cases. destruct (valid_target e); simpl; [|done].
  by rewrite IH.
Qed.

(** What [applyTranslations] leaves and how it ends. *)
Lemma applyTranslations_run st d :
  elements (I18n.applyTranslations st d).1 = rebind_until st (elements d)
  ∧ (I18n.applyTranslations st d).2
    = if forallb valid_target (elements d) then Normal ()
      else Throw "InvalidCharacterError".
Proof.
  unfold I18n.applyTranslations, elements. simpl.
  rewrite bind_element_cases. destruct (valid_target (root d)); simpl; [|done].
  rewrite bind_each_run. simpl. done.
Qed.

Lemma rebind_until_valid st l :
  forallb valid_target l = true → rebind_until st l = rebind st <$> l.
Proof.
  induction l as [|e rest IH]; simpl; [done|].
  intros [-> H]%andb_prop. by rewrite IH.
Qed.

Lemma applyTranslations_rebind st d :
  forallb valid_target (elements d) = true →
  ∃ d', I18n.applyTranslations st d = (d', Normal ())
        ∧ elements d' = rebind st <$> elements d.
Proof.
  intros Hvalid. destruct (applyTranslations_run st d) as [He Hc].
  rewrite Hvalid in Hc. rewrite (rebind_until_valid st _ Hvalid) in He.
  destruct (I18n.applyTranslations st d) as [d' c]. cbn [fst snd] in *. subst c.
  by exists d'.
Qed.

Lemma applyTranslations_completed st d d' :
  I18n.applyTranslations st d = (d', Normal ()) →
  forallb valid_target (elements d) = true ∧ elements d' = rebind st <$> elements d.
Proof.
  intros H. destruct (applyTranslations_run st d) as [He Hc].
  rewrite H in He, Hc. cbn [fst snd] in *.
  destruct (forallb valid_target (elements d)) eqn:Hv; [|discriminate].
  split; [done|]. rewrite He. by apply rebind_until_valid.
Qed.

Lemma meta_step_refl st l : Forall2 (meta_step st) l l.
Proof.
  apply Forall_Forall2_diag, Forall_forall. intros e _.
  split; [done|]. split; [done|]. by left.
Qed.

Lemma meta_step_trans st e1 e2 e3 :
  meta_step st e1 e2 →
  (tag e3 = tag e2 ∧ (∀ k, k ≠ "content" → attrs e3 !! k = attrs e2 !! k)
   ∧ text e3 = text e2) →
  meta_step st e1 e3.
Proof.
  intros (Ht & Ha & Hx) (Ht' & Ha' & Hx').
  split; [congruence|]. split.
  - intros k Hk. rewrite Ha', Ha; done.
  - rewrite Hx'. done.
Qed.

Lemma querySelector_selected sel d found :
  querySelector sel d = Some found → sel found = true.
Proof. unfold querySelector. intros H. by apply find_some in H as [_ H]. Qed.

Lemma has_attr_lookup name e :
  has_attr name e = true → ∃ v, attrs e !! name = Some v.
Proof. unfold has_attr. intros H%bool_decide_eq_true_1. exact H. Qed.

(** A step of [updateMetaTags] that translates a key into [content]. *)
Lemma translate_into_content st name value d :
  ∃ d', I18n.translate_into st (I18n.meta_with_key name value)
          (I18n.set_content_of (I18n.meta_with_key name value)) d = Normal d'
        ∧ Forall2 (λ e e', tag e' = tag e
                           ∧ (∀ k, k ≠ "content" → attrs e' !! k = attrs e !! k)
                           ∧ text e' = text e)
                  (elements d) (elements d').
Proof.
  assert (Hrefl : ∀ l : list Element,
             Forall2 (λ e e', tag e' = tag e
                              ∧ (∀ k, k ≠ "content" → attrs e' !! k = attrs e !! k)
                              ∧ text e' = text e) l l).
  { intros l. apply Forall_Forall2_diag, Forall_forall. by intros e _. }
  unfold I18n.translate_into.
  destruct (querySelector _ d) as [found|] eqn:Hq; [|by exists d].
  apply querySelector_selected in Hq. unfold I18n.meta_with_key in Hq.
  apply andb_prop in Hq as [_ Hkey]. apply has_attr_lookup in Hkey as [key ->].
  rewrite t_translated. simpl. eexists. split; [done|].
  unfold I18n.set_content_of. rewrite elements_update_first_in.
  eapply Forall2_impl; [apply update_first_changes|].
  intros e e' [->|(_ & -> & _)]; unfold setAttribute; cbn [tag attrs text]; [done|].
  split; [done|]. split; [|done].
  intros k Hk. rewrite lowercase_content. by rewrite lookup_insert_ne.
Qed.

(** The step of [updateMetaTags] that writes the document title. *)
Lemma translate_into_title st d :
  ∃ d', I18n.translate_into st I18n.title_with_key I18n.set_document_title d = Normal d'
        ∧ Forall2 (meta_step st) (elements d) (elements d').
Proof.
  unfold I18n.translate_into.
  destruct (querySelector _ d) as [found|] eqn:Hq;
    [|exists d; split; [done|apply meta_step_refl]].
  pose proof (querySelector_selected _ _ _ Hq) as Hsel.
  unfold I18n.title_with_key in Hsel.
  apply andb_prop in Hsel as [_ Hkey]. apply has_attr_lookup in Hkey as [key Hkey].
  rewrite Hkey, t_translated. simpl. eexists. split; [done|].
  unfold I18n.set_document_title. rewrite elements_update_first_in.
  eapply Forall2_impl; [apply update_first_changes|].
  intros e e' [->|(Htitle & -> & Hfirst)]; unfold meta_step, set_textContent;
    cbn [tag attrs text].
  - split; [done|]. split; [done|]. by left.
  - split; [done|]. split; [done|]. right. split; [done|].
    intros key' Hkey'.
    assert (Hfound : List.find I18n.title_with_key (elements d) = Some e).
    { apply Hfirst.
      - intros x [Hx _]%andb_prop. exact Hx.
      - unfold I18n.title_with_key. rewrite Htitle. simpl.
        unfold has_attr. apply bool_decide_eq_true_2. rewrite Hkey'. eauto. }
    unfold querySelector in Hq. rewrite Hfound in Hq. injection Hq as <-.
    congruence.
Qed.

Lemma updateMetaTags_steps st d :
  ∃ d', I18n.updateMetaTags st d = Normal d'
        ∧ Forall2 (meta_step st) (elements d) (elements d').
Proof.
  unfold I18n.updateMetaTags.
  destruct (translate_into_title st d) as (d1 & -> & H1). simpl.
  destruct (translate_into_content st "name" "description" d1) as (d2 & -> & H2). simpl.
  destruct (translate_into_content st "property" "og:title" d2) as (d3 & -> & H3). simpl.
  destruct (translate_into_content st "property" "og:description" d3) as (d4 & -> & H4).
  simpl. eexists. split; [done|].
  assert (H5 : Forall2 (λ e e', tag e' = tag e
                           ∧ (∀ k, k ≠ "content" → attrs e' !! k = attrs e !! k)
                           ∧ text e' = text e)
                 (elements d4)
                 (elements
                    (I18n.set_content_of
                       (λ e, is_tag "meta" e && attr_is "property" "og:locale" e)
                       (if String.eqb (I18n.currentLang st) "lo" then "lo_LA" else "en_US")
                       d4))).
  { unfold I18n.set_content_of. rewrite elements_update_first_in.
    eapply Forall2_impl; [apply update_first_changes|].
    intros e e' [->|(_ & -> & _)]; unfold setAttribute; cbn [tag attrs text]; [done|].
    split; [done|]. split; [|done].
    intros k Hk. rewrite lowercase_content. by rewrite lookup_insert_ne. }
  eapply Forall2_compose; [apply meta_step_trans | | exact H5].
  eapply Forall2_compose; [apply meta_step_trans | | exact H4].
  eapply Forall2_compose; [apply meta_step_trans | | exact H3].
  eapply Forall2_compose; [apply meta_step_trans | exact H1 | exact H2].
Qed.

Lemma has_attr_setAttribute name a v e :
  has_attr name (setAttribute a v e)
  = bool_decide (lowercase a = name) || has_attr name e.
Proof.
  unfold has_attr, setAttribute. cbn [attrs].
  rewrite lookup_insert.
  destruct (bool_decide (lowercase a = name)) eqn:Hd.
  - apply bool_decide_eq_true_1 in Hd. rewrite decide_True by done. done.
  - apply bool_decide_eq_false_1 in Hd. by rewrite decide_False by done.
Qed.

Lemma rebind_tag st e : tag (rebind st e) = tag e.
Proof.
  unfold rebind. destruct (attrs e !! "data-i18n"); [|done].
  by destruct (attrs e !! "data-i18n-attr").
Qed.

Lemma rebind_target st e :
  has_attr "data-i18n-attr" (rebind st e) = has_attr "data-i18n-attr" e.
Proof.
  unfold rebind. destruct (attrs e !! "data-i18n"); [|done].
  destruct (attrs e !! "data-i18n-attr") as [a|] eqn:Ha; [|done].
  rewrite has_attr_setAttribute.
  assert (has_attr "data-i18n-attr" e = true) as ->.
  { unfold has_attr. apply bool_decide_eq_true_2. rewrite Ha. eauto. }
  apply orb_true_r.
Qed.

Lemma rebind_without_target st e :
  has_attr "data-i18n-attr" e = false →
  attrs (rebind st e) = attrs e
  ∧ ∀ key, attrs e !! "data-i18n" = Some key →
           text (rebind st e) = nullable_dom_string (translated st key).
Proof.
  unfold has_attr. intros Hno%bool_decide_eq_false_1.
  assert (Hnone : attrs e !! "data-i18n-attr" = None).
  { destruct (attrs e !! "data-i18n-attr") eqn:H; [|done]. exfalso. apply Hno. eauto. }
  unfold rebind. rewrite Hnone.
  destruct (attrs e !! "data-i18n") as [key|]; [|done].
  split; [done|]. by intros ? [= <-].
Qed.

Lemma rebind_with_target st e :
  has_attr "data-i18n-attr" e = true → text (rebind st e) = text e.
Proof.
  intros [a Ha]%has_attr_lookup. unfold rebind. rewrite Ha.
  by destruct (attrs e !! "data-i18n").
Qed.

(** The stages of [set] on one element compose to a [switch_step]. *)
Lemma switch_step_of_stages st value e eb e' :
  eb = rebind st e ∨ eb = setAttribute "lang" value (rebind st e) →
  meta_step st eb e' →
  switch_step st e e'.
Proof.
  intros Hb (Htag & Hattrs & Htext).
  assert (Hbt : tag eb = tag e).
  { destruct Hb as [->| ->]; [|unfold setAttribute; cbn [tag]]; apply rebind_tag. }
  assert (Hbx : text eb = text (rebind st e)) by (by destruct Hb as [->| ->]).
  assert (Hba : ∀ k, k ≠ "lang" → attrs eb !! k = attrs (rebind st e) !! k).
  { intros k Hk. destruct Hb as [->| ->]; [done|].
    unfold setAttribute. cbn [attrs]. rewrite lowercase_lang.
    by rewrite lookup_insert_ne. }
  assert (Hchain : ∀ k, k ≠ "lang" → k ≠ "content" →
                        attrs e' !! k = attrs (rebind st e) !! k).
  { intros k H1 H2. rewrite Hattrs, Hba; done. }
  split; [congruence|]. split.
  { unfold has_attr at 1. rewrite Hchain by done. apply rebind_target. }
  split.
  - intros Hno. destruct (rebind_without_target st e Hno) as [Ha Hx].
    split; [rewrite Hchain by done; by rewrite Ha|].
    intros key Hkey. destruct Htext as [->|(_ & Hwrite)].
    + rewrite Hbx. by apply Hx.
    + rewrite translated_not_nullish. apply Hwrite.
      rewrite Hba by done. by rewrite Ha.
  - intros Hyes Hnot. destruct Htext as [->|(Htitle & _)].
    + rewrite Hbx. by apply rebind_with_target.
    + unfold is_tag in *. congruence.
Qed.

(** Membership in a list of literals. *)
Ltac listed := repeat constructor.

Ltac not_listed :=
  let H := fresh in
  intros H; apply (bool_decide_eq_true_2 _) in H; vm_compute in H; discriminate H.

(** *** The steps of [set] that write attributes only *)

Lemma attr_step_refl names e : attr_step names e e.
Proof. by split. Qed.

Lemma attr_step_trans names e1 e2 e3 :
  attr_step names e1 e2 → attr_step names e2 e3 → attr_step names e1 e3.
Proof.
  intros (Ht & Hx & Ha) (Ht' & Hx' & Ha').
  split; [congruence|]. split; [congruence|].
  intros k Hk. rewrite Ha', Ha; done.
Qed.

Lemma attr_step_mono names names' e e' :
  (∀ k, k ∈ names → k ∈ names') → attr_step names e e' → attr_step names' e e'.
Proof.
  intros Hsub (Ht & Hx & Ha). split; [done|]. split; [done|].
  intros k Hk. apply Ha. intros Hin. apply Hk, Hsub, Hin.
Qed.

Lemma setAttribute_step name value e :
  lowercase name = name → attr_step [name] e (setAttribute name value e).
Proof.
  intros Hname. unfold attr_step, setAttribute. cbn [tag attrs text].
  split; [done|]. split; [done|].
  intros k Hk. rewrite Hname, lookup_insert_ne; [done|].
  intros <-. apply Hk. listed.
Qed.

Lemma classList_toggle_step token force e :
  attr_step ["class"] e (classList_toggle token force e).
Proof.
  unfold classList_toggle, classList_add.
  destruct (bool_decide (token ∈ classList e)), force;
    try apply attr_step_refl;
    (split; [done|]; split; [done|]); intros k Hk; cbn [attrs];
    (rewrite lookup_insert_ne; [done|]); intros <-; apply Hk; listed.
Qed.

Lemma sync_option_step st e :
  attr_step ["class"; "aria-pressed"] e (I18n.sync_option st e).
Proof.
  unfold I18n.sync_option. destruct (I18n.lang_option e); [|apply attr_step_refl].
  eapply attr_step_trans.
  - eapply (attr_step_mono ["class"]); [|apply classList_toggle_step].
    intros k ->%list_elem_of_singleton. listed.
  - eapply (attr_step_mono ["aria-pressed"]); [|by apply setAttribute_step].
    intros k ->%list_elem_of_singleton. listed.
Qed.

Lemma sync_after_switcher_steps st l :
  Forall2 (attr_step ["class"; "aria-pressed"]) l (I18n.sync_after_switcher st l).
Proof.
  induction l as [|e rest IH]; simpl; [constructor|].
  destruct (I18n.language_switcher e).
  - constructor; [apply attr_step_refl|].
    apply Forall2_fmap_r, Forall_Forall2_diag, Forall_forall.
    intros x _. apply sync_option_step.
  - constructor; [apply attr_step_refl | exact IH].
Qed.

Lemma updateLanguageSwitcher_steps st d :
  Forall2 (attr_step ["class"; "aria-pressed"]) (elements d)
          (elements (I18n.updateLanguageSwitcher st d)).
Proof.
  unfold I18n.updateLanguageSwitcher, elements.
  destruct (I18n.language_switcher (root d)); cbn [root descendants].
  - constructor; [apply attr_step_refl|].
    apply Forall2_fmap_r, Forall_Forall2_diag, Forall_forall.
    intros x _. apply sync_option_step.
  - constructor; [apply attr_step_refl | apply sync_after_switcher_steps].
Qed.

Lemma retarget_keeps path e :
  tag (SEOManager.retarget path e) = tag e
  ∧ text (SEOManager.retarget path e) = text e
  ∧ ∀ k, k ≠ "href" → attrs (SEOManager.retarget path e) !! k = attrs e !! k.
Proof.
  unfold SEOManager.retarget. destruct (SEOManager.hreflang_link e); [|done].
  unfold setAttribute. cbn [tag attrs text]. repeat split.
  intros k Hk. by rewrite lookup_insert_ne.
Qed.

(** What the hreflang update of the SEO manager does to the elements: it
    writes attributes only, and every [link[hreflang]] gets the base URL
    followed by the path. *)
Lemma updateHreflangTags_steps path language d :
  Forall2 (λ e e', attr_step decorations e e'
                   ∧ (SEOManager.hreflang_link e = true →
                      attrs e' !! "href" = Some (SEOManager.baseUrl +:+ path)))
          (elements d) (elements (SEOManager.updateHreflangTags path language d))
  ∧ attrs (root (SEOManager.updateHreflangTags path language d)) !! "lang"
    = Some language.
Proof.
  assert (Hretarget : ∀ e,
             attr_step decorations e (SEOManager.retarget path e)
             ∧ (SEOManager.hreflang_link e = true →
                attrs (SEOManager.retarget path e) !! "href"
                = Some (SEOManager.baseUrl +:+ path))).
  { intros e. split.
    - destruct (retarget_keeps path e) as (Ht & Hx & Ha).
      split; [done|]. split; [done|]. intros k Hk. apply Ha.
      intros ->. apply Hk. unfold decorations. listed.
    - unfold SEOManager.retarget. intros ->.
      unfold setAttribute. cbn [attrs]. apply lookup_insert_eq. }
  assert (Hlang : ∀ e, attr_step decorations e (setAttribute "lang" language e)).
  { intros e. eapply (attr_step_mono ["lang"]); [|by apply setAttribute_step].
    unfold decorations. intros k ->%list_elem_of_singleton. listed. }
  assert (Hcontent : ∀ v e, attr_step decorations e (setAttribute "content" v e)).
  { intros v e. eapply (attr_step_mono ["content"]); [|by apply setAttribute_step].
    unfold decorations. intros k ->%list_elem_of_singleton. listed. }
  assert (Hhref : ∀ name v e, name ≠ "href" → lowercase name = name →
                    attrs (setAttribute name v e) !! "href" = attrs e !! "href").
  { intros name v e Hne Hname. unfold setAttribute. cbn [attrs].
    rewrite Hname. by rewrite lookup_insert_ne. }
  split.
  - unfold SEOManager.updateHreflangTags. rewrite elements_update_first_in.
    unfold elements at 2. cbn [root descendants].
    eapply Forall2_compose;
      [| |apply update_first_changes].
    2:{ unfold elements. constructor.
        - instantiate (1 := λ e e', attr_step decorations e e'
                               ∧ (SEOManager.hreflang_link e = true →
                                  attrs e' !! "href" = Some (SEOManager.baseUrl +:+ path))).
          destruct (Hretarget (root d)) as [Hs Hh]. split.
          + eapply attr_step_trans; [exact Hs | apply Hlang].
          + intros Hl. rewrite Hhref by done. by apply Hh.
        - apply Forall2_fmap_r, Forall_Forall2_diag, Forall_forall.
          intros x _. apply Hretarget. }
    intros e e1 e2 [Hs Hh] [->|(_ & -> & _)]; [done|]. split.
    + eapply attr_step_trans; [exact Hs | apply Hcontent].
    + intros Hl. rewrite Hhref by done. by apply Hh.
  - unfold SEOManager.updateHreflangTags, update_first_in. cbn [root descendants].
    destruct (is_tag "meta" _ && attr_is "property" "og:locale" _); cbn [root].
    + unfold setAttribute. cbn [attrs].
      rewrite lowercase_content, lowercase_lang.
      rewrite lookup_insert_ne by done. apply lookup_insert_eq.
    + unfold setAttribute. cbn [attrs]. rewrite lowercase_lang. apply lookup_insert_eq.
Qed.

(** A step that writes decorations does not disturb what the binder has
    done. *)
Lemma switch_step_decorated st e e1 e' :
  switch_step st e e1 → attr_step decorations e1 e' → switch_step st e e'.
Proof.
  intros (Htag & Htarget & Hno & Hyes) (Ht & Hx & Ha).
  assert (Hkey : attrs e' !! "data-i18n" = attrs e1 !! "data-i18n").
  { apply Ha. not_listed. }
  assert (Hattr : has_attr "data-i18n-attr" e' = has_attr "data-i18n-attr" e1).
  { unfold has_attr. rewrite Ha; [done|]. not_listed. }
  split; [congruence|]. split; [congruence|]. split.
  - intros Hnone. destruct (Hno Hnone) as [Hk Hshow].
    split; [congruence|]. intros key Hkey'. rewrite Hx. by apply Hshow.
  - intros Hsome Hnot. rewrite Hx. by apply Hyes.
Qed.

Lemma hreflang_link_kept e e' :
  tag e' = tag e →
  (has_attr "hreflang" e = true → has_attr "hreflang" e' = true) →
  SEOManager.hreflang_link e = true → SEOManager.hreflang_link e' = true.
Proof.
  unfold SEOManager.hreflang_link, is_tag. intros -> Hh [-> H]%andb_prop.
  by rewrite Hh.
Qed.

Lemma rebind_has_attr st name e :
  has_attr name e = true → has_attr name (rebind st e) = true.
Proof.
  intros H. unfold rebind. destruct (attrs e !! "data-i18n"); [|done].
  destruct (attrs e !! "data-i18n-attr"); [|done].
  rewrite has_attr_setAttribute, H. apply orb_true_r.
Qed.

(** *** What [set] does when the language differs from the current one *)

Section SetFacts.
Variable pathname : string.
Variable languageChanged : string → I18n.Page → I18n.Page.
Variable handleLanguageChange : string → I18n.Page → I18n.Page * Completion unit.

Lemma set_same p :
  I18n.set pathname languageChanged handleLanguageChange p (I18n.currentLang (I18n.i18n p))
  = (p, Normal ()).
Proof. unfold I18n.set. by rewrite String.eqb_refl. Qed.

(** The three ways [set] can go: the storage refuses the preference; the
    binder raises on a target that is no name; or the page is translated and
    decorated and handed to the listeners. *)
Lemma set_other p language :
  language ≠ I18n.currentLang (I18n.i18n p) →
  let st := I18n.with_lang language (I18n.i18n p) in
  let stored := setItem (I18n.storageKey (I18n.i18n p)) language (I18n.env p) in
  let result := I18n.set pathname languageChanged handleLanguageChange p language in
  if storage_accepts (localStorage (I18n.env p)) (I18n.storageKey (I18n.i18n p)) language
  then
    if forallb valid_target (elements (I18n.document p)) then
      ∃ q,
        result = I18n.notify languageChanged handleLanguageChange q language
        ∧ I18n.i18n q = st ∧ I18n.env q = stored
        ∧ attrs (root (I18n.document q)) !! "lang" = Some language
        ∧ Forall2 (switch_step st) (elements (I18n.document p))
                  (elements (I18n.document q))
        ∧ (I18n.seoManager p = true →
           Forall2 (λ e e', SEOManager.hreflang_link e = true →
                            attrs e' !! "href" = Some (SEOManager.baseUrl +:+ pathname))
                   (elements (I18n.document p)) (elements (I18n.document q)))
    else
      result.2 = Throw "InvalidCharacterError"
      ∧ I18n.i18n result.1 = st ∧ I18n.env result.1 = stored
      ∧ elements (I18n.document result.1) = rebind_until st (elements (I18n.document p))
  else result = (I18n.with_i18n st p, Throw "QuotaExceededError").
Proof.
  intros Hne. cbv zeta. unfold I18n.set.
  destruct (String.eqb_spec language (I18n.currentLang (I18n.i18n p))); [done|].
  unfold I18n.try_setItem.
  cbn [I18n.with_i18n I18n.with_env I18n.env I18n.i18n I18n.document I18n.with_lang
       I18n.storageKey].
  destruct (storage_accepts _ _ _); [|done].
  cbn [I18n.with_i18n I18n.with_env I18n.env I18n.i18n I18n.document I18n.with_lang
       I18n.storageKey].
  set (st := I18n.with_lang language (I18n.i18n p)).
  change {| I18n.currentLang := language;
            I18n.translations := I18n.translations (I18n.i18n p);
            I18n.fallbackLang := I18n.fallbackLang (I18n.i18n p);
            I18n.storageKey := I18n.storageKey (I18n.i18n p) |} with st.
  destruct (applyTranslations_run st (I18n.document p)) as [Hbound Hdone].
  destruct (I18n.applyTranslations st (I18n.document p)) as [d1 bound].
  cbn [fst snd] in Hbound, Hdone. subst bound.
  destruct (forallb valid_target (elements (I18n.document p))) eqn:Hvalid.
  2:{ cbn [fst snd I18n.with_document I18n.with_env I18n.with_i18n
           I18n.i18n I18n.env I18n.document].
      by repeat split. }
  rewrite (rebind_until_valid st _ Hvalid) in Hbound.
  destruct (updateMetaTags_steps st (I18n.updateHtmlLang st d1)) as (d2 & -> & Hd2).
  cbn [I18n.record I18n.with_document I18n.with_env I18n.with_i18n I18n.seoManager
       I18n.document].
  assert (Hstage : Forall2 (λ e eb, eb = rebind st e
                                   ∨ eb = setAttribute "lang" language (rebind st e))
                     (elements (I18n.document p))
                     (elements (I18n.updateHtmlLang st d1))).
  { unfold elements in *. cbn [I18n.updateHtmlLang root descendants] in *.
    injection Hbound as Hr Hrest.
    constructor; [right; by rewrite Hr|].
    rewrite Hrest. apply Forall2_fmap_r, Forall_Forall2_diag, Forall_forall.
    intros e _. by left. }
  assert (Hmeta : Forall2 (switch_step st) (elements (I18n.document p)) (elements d2)).
  { eapply Forall2_compose; [|exact Hstage|exact Hd2].
    intros e eb e' Hb Hm. exact (switch_step_of_stages st language e eb e' Hb Hm). }
  assert (Hlinks2 : Forall2 (λ e e', SEOManager.hreflang_link e = true →
                                     SEOManager.hreflang_link e' = true)
                      (elements (I18n.document p)) (elements d2)).
  { eapply Forall2_compose; [|exact Hstage|exact Hd2].
    intros e eb e' Hb (Htag & Hattrs & _).
    apply hreflang_link_kept.
    - rewrite Htag. destruct Hb as [->| ->]; [|unfold setAttribute; cbn [tag]];
        apply rebind_tag.
    - intros Hh.
      assert (Heb : has_attr "hreflang" eb = true).
      { destruct Hb as [->| ->].
        - by apply rebind_has_attr.
        - rewrite has_attr_setAttribute, (rebind_has_attr st "hreflang" e Hh).
          apply orb_true_r. }
      unfold has_attr in *. by rewrite Hattrs. }
  assert (Hlang2 : attrs (root d2) !! "lang" = Some language).
  { unfold elements in Hd2. inversion Hd2 as [|eb e' ? ? (_ & Hattrs & _) _]; subst.
    rewrite Hattrs by done. cbn [I18n.updateHtmlLang root setAttribute attrs].
    rewrite lowercase_lang. apply lookup_insert_eq. }
  pose proof (updateLanguageSwitcher_steps st d2) as Hsync.
  set (d3 := I18n.updateLanguageSwitcher st d2) in *.
  assert (Hlang3 : attrs (root d3) !! "lang" = Some language).
  { unfold elements in Hsync. inversion Hsync as [|? ? ? ? (_ & _ & Ha) _]; subst.
    rewrite Ha; [done|]. not_listed. }
  assert (Hswitch3 : Forall2 (switch_step st) (elements (I18n.document p)) (elements d3)).
  { eapply Forall2_compose; [|exact Hmeta|exact Hsync].
    intros e e1 e' Hs Ha. apply (switch_step_decorated st e e1 e' Hs).
    eapply attr_step_mono; [|exact Ha].
    intros k Hk. unfold decorations.
    apply elem_of_cons in Hk as [->|Hk]; [listed|].
    apply list_elem_of_singleton in Hk as ->. listed. }
  destruct (I18n.seoManager p) eqn:Hseo.
  - destruct (updateHreflangTags_steps pathname language d3) as [Hseo_steps Hseo_lang].
    eexists. split; [reflexivity|].
    cbn [I18n.record I18n.with_document I18n.with_env I18n.with_i18n
         I18n.i18n I18n.env I18n.document].
    split; [done|]. split; [done|]. split; [exact Hseo_lang|]. split.
    + eapply Forall2_compose; [|exact Hswitch3|exact Hseo_steps].
      intros e e1 e' Hs [Ha _]. by eapply switch_step_decorated.
    + intros _.
      assert (Hlinks3 : Forall2 (λ e e', SEOManager.hreflang_link e = true →
                                         SEOManager.hreflang_link e' = true)
                          (elements (I18n.document p)) (elements d3)).
      { eapply Forall2_compose; [|exact Hlinks2|exact Hsync].
        intros e e1 e' Hl (Ht & _ & Ha) He. apply (hreflang_link_kept e1 e' Ht).
        - unfold has_attr. rewrite Ha; [done|]. not_listed.
        - by apply Hl. }
      eapply Forall2_compose; [|exact Hlinks3|exact Hseo_steps].
      intros e e1 e' Hl [_ Hh] He. apply Hh. by apply Hl.
  - eexists. split; [reflexivity|].
    cbn [I18n.record I18n.with_document I18n.with_env I18n.with_i18n
         I18n.i18n I18n.env I18n.document].
    split; [done|]. split; [done|]. split; [exact Hlang3|]. split; [exact Hswitch3|].
    intros Hyes. congruence.
Qed.

(** The end of [set] under listeners and a handler that keep to the parts
    of the page that are theirs. *)
Lemma notify_keeps_store q language :
  keeps_store languageChanged → keeps_store (left_by handleLanguageChange) →
  I18n.i18n (I18n.notify languageChanged handleLanguageChange q language).1 = I18n.i18n q
  ∧ localStorage (I18n.env (I18n.notify languageChanged handleLanguageChange q language).1)
    = localStorage (I18n.env q).
Proof.
  intros Hl Hh. unfold I18n.notify.
  set (q1 := languageChanged language _).
  assert (H1 : I18n.i18n q1 = I18n.i18n q
               ∧ localStorage (I18n.env q1) = localStorage (I18n.env q)).
  { subst q1. destruct (Hl language (I18n.record [I18n.LanguageChanged language] q))
      as [-> ->]. done. }
  destruct (I18n.app q1); [|exact H1].
  pose proof (Hh language (I18n.record [I18n.AppLanguageChange language] q1)) as H2.
  unfold left_by in H2.
  destruct (handleLanguageChange language _) as [q2 [[]|err]];
    cbn [fst snd I18n.record I18n.i18n I18n.env] in *;
    destruct H1 as [<- <-]; destruct H2 as [H2 H3]; rewrite H2, H3; done.
Qed.

Lemma notify_keeps_element i q language :
  keeps_element i languageChanged → keeps_element i (left_by handleLanguageChange) →
  elements (I18n.document (I18n.notify languageChanged handleLanguageChange q language).1)
    !! i
  = elements (I18n.document q) !! i.
Proof.
  intros Hl Hh. unfold I18n.notify.
  set (q1 := languageChanged language _).
  assert (H1 : elements (I18n.document q1) !! i = elements (I18n.document q) !! i).
  { subst q1. by rewrite Hl. }
  destruct (I18n.app q1); [|exact H1].
  pose proof (Hh language (I18n.record [I18n.AppLanguageChange language] q1)) as H2.
  unfold left_by in H2.
  destruct (handleLanguageChange language _) as [q2 [[]|err]];
    cbn [fst snd I18n.record I18n.document] in *;
    rewrite <- H1, <- H2; done.
Qed.

(** A switch that completes: the language is the new one, the preference
    is stored, and an element the listeners leave alone has been through the
    binder and the meta tags. *)
Lemma set_completed p language p' :
  language ≠ I18n.currentLang (I18n.i18n p) →
  I18n.set pathname languageChanged handleLanguageChange p language = (p', Normal ()) →
  keeps_store languageChanged → keeps_store (left_by handleLanguageChange) →
  I18n.i18n p' = I18n.with_lang language (I18n.i18n p)
  ∧ localStorage (I18n.env p')
    = <[I18n.storageKey (I18n.i18n p) := language]> (localStorage (I18n.env p))
  ∧ ∀ i e,
      elements (I18n.document p) !! i = Some e →
      keeps_element i languageChanged →
      keeps_element i (left_by handleLanguageChange) →
      ∃ e', elements (I18n.document p') !! i = Some e'
            ∧ switch_step (I18n.with_lang language (I18n.i18n p)) e e'
            ∧ (i = 0%nat → attrs e' !! "lang" = Some language)
            ∧ (I18n.seoManager p = true → SEOManager.hreflang_link e = true →
               attrs e' !! "href" = Some (SEOManager.baseUrl +:+ pathname)).
Proof.
  intros Hne Hset Hl Hh.
  pose proof (set_other p language Hne) as Hrun. cbv zeta in Hrun.
  rewrite Hset in Hrun.
  destruct (storage_accepts _ _ _); [|discriminate].
  destruct (forallb valid_target _).
  2:{ destruct Hrun as [Hr _]. discriminate. }
  destruct Hrun as (q & Hq & Hst & Henv & Hlang & Hsteps & Hlinks).
  destruct (notify_keeps_store q language Hl Hh) as [Hk1 Hk2].
  rewrite <- Hq in Hk1, Hk2. cbn [fst] in Hk1, Hk2.
  split; [congruence|]. split; [by rewrite Hk2, Henv|].
  intros i e He Hli Hhi.
  pose proof (notify_keeps_element i q language Hli Hhi) as Hk.
  rewrite <- Hq in Hk. cbn [fst] in Hk.
  destruct (Forall2_lookup_l _ _ _ _ _ Hsteps He) as (e' & He' & Hstep).
  exists e'. split; [by rewrite Hk|]. split; [exact Hstep|]. split.
  - intros ->. unfold elements in He'. simpl in He'. injection He' as <-. exact Hlang.
  - intros Hseo Hlink.
    destruct (Forall2_lookup_l _ _ _ _ _ (Hlinks Hseo) He) as (e'' & He'' & Hhref).
    assert (e'' = e') as -> by congruence. by apply Hhref.
Qed.

End SetFacts.

End BinderFacts.

(** The binder leaves every element it binds showing its translation. *)
Lemma rebind_shows_translation `{RT : JsRuntime} st e :
  shows_translation st (rebind st e) = true.
Proof.
  unfold shows_translation, rebind.
  destruct (attrs e !! "data-i18n") as [key|] eqn:Hkey; [|by rewrite Hkey].
  destruct (attrs e !! "data-i18n-attr") as [a|] eqn:Ha.
  - unfold setAttribute. cbn [attrs].
    destruct (<[lowercase a:=_]> (attrs e) !! "data-i18n"); [|done].
    rewrite lookup_insert. destruct (decide _); [done|]. by rewrite Ha.
  - cbn [set_textContent attrs text]. rewrite Hkey, Ha. apply String.eqb_refl.
Qed.

Lemma rerender_after_keeps_store k fresh :
  keeps_store (left_by (rerender_after k fresh)).
Proof. by intros language q. Qed.

(** Rendering again after the first [k] elements below the root leaves
    the root and these [k] elements in their places. *)
Lemma rerender_after_keeps_element k fresh i :
  (i ≤ k)%nat → keeps_element i (left_by (rerender_after k fresh)).
Proof.
  intros Hi language q. unfold left_by, rerender_after, elements.
  cbn [fst I18n.with_document I18n.document root descendants].
  destruct i as [|j]; [done|]. simpl.
  destruct (Nat.leb_spec k (length (descendants (I18n.document q)))) as [Hk|Hk]; [|done].
  rewrite lookup_app_l by (rewrite length_take; lia).
  apply lookup_take_lt. lia.
Qed.

(** C3, as amended.  [set] ignores the request exactly when the code
    equals the current language.  Every other string, recognized or not,
    becomes the current language at once, the dictionaries staying as they
    are, also when a later step raises.  When [set] completes, the code has
    been stored as the preference, and every element that the listeners and
    the app leave in its place has been through the binder: the root carries
    the code as its [lang], and an element bound as text shows what [t]
    gives for its key in the new language.  The listeners and the handler of
    the app are taken to leave the [I18n] object and localStorage alone. *)
Theorem set_applies_every_other_code `{RT : JsRuntime}
    (pathname : string) (languageChanged : string → I18n.Page → I18n.Page)
    (handleLanguageChange : string → I18n.Page → I18n.Page * Completion unit)
    (p : I18n.Page) (language : string) :
  keeps_store languageChanged →
  keeps_store (left_by handleLanguageChange) →
  let result := I18n.set pathname languageChanged handleLanguageChange p language in
  if String.eqb language (I18n.currentLang (I18n.i18n p)) then result = (p, Normal ())
  else
    I18n.currentLang (I18n.i18n result.1) = language
    ∧ I18n.translations (I18n.i18n result.1) = I18n.translations (I18n.i18n p)
    ∧ (result.2 = Normal () →
       localStorage (I18n.env result.1) !! I18n.storageKey (I18n.i18n p) = Some language
       ∧ ∀ i e,
           elements (I18n.document p) !! i = Some e →
           keeps_element i languageChanged →
           keeps_element i (left_by handleLanguageChange) →
           ∃ e', elements (I18n.document result.1) !! i = Some e'
                 ∧ (i = 0%nat → attrs e' !! "lang" = Some language)
                 ∧ ∀ key, attrs e !! "data-i18n" = Some key →
                          attrs e !! "data-i18n-attr" = None →
                          text e'
                          = nullable_dom_string
                              (translated (I18n.with_lang language (I18n.i18n p)) key)).
Proof.
  intros Hl Hh result. subst result.
  destruct (String.eqb_spec language (I18n.currentLang (I18n.i18n p))) as [->|Hne].
  { apply set_same. }
  assert (Hstate : I18n.i18n (I18n.set pathname languageChanged handleLanguageChange
                                p language).1
                   = I18n.with_lang language (I18n.i18n p)).
  { pose proof (set_other pathname languageChanged handleLanguageChange p language Hne)
      as Hrun.
    cbv zeta in Hrun.
    destruct (storage_accepts _ _ _); [|by rewrite Hrun].
    destruct (forallb valid_target _).
    - destruct Hrun as (q & -> & Hst & _).
      destruct (notify_keeps_store languageChanged handleLanguageChange q language Hl Hh)
        as [-> _].
      exact Hst.
    - by destruct Hrun as (_ & Hst & _). }
  rewrite Hstate. split; [done|]. split; [done|].
  intros Hdone.
  destruct (I18n.set pathname languageChanged handleLanguageChange p language)
    as [p' c] eqn:Hset.
  cbn [fst snd] in *. subst c.
  destruct (set_completed pathname languageChanged handleLanguageChange p language p'
              Hne Hset Hl Hh) as (_ & Hstored & Helements).
  split; [rewrite Hstored; apply lookup_insert_eq|].
  intros i e He Hli Hhi.
  destruct (Helements i e He Hli Hhi) as (e' & He' & (_ & _ & Hno & _) & Hlang & _).
  exists e'. split; [done|]. split; [done|].
  intros key Hkey Hnone.
  assert (Hno' : has_attr "data-i18n-attr" e = false).
  { unfold has_attr. apply bool_decide_eq_false_2. rewrite Hnone. by intros [? ?]. }
  destruct (Hno Hno') as [_ Hshow]. by apply Hshow.
Qed.

Lemma set_applies_every_other_code_witness :
  let result :=
    I18n.set (RT := site_runtime) "/projects.html"
      (left_by (rerender_after 5 [view_button])) (rerender_after 5 [view_button])
      site_page "fr" in
  if String.eqb "fr" (I18n.currentLang (I18n.i18n site_page))
  then result = (site_page, Normal ())
  else
    I18n.currentLang (I18n.i18n result.1) = "fr"
    ∧ I18n.translations (I18n.i18n result.1) = I18n.translations (I18n.i18n site_page)
    ∧ (result.2 = Normal () →
       localStorage (I18n.env result.1) !! I18n.storageKey (I18n.i18n site_page)
       = Some "fr"
       ∧ ∀ i e,
           elements (I18n.document site_page) !! i = Some e →
           keeps_element i (left_by (rerender_after 5 [view_button])) →
           keeps_element i (left_by (rerender_after 5 [view_button])) →
           ∃ e', elements (I18n.document result.1) !! i = Some e'
                 ∧ (i = 0%nat → attrs e' !! "lang" = Some "fr")
                 ∧ ∀ key, attrs e !! "data-i18n" = Some key →
                          attrs e !! "data-i18n-attr" = None →
                          text e'
                          = nullable_dom_string (RT := site_runtime)
                              (translated (RT := site_runtime)
                                 (I18n.with_lang "fr" (I18n.i18n site_page)) key)).
Proof.
  apply (set_applies_every_other_code (RT := site_runtime) "/projects.html"
           (left_by (rerender_after 5 [view_button])) (rerender_after 5 [view_button])
           site_page "fr").
  - apply rerender_after_keeps_store.
  - apply rerender_after_keeps_store.
Defined.

(** C3, as the specification states it, fails: on the English page the
    unrecognized code [fr] is not ignored; the switch completes, and [fr] is
    the current language and the stored preference. *)
Lemma unrecognized_code_is_applied :
  recognized "fr" = false
  ∧ ¬ rejects_unrecognized (RT := site_runtime) "/" quiet idle english_page "fr"
  ∧ (I18n.set (RT := site_runtime) "/" quiet idle english_page "fr").2 = Normal ()
  ∧ I18n.currentLang
      (I18n.i18n (I18n.set (RT := site_runtime) "/" quiet idle english_page "fr").1)
    = "fr"
  ∧ localStorage
      (I18n.env (I18n.set (RT := site_runtime) "/" quiet idle english_page "fr").1)
      !! "preferred-language"
    = Some "fr".
Proof.
  assert (Hlang : I18n.currentLang
                    (I18n.i18n (I18n.set (RT := site_runtime) "/" quiet idle
                                  english_page "fr").1) = "fr")
    by (vm_compute; reflexivity).
  split; [reflexivity|]. split.
  - intros Hrej. specialize (Hrej eq_refl). rewrite Hrej in Hlang.
    vm_compute in Hlang. discriminate Hlang.
  - split; [vm_compute; reflexivity|]. split; [exact Hlang|].
    vm_compute. reflexivity.
Qed.

(** On the projects page the app renders the cards again when the language
    changes, so the button of a card is back at the text of the template
    whatever the binder had written: after the switch to Lao the link shows
    its translation and the button does not. *)
Example rendered_again_after_switch :
  (text <$> elements
     (I18n.document
        (I18n.set (RT := site_runtime) "/projects.html"
           (left_by (rerender_after 5 [view_button])) (rerender_after 5 [view_button])
           site_page "lo").1))
  = [EmptyString; "TPEC Lao"; "ໜ້າຫຼັກ"; EmptyString; EmptyString; EmptyString;
     "View Details"].
Proof. vm_compute. reflexivity. Qed.

(** C8, as amended.  Take an element of the page that is bound, is not a
    title with an attribute target, shows the translation of its key when it
    is bound as text, and is left in its place by the listeners and the app.
    After a switch to another language and a switch back, both of which
    complete, the [I18n] object is as it was and the element has the text it
    had. *)
Theorem round_trip_restores_bound_text `{RT : JsRuntime}
    (pathname : string) (languageChanged : string → I18n.Page → I18n.Page)
    (handleLanguageChange : string → I18n.Page → I18n.Page * Completion unit)
    (p p1 p2 : I18n.Page) (other : string) (i : nat) (e0 : Element) :
  keeps_store languageChanged →
  keeps_store (left_by handleLanguageChange) →
  keeps_element i languageChanged →
  keeps_element i (left_by handleLanguageChange) →
  other ≠ I18n.currentLang (I18n.i18n p) →
  I18n.set pathname languageChanged handleLanguageChange p other = (p1, Normal ()) →
  I18n.set pathname languageChanged handleLanguageChange p1
    (I18n.currentLang (I18n.i18n p)) = (p2, Normal ()) →
  elements (I18n.document p) !! i = Some e0 →
  bound e0 = true →
  title_with_target e0 = false →
  shows_translation (I18n.i18n p) e0 = true →
  I18n.i18n p2 = I18n.i18n p
  ∧ ∃ e2, elements (I18n.document p2) !! i = Some e2 ∧ text e2 = text e0.
Proof.
  intros Hl Hh Hli Hhi Hother Hset1 Hset2 H0 Hbound Hnot Hshown.
  destruct (set_completed pathname languageChanged handleLanguageChange p other p1
              Hother Hset1 Hl Hh) as (Hst1 & _ & Hstep1).
  assert (Hback : I18n.currentLang (I18n.i18n p) ≠ I18n.currentLang (I18n.i18n p1)).
  { rewrite Hst1. simpl. congruence. }
  destruct (set_completed pathname languageChanged handleLanguageChange p1 _ p2
              Hback Hset2 Hl Hh) as (Hst2 & _ & Hstep2).
  assert (Hsame : I18n.with_lang (I18n.currentLang (I18n.i18n p)) (I18n.i18n p1)
                  = I18n.i18n p).
  { rewrite Hst1. by destruct (I18n.i18n p). }
  rewrite Hsame in *. split; [done|].
  destruct (Hstep1 i e0 H0 Hli Hhi) as (e1 & H1 & (Ht1 & Hg1 & Hno1 & Hyes1) & _).
  destruct (Hstep2 i e1 H1 Hli Hhi) as (e2 & H2 & (Ht2 & Hg2 & Hno2 & Hyes2) & _).
  exists e2. split; [done|].
  destruct (has_attr "data-i18n-attr" e0) eqn:Htarget.
  - assert (Htitle : is_tag "title" e0 = false).
    { unfold title_with_target in Hnot. rewrite Htarget, andb_true_r in Hnot. done. }
    rewrite Hyes2; [by apply Hyes1| congruence |].
    unfold is_tag in *. congruence.
  - apply has_attr_lookup in Hbound as [key Hkey].
    destruct (Hno1 eq_refl) as [Hk1 _].
    destruct Hno2 as [_ Hx2]; [congruence|].
    rewrite (Hx2 key) by congruence.
    unfold shows_translation in Hshown. rewrite Hkey in Hshown.
    assert (Hnone : attrs e0 !! "data-i18n-attr" = None).
    { unfold has_attr in Htarget. apply bool_decide_eq_false_1 in Htarget.
      destruct (attrs e0 !! "data-i18n-attr"); [|done]. exfalso. apply Htarget. eauto. }
    rewrite Hnone in Hshown. apply String.eqb_eq in Hshown. done.
Qed.

Lemma round_trip_restores_bound_text_witness :
  I18n.i18n
    (I18n.set (RT := site_runtime) "/projects.html"
       (left_by (rerender_after 5 [view_button])) (rerender_after 5 [view_button])
       (I18n.set (RT := site_runtime) "/projects.html"
          (left_by (rerender_after 5 [view_button])) (rerender_after 5 [view_button])
          site_page "lo").1
       "en").1
  = I18n.i18n site_page
  ∧ ∃ e2,
      elements
        (I18n.document
           (I18n.set (RT := site_runtime) "/projects.html"
              (left_by (rerender_after 5 [view_button])) (rerender_after 5 [view_button])
              (I18n.set (RT := site_runtime) "/projects.html"
                 (left_by (rerender_after 5 [view_button]))
                 (rerender_after 5 [view_button])
                 site_page "lo").1
              "en").1) !! 2%nat
      = Some e2
      ∧ text e2 = "Home".
Proof.
  apply (round_trip_restores_bound_text (RT := site_runtime) "/projects.html"
           (left_by (rerender_after 5 [view_button])) (rerender_after 5 [view_button])
           site_page
           (I18n.set (RT := site_runtime) "/projects.html"
              (left_by (rerender_after 5 [view_button])) (rerender_after 5 [view_button])
              site_page "lo").1
           (I18n.set (RT := site_runtime) "/projects.html"
              (left_by (rerender_after 5 [view_button])) (rerender_after 5 [view_button])
              (I18n.set (RT := site_runtime) "/projects.html"
                 (left_by (rerender_after 5 [view_button]))
                 (rerender_after 5 [view_button])
                 site_page "lo").1
              "en").1
           "lo" 2
           {| tag := "a";
              attrs := list_to_map [("data-i18n", "nav.home"); ("href", "/")];
              text := "Home" |}).
  - apply rerender_after_keeps_store.
  - apply rerender_after_keeps_store.
  - apply rerender_after_keeps_element. lia.
  - apply rerender_after_keeps_element. lia.
  - vm_compute. discriminate.
  - vm_compute. reflexivity.
  - vm_compute. reflexivity.
  - vm_compute. reflexivity.
  - vm_compute. reflexivity.
  - vm_compute. reflexivity.
  - vm_compute. reflexivity.
Defined.

(** C8, as the specification states it, fails in two ways.  On the English
    page the title is bound with an attribute target, so the binder leaves
    the served text ["Construction Consulting"] in place, and after the round
    trip [updateMetaTags] has put the English translation there.  On the page
    with an open project detail the scope heading shows the caller's fallback
    ["Project Scope"], and after the round trip the binder has replaced it by
    the placeholder of the missing key. *)
Lemma round_trip_fails :
  ¬ round_trip_restores (RT := site_runtime) "/" quiet idle english_page
  ∧ ¬ round_trip_restores (RT := site_runtime) "/" quiet idle detail_page.
Proof.
  split.
  - intros (p1 & p2 & H1 & H2 & Hall).
    assert (Hrun : (text <$> elements
                      (I18n.document
                         (I18n.set (RT := site_runtime) "/" quiet idle
                            (I18n.set (RT := site_runtime) "/" quiet idle
                               english_page "lo").1 "en").1)) !! 1%nat
                   = Some "TPEC Consulting")
      by (vm_compute; reflexivity).
    rewrite H1 in Hrun. cbn [fst] in Hrun. rewrite H2 in Hrun. cbn [fst] in Hrun.
    apply list_lookup_fmap_Some in Hrun as (e2 & Htext & He2).
    assert (Hserved : ∃ e0, elements (I18n.document english_page) !! 1%nat = Some e0
                            ∧ bound e0 = true ∧ text e0 = "Construction Consulting").
    { eexists. split; [vm_compute; reflexivity|]. split; vm_compute; reflexivity. }
    destruct Hserved as (e0 & He0 & Hb & Ht0).
    specialize (Hall 1%nat e0 e2 He0 He2 Hb). congruence.
  - intros (p1 & p2 & H1 & H2 & Hall).
    assert (Hrun : (text <$> elements
                      (I18n.document
                         (I18n.set (RT := site_runtime) "/" quiet idle
                            (I18n.set (RT := site_runtime) "/" quiet idle
                               detail_page "lo").1 "en").1)) !! 3%nat
                   = Some "[MISSING: Scope]")
      by (vm_compute; reflexivity).
    rewrite H1 in Hrun. cbn [fst] in Hrun. rewrite H2 in Hrun. cbn [fst] in Hrun.
    apply list_lookup_fmap_Some in Hrun as (e2 & Htext & He2).
    assert (Hrendered : elements (I18n.document detail_page) !! 3%nat = Some scope_heading)
      by (vm_compute; reflexivity).
    specialize (Hall 3%nat scope_heading e2 Hrendered He2 eq_refl).
    simpl in Hall. congruence.
Qed.

(** X27. on a page with the SEO manager, after a switch that completes,
    every [link[hreflang]] that the listeners and the app leave in its place
    has the same address, the base URL followed by the path of the page,
    whatever language the link is for and whatever its address was. *)
Theorem hreflang_update_after_set `{RT : JsRuntime}
    (pathname : string) (languageChanged : string → I18n.Page → I18n.Page)
    (handleLanguageChange : string → I18n.Page → I18n.Page * Completion unit)
    (p p' : I18n.Page) (language : string) (i : nat) (e : Element) :
  keeps_store languageChanged →
  keeps_store (left_by handleLanguageChange) →
  keeps_element i languageChanged →
  keeps_element i (left_by handleLanguageChange) →
  language ≠ I18n.currentLang (I18n.i18n p) →
  I18n.set pathname languageChanged handleLanguageChange p language = (p', Normal ()) →
  I18n.seoManager p = true →
  elements (I18n.document p) !! i = Some e →
  SEOManager.hreflang_link e = true →
  ∃ e', elements (I18n.document p') !! i = Some e'
        ∧ tag e' = "link"
        ∧ attrs e' !! "href" = Some ("https://example.com" +:+ pathname).
Proof.
  intros Hl Hh Hli Hhi Hne Hset Hseo He Hlink.
  destruct (set_completed pathname languageChanged handleLanguageChange p language p'
              Hne Hset Hl Hh) as (_ & _ & Helements).
  destruct (Helements i e He Hli Hhi) as (e' & He' & (Htag & _) & _ & Hhref).
  exists e'. split; [done|]. split.
  - rewrite Htag. unfold SEOManager.hreflang_link, is_tag in Hlink.
    apply andb_prop in Hlink as [Ht _]. by apply String.eqb_eq in Ht.
  - by apply Hhref.
Qed.

Lemma hreflang_update_after_set_witness :
  ∃ e', elements
          (I18n.document
             (I18n.set (RT := site_runtime) "/projects.html"
                (left_by (rerender_after 5 [view_button]))
                (rerender_after 5 [view_button])
                site_page "lo").1) !! 4%nat
        = Some e'
        ∧ tag e' = "link"
        ∧ attrs e' !! "href" = Some ("https://example.com" +:+ "/projects.html").
Proof.
  apply (hreflang_update_after_set (RT := site_runtime) "/projects.html"
           (left_by (rerender_after 5 [view_button])) (rerender_after 5 [view_button])
           site_page
           (I18n.set (RT := site_runtime) "/projects.html"
              (left_by (rerender_after 5 [view_button])) (rerender_after 5 [view_button])
              site_page "lo").1
           "lo" 4
           {| tag := "link";
              attrs := list_to_map [("rel", "alternate"); ("hreflang", "lo");
                                    ("href", "https://example.com/lo/")];
              text := EmptyString |}).
  - apply rerender_after_keeps_store.
  - apply rerender_after_keeps_store.
  - apply rerender_after_keeps_element. lia.
  - apply rerender_after_keeps_element. lia.
  - vm_compute. discriminate.
  - vm_compute. reflexivity.
  - vm_compute. reflexivity.
  - vm_compute. reflexivity.
  - vm_compute. reflexivity.
Defined.

(** After the switch to Lao both alternate links point to the page itself,
    and the locale is Lao. *)
Example hreflang_links_after_switch :
  ((λ e, attrs e !! "href")
     <$> elements
           (I18n.document
              (I18n.set (RT := site_runtime) "/projects.html"
                 (left_by (rerender_after 5 [view_button]))
                 (rerender_after 5 [view_button])
                 site_page "lo").1))
  = [None; None; Some "/"; Some "https://example.com/projects.html";
     Some "https://example.com/projects.html"; None; None]
  ∧ ((λ e, attrs e !! "content")
       <$> elements
             (I18n.document
                (I18n.set (RT := site_runtime) "/projects.html"
                   (left_by (rerender_after 5 [view_button]))
                   (rerender_after 5 [view_button])
                   site_page "lo").1))
    = [None; None; None; None; None; Some "lo_LA"; None].
Proof. split; vm_compute; reflexivity. Qed.

(** ** Loading the dictionaries *)

Section CacheFacts.
Context {RT : JsRuntime}.

(** [loadFromCache] returns a value, records one read of the language's
    cache key, and returns a truthy value only from an entry that parses and
    whose timestamp is less than the cache window behind the clock. *)
Lemma loadFromCache_fresh lang e :
  ∃ cached,
    (I18n.loadFromCache lang e).1 = Normal cached
    ∧ storage_reads (I18n.loadFromCache lang e).2
      = (storage_reads e ++ ["i18n-cache-" +:+ lang])%list
    ∧ localStorage (I18n.loadFromCache lang e).2 = localStorage e
    ∧ (truthy cached = true →
       ∃ raw data stamp n,
         localStorage e !! ("i18n-cache-" +:+ lang) = Some raw
         ∧ raw ≠ EmptyString
         ∧ json_parse raw = Some data
         ∧ js_get data "timestamp" = Normal stamp
         ∧ number_of stamp = Some n
         ∧ clock e - n < I18n.cache_window
         ∧ js_get data "translations" = Normal cached).
Proof.
  unfold I18n.loadFromCache, getItem. cbn [fst snd storage_reads localStorage clock].
  destruct (localStorage e !! ("i18n-cache-" +:+ lang)) as [raw|] eqn:Hraw;
    cbn [I18n.read_cache_entry try_catch]; [|exists JNull; by repeat split].
  destruct (truthy (JStr raw)) eqn:Hfilled; [|exists JNull; by repeat split].
  destruct (json_parse raw) as [data|] eqn:Hparse;
    [|exists JNull; by repeat split].
  destruct (js_get data "timestamp") as [stamp|] eqn:Hstamp;
    cbn [mbind completion_bind cbind try_catch]; [|exists JNull; by repeat split].
  destruct (I18n.fresh (clock e) stamp) eqn:Hfresh;
    [|exists JNull; by repeat split].
  destruct (js_get data "translations") as [cached|] eqn:Hcached;
    cbn [try_catch]; [|exists JNull; by repeat split].
  exists cached. split; [done|]. split; [done|]. split; [done|].
  intros _. exists raw, data, stamp.
  unfold I18n.fresh in Hfresh.
  destruct (number_of stamp) as [n|]; [|discriminate].
  exists n. apply Z.ltb_lt in Hfresh.
  assert (raw ≠ EmptyString) by (intros ->; discriminate Hfilled).
  done.
Qed.

(** And it returns the translations of every such entry. *)
Lemma loadFromCache_of_fresh lang e raw data stamp n cached :
  localStorage e !! ("i18n-cache-" +:+ lang) = Some raw →
  raw ≠ EmptyString →
  json_parse raw = Some data →
  js_get data "timestamp" = Normal stamp →
  number_of stamp = Some n →
  clock e - n < I18n.cache_window →
  js_get data "translations" = Normal cached →
  (I18n.loadFromCache lang e).1 = Normal cached.
Proof.
  intros Hraw Hfilled Hparse Hstamp Hn Hfresh Hcached.
  unfold I18n.loadFromCache, getItem. cbn [fst snd storage_reads localStorage clock].
  rewrite Hraw. cbn [I18n.read_cache_entry].
  assert (Htruthy : truthy (JStr raw) = true).
  { simpl. by destruct (String.eqb_spec raw EmptyString). }
  rewrite Htruthy, Hparse, Hstamp. cbn [mbind completion_bind cbind].
  unfold I18n.fresh. rewrite Hn.
  apply Z.ltb_lt in Hfresh. rewrite Hfresh, Hcached. done.
Qed.

End CacheFacts.


(** ** Deep links into the project list *)

Section DeepLinkFacts.
Context {RT : JsRuntime}.
Variable translator : I18n.State.

Lemma renderProjectTabs_frame a :
  App.projects (App.renderProjectTabs translator a) = App.projects a
  ∧ App.initialHash (App.renderProjectTabs translator a) = App.initialHash a
  ∧ App.detailSection (App.renderProjectTabs translator a) = App.detailSection a
  ∧ App.location_hash (App.renderProjectTabs translator a) = App.location_hash a
  ∧ App.timers (App.renderProjectTabs translator a) = App.timers a.
Proof.
  unfold App.renderProjectTabs.
  repeat match goal with
         | |- context [match ?x with _ => _ end] => destruct x eqn:?
         end; repeat split; simpl; congruence.
Qed.

Lemma slug_is_record slug p :
  displayable p = true →
  App.slug_is slug p = Normal (record_slug_is slug p).
Proof.
  unfold displayable, App.slug_is, record_slug_is.
  destruct p as [| | | | |?|props|?]; try discriminate. simpl.
  destruct (props !! "slug") as [v|]; [done | discriminate].
Qed.

Lemma findM_slug slug items :
  forallb displayable items = true →
  findM (App.slug_is slug) items = Normal (List.find (record_slug_is slug) items).
Proof.
  induction items as [|p items IH]; simpl; [done|].
  intros [Hp Hrest]%andb_prop.
  rewrite (slug_is_record slug p Hp). simpl.
  destruct (record_slug_is slug p); [done | by apply IH].
Qed.

Lemma gallery_markup_displayable p :
  displayable p = true → App.gallery_markup p = Normal ().
Proof.
  unfold displayable, App.gallery_markup.
  destruct p as [| | | | |?|props|?]; try discriminate.
  destruct (props !! "slug") as [[]|]; try discriminate.
  assert (js_get (JObj props) "gallery" = Normal (object_get props "gallery")) as ->.
  { unfold object_get. simpl. by destruct (props !! "gallery"). }
  simpl.
  destruct (object_get props "gallery") as [| |b|n|g| items |?|?]; simpl;
    try discriminate; try done.
  - by intros ->%negb_true_iff.
  - by intros ->%negb_true_iff.
  - by intros ->%negb_true_iff.
  - intros _. by destruct (0 <? Z.of_nat (length items)).
Qed.

(** Showing the detail of a displayable record whose slug is known. *)
Lemma showProjectDetail_displayable p slug a d :
  displayable p = true →
  record_slug_is slug p = true →
  App.detailSection a = Some d →
  App.showProjectDetail translator p a
  = (App.with_timers (App.timers a ++ [App.FocusCloseButton 300])
       (App.with_detail (Some {| App.visible := true; App.shown := Some p |})
          ("#" +:+ slug)
          (App.with_detail (Some d) ("#" +:+ slug) a)),
     Normal ()).
Proof.
  intros Hdisp Hslug Hd. unfold App.showProjectDetail. rewrite Hd.
  rewrite (gallery_markup_displayable p Hdisp).
  unfold displayable, record_slug_is in *.
  destruct p as [| | | | |?|props|?]; try discriminate.
  destruct (props !! "slug") as [[| | | |s| | |]|] eqn:Hs; try discriminate.
  simpl in Hslug. apply String.eqb_eq in Hslug. subst s.
  assert (App.field_text (JObj props) "slug" = Normal slug) as ->.
  { unfold App.field_text. simpl. by rewrite Hs. }
  destruct (summary_of_object translator props) as [? ->].
  destruct (field_text_object props "cover") as [? ->].
  destruct (field_text_object props "title") as [? ->].
  destruct (field_text_object props "location") as [? ->].
  destruct (field_text_object props "scope") as [? ->].
  destruct (field_text_object props "year") as [? ->].
  destruct (field_text_object props "status") as [? ->].
  done.
Qed.

Lemma run_pending_idle a :
  App.timers a = [] → App.run_pending translator a = App.with_timers [] a.
Proof. unfold App.run_pending. by intros ->. Qed.

End DeepLinkFacts.

(** On a page load the synchronous part of [initProjectsPage] does not
    raise, and [loadProjects] settles without an error whatever the network
    delivers. *)
Lemma page_load_settles `{RT : JsRuntime}
    (translator : I18n.State) (network : Network)
    (h : ErrorHandler.Handler) (e : Env)
    (o c : option App.Grid) (d : option App.Detail) (hash : string) :
  (App.initProjectsPage (App.create o c d hash)).2 = Normal ()
  ∧ (App.page_load translator network h e o c d hash).2 = Normal ().
Proof.
  split.
  - unfold App.initProjectsPage, App.setupProjectDeepLinking. simpl.
    by rewrite andb_false_r.
  - unfold App.page_load, App.loadProjects_resume.
    destruct (App.initProjectsPage _) as [a1 r1].
    destruct (ErrorHandler.fetch _ _ _ _) as [[res h1] e1].
    destruct (App.fetched_projects res); [|done].
    destruct (App.after_loading _ _) as [a2 [|]]; done.
Qed.



(** A hash that is the slug of no record leaves the detail section closed
    and the hash in place. *)
Example deep_link_without_match_stays_closed :
  App.detailSection
    (App.page_load (RT := scenario_runtime) (scenario_store "en") scenario_network
       ErrorHandler.create fresh_env (Some (App.GridMarkup EmptyString))
       (Some (App.GridMarkup EmptyString)) (Some closed_detail) "#tower-c").1
  = Some closed_detail
  ∧ App.location_hash
      (App.page_load (RT := scenario_runtime) (scenario_store "en") scenario_network
         ErrorHandler.create fresh_env (Some (App.GridMarkup EmptyString))
         (Some (App.GridMarkup EmptyString)) (Some closed_detail) "#tower-c").1
    = "#tower-c".
Proof. split; vm_compute; reflexivity. Qed.

(** Offline, with a Lao cache entry one hour old: both cache keys are read,
    the cached [nav] replaces the built-in one as a whole, and what the
    cache lacks comes from the built-in dictionaries. *)
Example offline_fresh_cache :
  storage_reads (offline_load 0 3600000).2 = ["i18n-cache-en"; "i18n-cache-lo"]
  ∧ I18n.t (RT := offline_runtime 0) (offline_load 0 3600000).1.1 "nav.home" JUndefined
    = Normal (JStr "Cached home")
  ∧ I18n.t (RT := offline_runtime 0) (offline_load 0 3600000).1.1 "nav.about" JUndefined
    = Normal (JStr "About Us")
  ∧ I18n.t (RT := offline_runtime 0) (offline_load 0 3600000).1.1 "hero.cta" JUndefined
    = Normal (JStr "ເບິ່ງໂຄງການຂອງພວກເຮົາ").
Proof. repeat split; vm_compute; reflexivity. Qed.

(** The same entry two days old is read and not used. *)
Example offline_stale_cache :
  storage_reads (offline_load 0 172800000).2 = ["i18n-cache-en"; "i18n-cache-lo"]
  ∧ I18n.t (RT := offline_runtime 0) (offline_load 0 172800000).1.1 "nav.home" JUndefined
    = Normal (JStr "ໜ້າຫຼັກ").
Proof. repeat split; vm_compute; reflexivity. Qed.

(** ** The retrying fetch, request by request *)

Section RetrySteps.
Variable network : Network.

Lemma fetchWithRetry_success h e url options response :
  ErrorHandler.checked (network url (requests e)) = Normal response →
  ErrorHandler.fetchWithRetry network h e url options
  = (Normal response,
     ErrorHandler.delete_attempts (ErrorHandler.retryKey url options) h,
     count_request e).
Proof.
  intros H. rewrite ErrorHandler.fetchWithRetry_equation_1, H. reflexivity.
Qed.

Lemma fetchWithRetry_retry h e url options error :
  ErrorHandler.checked (network url (requests e)) = Throw error →
  (ErrorHandler.attempts_of h (ErrorHandler.retryKey url options)
   < ErrorHandler.maxRetries h)%nat →
  ErrorHandler.fetchWithRetry network h e url options
  = ErrorHandler.fetchWithRetry network
      (ErrorHandler.set_attempts (ErrorHandler.retryKey url options)
         (ErrorHandler.attempts_of h (ErrorHandler.retryKey url options) + 1)%nat h)
      (sleep (ErrorHandler.backoff h
                (ErrorHandler.attempts_of h (ErrorHandler.retryKey url options)))
             (count_request e))
      url options.
Proof.
  intros H Hlt. rewrite ErrorHandler.fetchWithRetry_equation_1, H. simpl.
  destruct (lt_dec _ _); [|done].
  by rewrite ErrorHandler.fetchWithRetry_clause_1_clause_2_equation_1.
Qed.

Lemma fetchWithRetry_give_up h e url options error :
  ErrorHandler.checked (network url (requests e)) = Throw error →
  ¬ (ErrorHandler.attempts_of h (ErrorHandler.retryKey url options)
     < ErrorHandler.maxRetries h)%nat →
  ErrorHandler.fetchWithRetry network h e url options
  = (Throw error,
     ErrorHandler.delete_attempts (ErrorHandler.retryKey url options) h,
     count_request e).
Proof.
  intros H Hge. rewrite ErrorHandler.fetchWithRetry_equation_1, H. simpl.
  destruct (lt_dec _ _); [done|]. reflexivity.
Qed.

Lemma delete_set_attempts key n h :
  ErrorHandler.delete_attempts key (ErrorHandler.set_attempts key n h)
  = ErrorHandler.delete_attempts key h.
Proof.
  unfold ErrorHandler.delete_attempts, ErrorHandler.set_attempts. simpl.
  by rewrite delete_insert_eq.
Qed.

Lemma attempts_set_attempts key n h :
  ErrorHandler.attempts_of (ErrorHandler.set_attempts key n h) key = n.
Proof.
  unfold ErrorHandler.attempts_of, ErrorHandler.set_attempts. simpl.
  by rewrite lookup_insert_eq.
Qed.

Lemma after_requests_step k delay delays e :
  after_requests k delays (sleep delay (count_request e))
  = after_requests (S k) (delay :: delays) e.
Proof.
  unfold after_requests, sleep, count_request. simpl.
  f_equal; [lia | by rewrite <- app_assoc | lia].
Qed.

(** The run of [fetchWithRetry] when the first [k] requests fail and the
    next one succeeds, within the retries left. *)
Lemma fetchWithRetry_until_success url options k :
  ∀ h e response,
    (ErrorHandler.attempts_of h (ErrorHandler.retryKey url options) + k
     ≤ ErrorHandler.maxRetries h)%nat →
    (∀ i, (i < k)%nat →
          ∃ err, ErrorHandler.checked (network url (requests e + i)%nat) = Throw err) →
    ErrorHandler.checked (network url (requests e + k)%nat) = Normal response →
    ErrorHandler.fetchWithRetry network h e url options
    = (Normal response,
       ErrorHandler.delete_attempts (ErrorHandler.retryKey url options) h,
       after_requests (S k)
         (ErrorHandler.backoff h
            <$> seq (ErrorHandler.attempts_of h (ErrorHandler.retryKey url options)) k)
         e).
Proof.
  induction k as [|k IH]; intros h e response Hle Hfail Hok.
  - rewrite Nat.add_0_r in Hok. rewrite (fetchWithRetry_success _ _ _ _ _ Hok).
    f_equal. unfold after_requests, count_request. simpl.
    f_equal; [lia | by rewrite app_nil_r | lia].
  - destruct (Hfail 0%nat ltac:(lia)) as [err Herr]. rewrite Nat.add_0_r in Herr.
    rewrite (fetchWithRetry_retry _ _ _ _ _ Herr) by lia.
    set (key := ErrorHandler.retryKey url options) in *.
    set (a := ErrorHandler.attempts_of h key) in *.
    rewrite (IH _ _ response).
    + rewrite delete_set_attempts, attempts_set_attempts, after_requests_step.
      f_equal. f_equal. simpl. replace (a + 1)%nat with (S a) by lia. done.
    + rewrite attempts_set_attempts. simpl. lia.
    + intros i Hi. simpl. destruct (Hfail (S i) ltac:(lia)) as [err' Herr'].
      exists err'. rewrite <- Herr'. f_equal. f_equal. lia.
    + simpl. rewrite <- Hok. f_equal. f_equal. lia.
Qed.

(** The run when every request fails: the error raised is the one of the
    last request. *)
Lemma fetchWithRetry_exhausted url options k :
  ∀ h e error,
    (ErrorHandler.attempts_of h (ErrorHandler.retryKey url options) + k
     = ErrorHandler.maxRetries h)%nat →
    (∀ i, (i < k)%nat →
          ∃ err, ErrorHandler.checked (network url (requests e + i)%nat) = Throw err) →
    ErrorHandler.checked (network url (requests e + k)%nat) = Throw error →
    ErrorHandler.fetchWithRetry network h e url options
    = (Throw error,
       ErrorHandler.delete_attempts (ErrorHandler.retryKey url options) h,
       after_requests (S k)
         (ErrorHandler.backoff h
            <$> seq (ErrorHandler.attempts_of h (ErrorHandler.retryKey url options)) k)
         e).
Proof.
  induction k as [|k IH]; intros h e error Hle Hfail Hlast.
  - rewrite Nat.add_0_r in Hlast. rewrite (fetchWithRetry_give_up _ _ _ _ _ Hlast) by lia.
    f_equal. unfold after_requests, count_request. simpl.
    f_equal; [lia | by rewrite app_nil_r | lia].
  - destruct (Hfail 0%nat ltac:(lia)) as [err Herr]. rewrite Nat.add_0_r in Herr.
    rewrite (fetchWithRetry_retry _ _ _ _ _ Herr) by lia.
    set (key := ErrorHandler.retryKey url options) in *.
    set (a := ErrorHandler.attempts_of h key) in *.
    rewrite (IH _ _ error).
    + rewrite delete_set_attempts, attempts_set_attempts, after_requests_step.
      f_equal. f_equal. simpl. replace (a + 1)%nat with (S a) by lia. done.
    + rewrite attempts_set_attempts. simpl. lia.
    + intros i Hi. simpl. destruct (Hfail (S i) ltac:(lia)) as [err' Herr'].
      exists err'. rewrite <- Herr'. f_equal. f_equal. lia.
    + simpl. rewrite <- Hlast. f_equal. f_equal. lia.
Qed.

End RetrySteps.

Lemma delete_attempts_create key :
  ErrorHandler.delete_attempts key ErrorHandler.create = ErrorHandler.create.
Proof.
  unfold ErrorHandler.delete_attempts, ErrorHandler.create. simpl.
  by rewrite delete_empty.
Qed.

Lemma backoff_create k :
  (k ≤ 3)%nat →
  ErrorHandler.backoff ErrorHandler.create <$> seq 0 k = take k [1000; 2000; 4000].
Proof. intros Hk. destruct k as [|[|[|[|?]]]]; try reflexivity. lia. Qed.

(** X1. from the handler as constructed, [fetchWithRetry] returns the first
    successful response.  If the first [k] requests fail, [k] being at most
    three, and the next one succeeds, that response is returned after [k + 1]
    requests and the first [k] of the waits 1000, 2000 and 4000 milliseconds;
    the handler is as constructed again and localStorage is untouched. *)
Theorem fetch_returns_first_success
    (network : Network) (e : Env) (url options : string)
    (k : nat) (response : Response) :
  (k ≤ 3)%nat →
  (∀ i, (i < k)%nat →
        ∃ err, ErrorHandler.checked (network url (requests e + i)%nat) = Throw err) →
  ErrorHandler.checked (network url (requests e + k)%nat) = Normal response →
  ErrorHandler.fetchWithRetry network ErrorHandler.create e url options
  = (Normal response, ErrorHandler.create,
     after_requests (S k) (take k [1000; 2000; 4000]) e).
Proof.
  intros Hk Hfail Hok.
  rewrite (fetchWithRetry_until_success network url options k ErrorHandler.create e response Hk Hfail Hok).
  rewrite delete_attempts_create.
  change (ErrorHandler.attempts_of ErrorHandler.create _) with 0%nat.
  by rewrite backoff_create.
Qed.

Lemma fetch_returns_first_success_witness :
  ErrorHandler.fetchWithRetry (flaky_network 2) ErrorHandler.create fresh_env
    "/assets/data/projects.json" "{}"
  = (Normal {| ok := true; status := 200; statusText := "OK"; body := "payload" |},
     ErrorHandler.create,
     {| localStorage := ∅; storage_reads := []; requests := 3;
        slept := [1000; 2000]; clock := 3000 |}).
Proof.
  apply (fetch_returns_first_success (flaky_network 2) fresh_env
           "/assets/data/projects.json" "{}" 2).
  - lia.
  - intros i Hi. destruct i as [|[|i]]; [eexists; reflexivity | eexists; reflexivity | lia].
  - reflexivity.
Defined.

(** X2. when all four requests fail, the error raised is the one of the
    fourth request, after the waits 1000, 2000 and 4000 milliseconds, and the
    handler is as constructed again. *)
Theorem fetch_raises_last_error
    (network : Network) (e : Env) (url options : string) (error : string) :
  (∀ i, (i < 3)%nat →
        ∃ err, ErrorHandler.checked (network url (requests e + i)%nat) = Throw err) →
  ErrorHandler.checked (network url (requests e + 3)%nat) = Throw error →
  ErrorHandler.fetchWithRetry network ErrorHandler.create e url options
  = (Throw error, ErrorHandler.create,
     after_requests 4 [1000; 2000; 4000] e).
Proof.
  intros Hfail Hlast.
  rewrite (fetchWithRetry_exhausted network url options 3 ErrorHandler.create e error eq_refl Hfail Hlast).
  by rewrite delete_attempts_create.
Qed.


(** ** Loading and the stored preference *)

Section LoadFacts.
Context {RT : JsRuntime}.
Variable network : Network.

(** Loading a language changes the dictionary of that language only, and
    never writes to localStorage. *)
Lemma load_language_frame st h e lang :
  I18n.currentLang (I18n.load_language network (st, h, e) lang).1.1 = I18n.currentLang st
  ∧ I18n.fallbackLang (I18n.load_language network (st, h, e) lang).1.1 = I18n.fallbackLang st
  ∧ I18n.storageKey (I18n.load_language network (st, h, e) lang).1.1 = I18n.storageKey st
  ∧ localStorage (I18n.load_language network (st, h, e) lang).2 = localStorage e
  ∧ ∀ other, other ≠ lang →
      I18n.translations (I18n.load_language network (st, h, e) lang).1.1 !! other
      = I18n.translations st !! other.
Proof.
  unfold I18n.load_language, ErrorHandler.fetch.
  destruct (fetchWithRetry_run network h e ("assets/i18n/" +:+ lang +:+ ".json") "{}")
    as (_ & _ & _ & _ & _ & _ & _ & Hls & _ & _).
  destruct (ErrorHandler.fetchWithRetry network h e _ "{}") as [[res h1] e1].
  cbn [fst snd] in *.
  destruct (I18n.parsed_dictionary lang res) as [dict|err].
  - cbn [fst snd I18n.set_translation I18n.currentLang I18n.fallbackLang
         I18n.storageKey I18n.translations].
    repeat split; try done. intros other Hne. by rewrite lookup_insert_ne.
  - unfold I18n.loadFromCache, getItem.
    destruct (try_catch _ _) as [cached|]; [destruct (truthy cached)|];
      cbn [fst snd I18n.set_translation I18n.currentLang I18n.fallbackLang
           I18n.storageKey I18n.translations localStorage];
      repeat split; try done; intros other Hne; by rewrite ?lookup_insert_ne.
Qed.

Lemma loadTranslations_frame st h e :
  I18n.currentLang (I18n.loadTranslations network (st, h, e)).1.1 = I18n.currentLang st
  ∧ I18n.fallbackLang (I18n.loadTranslations network (st, h, e)).1.1 = I18n.fallbackLang st
  ∧ I18n.storageKey (I18n.loadTranslations network (st, h, e)).1.1 = I18n.storageKey st
  ∧ localStorage (I18n.loadTranslations network (st, h, e)).2 = localStorage e.
Proof.
  unfold I18n.loadTranslations. cbn [fold_left].
  destruct (load_language_frame st h e "en") as (H1 & H2 & H3 & H4 & _).
  destruct (I18n.load_language network (st, h, e) "en") as [[st1 h1] e1].
  cbn [fst snd] in *.
  destruct (load_language_frame st1 h1 e1 "lo") as (H5 & H6 & H7 & H8 & _).
  repeat split; congruence.
Qed.

(** The switcher does not touch the attributes of the root. *)
Lemma initLanguageSwitcher_root st d :
  attrs (root (I18n.initLanguageSwitcher st d)) = attrs (root d).
Proof.
  unfold I18n.initLanguageSwitcher.
  destruct (I18n.language_switcher (root d)); [|done].
  by destruct (existsb I18n.lang_option (descendants d)).
Qed.

(** What [init] computes: the language is the stored preference or the
    default, the dictionaries are loaded, and the binder runs; when it
    completes the root gets the language, and when it raises the language is
    set to English and the page stays as the binder left it. *)
Lemma init_run p defaultLang :
  let lang := preferred (localStorage (I18n.env p) !! I18n.storageKey (I18n.i18n p))
                        defaultLang in
  let loaded := I18n.loadTranslations network
                  (I18n.with_lang lang (I18n.i18n p), I18n.handler p,
                   (getItem (I18n.storageKey (I18n.i18n p)) (I18n.env p)).2) in
  I18n.handler (I18n.init network p defaultLang) = loaded.1.2
  ∧ I18n.env (I18n.init network p defaultLang) = loaded.2
  ∧ if forallb valid_target (elements (I18n.document p))
    then I18n.i18n (I18n.init network p defaultLang) = loaded.1.1
         ∧ attrs (root (I18n.document (I18n.init network p defaultLang))) !! "lang"
           = Some (I18n.currentLang loaded.1.1)
    else I18n.i18n (I18n.init network p defaultLang) = I18n.with_lang "en" loaded.1.1
         ∧ elements (I18n.document (I18n.init network p defaultLang))
           = rebind_until loaded.1.1 (elements (I18n.document p)).
Proof.
  intros lang loaded. subst loaded lang. unfold I18n.init, preferred, getItem.
  cbn [fst snd].
  assert (Hlang : ∀ s : string,
             (if truthy (JStr s) then s else defaultLang)
             = (if String.eqb s EmptyString then defaultLang else s)).
  { intros s. simpl. by destruct (String.eqb s EmptyString). }
  destruct (localStorage (I18n.env p) !! I18n.storageKey (I18n.i18n p)) as [s|];
    rewrite ?Hlang;
    destruct (I18n.loadTranslations _ _) as [[st h] e2];
    destruct (applyTranslations_run st (I18n.document p)) as [Hbound Hdone];
    destruct (I18n.applyTranslations st (I18n.document p)) as [d bound];
    cbn [fst snd] in *; subst bound;
    (destruct (forallb valid_target (elements (I18n.document p)));
     cbn [fst snd I18n.i18n I18n.handler I18n.env I18n.document];
     [|done]);
    (split; [done|]; split; [done|]; split; [done|]);
    rewrite initLanguageSwitcher_root;
    cbn [I18n.updateHtmlLang root setAttribute attrs];
    rewrite lowercase_lang; apply lookup_insert_eq.
Qed.

End LoadFacts.


(** A visitor who prefers Lao opens a page whose second link has a list of
    two names as its attribute target: [init] ends in English, the root
    stays English, the first link is in Lao and the third keeps its served
    text. *)
Example one_bad_target_stops_init :
  let started :=
    I18n.init (RT := site_runtime) site_network
      (reloaded {[ "preferred-language" := "lo" ]} mistargeted_document) "en" in
  I18n.currentLang (I18n.i18n started) = "en"
  ∧ attrs (root (I18n.document started)) !! "lang" = Some "en"
  ∧ text <$> descendants (I18n.document started) = ["ໜ້າຫຼັກ"; EmptyString; "Start"].
Proof. vm_compute. repeat split. Qed.



(** ** Offline *)

Lemma getFallbackTranslations_builtin `{RT : JsRuntime} lang dict :
  I18n.fallbacks !! lang = Some (JObj dict) →
  I18n.getFallbackTranslations lang = JObj dict.
Proof.
  intros H. unfold I18n.getFallbackTranslations, object_get. by rewrite H.
Qed.

(** Loading one language while every request fails and nothing is cached. *)
Lemma load_language_offline `{RT : JsRuntime} (network : Network) st e lang :
  (∀ url n, ∃ err, ErrorHandler.checked (network url n) = Throw err) →
  localStorage e !! ("i18n-cache-" +:+ lang) = None →
  I18n.load_language network (st, ErrorHandler.create, e) lang
  = (I18n.set_translation lang (I18n.getFallbackTranslations lang) st,
     ErrorHandler.create,
     (getItem ("i18n-cache-" +:+ lang) (after_requests 4 [1000; 2000; 4000] e)).2).
Proof.
  intros Hdown Hcache. unfold I18n.load_language, ErrorHandler.fetch.
  destruct (Hdown ("assets/i18n/" +:+ lang +:+ ".json") (requests e + 3)%nat)
    as [error Herror].
  rewrite (fetchWithRetry_exhausted network ("assets/i18n/" +:+ lang +:+ ".json") "{}" 3
             ErrorHandler.create e error eq_refl (λ i _, Hdown _ _) Herror).
  rewrite delete_attempts_create.
  cbn [I18n.parsed_dictionary mbind completion_bind cbind].
  unfold I18n.loadFromCache, getItem.
  cbn [after_requests localStorage]. rewrite Hcache.
  cbn [I18n.read_cache_entry try_catch truthy]. done.
Qed.

(** X5. with the network down and no cached dictionaries, loading installs
    the built-in dictionaries of both languages after eight requests and
    fourteen seconds of waiting. *)
Theorem offline_load_installs_builtin `{RT : JsRuntime}
    (network : Network) (st : I18n.State) (e : Env) :
  (∀ url n, ∃ err, ErrorHandler.checked (network url n) = Throw err) →
  localStorage e !! "i18n-cache-en" = None →
  localStorage e !! "i18n-cache-lo" = None →
  let loaded := I18n.loadTranslations network (st, ErrorHandler.create, e) in
  I18n.translations loaded.1.1 !! "en" = Some (I18n.getFallbackTranslations "en")
  ∧ I18n.translations loaded.1.1 !! "lo" = Some (I18n.getFallbackTranslations "lo")
  ∧ loaded.1.2 = ErrorHandler.create
  ∧ requests loaded.2 = (requests e + 8)%nat
  ∧ slept loaded.2 = (slept e ++ [1000; 2000; 4000; 1000; 2000; 4000])%list
  ∧ clock loaded.2 = clock e + 14000
  ∧ storage_reads loaded.2 = (storage_reads e ++ ["i18n-cache-en"; "i18n-cache-lo"])%list
  ∧ localStorage loaded.2 = localStorage e.
Proof.
  intros Hdown Hen Hlo loaded. subst loaded.
  unfold I18n.loadTranslations. cbn [fold_left].
  rewrite (load_language_offline network st e "en" Hdown Hen).
  rewrite (load_language_offline network _ _ "lo" Hdown) by exact Hlo.
  cbn [fst snd getItem after_requests I18n.set_translation I18n.translations
       localStorage storage_reads requests slept clock foldr].
  repeat split.
  - rewrite lookup_insert_ne by done. apply lookup_insert_eq.
  - apply lookup_insert_eq.
  - lia.
  - by rewrite <- !app_assoc.
  - lia.
  - by rewrite <- !app_assoc.
Qed.

Lemma offline_load_installs_builtin_witness :
  let loaded := I18n.loadTranslations (RT := bare_runtime) offline_network
                  (I18n.initial, ErrorHandler.create, fresh_env) in
  I18n.translations loaded.1.1 !! "en"
  = Some (I18n.getFallbackTranslations (RT := bare_runtime) "en")
  ∧ I18n.translations loaded.1.1 !! "lo"
    = Some (I18n.getFallbackTranslations (RT := bare_runtime) "lo")
  ∧ loaded.1.2 = ErrorHandler.create
  ∧ requests loaded.2 = 8%nat
  ∧ slept loaded.2 = [1000; 2000; 4000; 1000; 2000; 4000]
  ∧ clock loaded.2 = 14000
  ∧ storage_reads loaded.2 = ["i18n-cache-en"; "i18n-cache-lo"]
  ∧ localStorage loaded.2 = ∅.
Proof.
  apply (offline_load_installs_builtin (RT := bare_runtime) offline_network
           I18n.initial fresh_env).
  - intros url n. eexists. reflexivity.
  - reflexivity.
  - reflexivity.
Defined.

Lemma fetch_raises_last_error_witness :
  ErrorHandler.fetchWithRetry offline_network ErrorHandler.create fresh_env
    "assets/i18n/lo.json" "{}"
  = (Throw "Failed to fetch", ErrorHandler.create,
     {| localStorage := ∅; storage_reads := []; requests := 4;
        slept := [1000; 2000; 4000]; clock := 7000 |}).
Proof.
  apply (fetch_raises_last_error offline_network fresh_env "assets/i18n/lo.json" "{}").
  - intros i _. eexists. reflexivity.
  - reflexivity.
Defined.

(** ** Stored values *)

Section StoredFacts.
Context {RT : JsRuntime}.

Lemma nested_step_own props segment child :
  props !! segment = Some child →
  I18n.nested_step (JObj props) segment = Normal child.
Proof.
  intros H. unfold I18n.nested_step. simpl. rewrite H. simpl.
  by destruct child.
Qed.

Lemma reduceM_stored segments :
  ∀ obj v, stored_at obj segments = Some v →
           reduceM I18n.nested_step segments obj = Normal v.
Proof.
  induction segments as [|segment rest IH]; intros obj v; simpl.
  - by intros [= ->].
  - destruct obj as [| | | | | |props|]; try discriminate.
    destruct (props !! segment) as [child|] eqn:Hchild; [|discriminate].
    intros Hrest. rewrite (nested_step_own props segment child Hchild). simpl.
    by apply IH.
Qed.

Lemma getNestedValue_stored obj path v :
  path ≠ EmptyString →
  stored_at obj (split "." path) = Some v →
  I18n.getNestedValue obj path = Normal v.
Proof.
  intros Hpath Hstored. unfold I18n.getNestedValue.
  assert (Hobj : truthy obj = true).
  { destruct (split "." path) as [|segment rest] eqn:Hsplit;
      [by destruct (split_not_nil "." path)|].
    simpl in Hstored. by destruct obj. }
  assert (Hp : truthy (JStr path) = true).
  { simpl. by destruct (String.eqb_spec path EmptyString). }
  rewrite Hobj, Hp. simpl. by rewrite (reduceM_stored _ _ _ Hstored).
Qed.

End StoredFacts.

(** C5.  A key whose value in the dictionary of the active language is the
    empty string resolves to the value the dictionary of the default
    language holds for it, when that value is neither [undefined], [null]
    nor empty: whatever the fallback argument and whatever the engine has on
    its prototypes.  The result is not the empty string. *)
Theorem empty_value_falls_back `{RT : JsRuntime}
    (st : I18n.State) (active defaults : JsValue) (key : string)
    (v fallback : JsValue) :
  I18n.translations st !! I18n.currentLang st = Some active →
  I18n.translations st !! I18n.fallbackLang st = Some defaults →
  key ≠ EmptyString →
  stored_at active (split "." key) = Some (JStr EmptyString) →
  stored_at defaults (split "." key) = Some v →
  usable v = true →
  I18n.t st key fallback = Normal v ∧ v ≠ JStr EmptyString.
Proof.
  intros Hactive Hdefaults Hkey Hempty Hstored Huse.
  assert (Hv : v ≠ JStr EmptyString) by (intros ->; discriminate Huse).
  split; [|done].
  assert (Hother : String.eqb (I18n.currentLang st) (I18n.fallbackLang st) = false).
  { apply String.eqb_neq. intros Heq. rewrite Heq in Hactive. congruence. }
  pose proof (getNestedValue_stored active key _ Hkey Hempty) as Hfirst.
  pose proof (getNestedValue_stored defaults key v Hkey Hstored) as Hsecond.
  unfold I18n.t, I18n.lookup_in, object_get.
  rewrite Hactive, Hfirst. simpl. rewrite Hother. simpl.
  rewrite Hdefaults, Hsecond. simpl. by rewrite Huse.
Qed.

(** The scenario of the specification: with [{"nav":{"home":"Home"}}] for
    [en] and [{"nav":{"home":""}}] for [lo], resolving [nav.home] while the
    active language is [lo] returns ["Home"]. *)
Lemma empty_value_falls_back_witness :
  I18n.t (RT := bare_runtime) (scenario_store "lo") "nav.home" JUndefined
  = Normal (JStr "Home")
  ∧ JStr "Home" ≠ JStr EmptyString.
Proof.
  apply (empty_value_falls_back (RT := bare_runtime) (scenario_store "lo")
           scenario_lo scenario_en "nav.home" (JStr "Home") JUndefined).
  - reflexivity.
  - reflexivity.
  - discriminate.
  - reflexivity.
  - reflexivity.
  - reflexivity.
Defined.

(** The same on every engine. *)
Example scenario_falls_back `{RT : JsRuntime} :
  I18n.t (scenario_store "lo") "nav.home" JUndefined = Normal (JStr "Home").
Proof. vm_compute. reflexivity. Qed.

(** X6. a key whose dotted segments are own properties along the path of the
    active dictionary resolves to the value stored there, when that value is
    neither [undefined], [null] nor empty: whatever the other dictionaries
    hold, whatever the fallback argument, and whatever the engine has on its
    prototypes. *)
Theorem stored_translation_is_returned `{RT : JsRuntime}
    (st : I18n.State) (dict : JsValue) (key : string) (v fallback : JsValue) :
  I18n.translations st !! I18n.currentLang st = Some dict →
  key ≠ EmptyString →
  stored_at dict (split "." key) = Some v →
  usable v = true →
  I18n.getNestedValue dict key = Normal v
  ∧ I18n.t st key fallback = Normal v.
Proof.
  intros Hdict Hkey Hstored Huse.
  pose proof (getNestedValue_stored dict key v Hkey Hstored) as Hget.
  split; [done|].
  unfold I18n.t, I18n.lookup_in, object_get. rewrite Hdict, Hget. simpl.
  by rewrite Huse.
Qed.

Lemma stored_translation_is_returned_witness :
  I18n.getNestedValue (RT := bare_runtime) scenario_en "nav.home" = Normal (JStr "Home")
  ∧ I18n.t (RT := bare_runtime) (scenario_store "en") "nav.home" JUndefined
    = Normal (JStr "Home").
Proof.
  apply (stored_translation_is_returned (RT := bare_runtime) (scenario_store "en")
           scenario_en "nav.home" (JStr "Home") JUndefined).
  - reflexivity.
  - discriminate.
  - reflexivity.
  - reflexivity.
Defined.

(** ** The binder, run again *)

Section BinderAgain.
Context {RT : JsRuntime}.

Lemma rebind_idempotent st e :
  targets_binder e = false → rebind st (rebind st e) = rebind st e.
Proof.
  unfold targets_binder, rebind.
  destruct (attrs e !! "data-i18n") as [key|] eqn:Hkey; [|by rewrite Hkey].
  destruct (attrs e !! "data-i18n-attr") as [attr|] eqn:Hattr.
  - intros [Hk Ha]%orb_false_elim.
    apply String.eqb_neq in Hk. apply String.eqb_neq in Ha.
    unfold setAttribute. cbn [attrs tag text].
    rewrite !lookup_insert_ne by done. rewrite Hkey, Hattr.
    by rewrite insert_insert_eq.
  - intros _. cbn [set_textContent attrs tag text]. by rewrite Hkey, Hattr.
Qed.

Lemma rebind_unbound st e :
  has_attr "data-i18n" e = false → rebind st e = e.
Proof.
  unfold has_attr, rebind. intros H%bool_decide_eq_false_1.
  destruct (attrs e !! "data-i18n"); [|done]. exfalso. apply H. eauto.
Qed.

Lemma document_of_elements (d d' : Document) :
  elements d = elements d' → d = d'.
Proof. destruct d, d'. unfold elements. simpl. by intros [= -> ->]. Qed.

End BinderAgain.

Section BinderTwice.
Context {RT : JsRuntime}.

Lemma valid_target_rebind st e :
  targets_binder e = false → valid_target (rebind st e) = valid_target e.
Proof.
  unfold targets_binder, valid_target, rebind.
  destruct (attrs e !! "data-i18n") as [key|] eqn:Hkey; [|by rewrite Hkey].
  destruct (attrs e !! "data-i18n-attr") as [attr|] eqn:Hattr.
  - intros [Hk Ha]%orb_false_elim.
    apply String.eqb_neq in Hk. apply String.eqb_neq in Ha.
    unfold setAttribute. cbn [attrs].
    rewrite !lookup_insert_ne by done. by rewrite Hkey, Hattr.
  - intros _. cbn [set_textContent attrs]. by rewrite Hkey, Hattr.
Qed.

Lemma rebind_until_again st l :
  forallb (λ e, negb (targets_binder e)) l = true →
  rebind_until st (rebind_until st l) = rebind_until st l
  ∧ forallb valid_target (rebind_until st l) = forallb valid_target l.
Proof.
  induction l as [|e rest IH]; [done|].
  cbn [forallb]. intros [He Hrest]%andb_prop. apply negb_true_iff in He.
  cbn [rebind_until]. destruct (valid_target e) eqn:Hvalid.
  - cbn [rebind_until forallb].
    rewrite (valid_target_rebind st e He), Hvalid.
    rewrite (rebind_idempotent st e He).
    destruct (IH Hrest) as [-> ->]. done.
  - cbn [rebind_until forallb]. by rewrite Hvalid.
Qed.

End BinderTwice.

(** X7. running the binder a second time changes nothing and ends as the
    first run ended, provided no element directs its translation into one
    of the two attributes the binder reads: when the first run completes, so
    does the second; when the first run raises at an element, the second
    raises at the same element and leaves the page as the first left it. *)
Theorem applyTranslations_idempotent `{RT : JsRuntime}
    (st : I18n.State) (d : Document) :
  forallb (λ e, negb (targets_binder e)) (elements d) = true →
  I18n.applyTranslations st (I18n.applyTranslations st d).1
  = I18n.applyTranslations st d.
Proof.
  intros Hsafe.
  destruct (applyTranslations_run st d) as [He1 Hc1].
  destruct (applyTranslations_run st (I18n.applyTranslations st d).1) as [He2 Hc2].
  destruct (rebind_until_again st (elements d) Hsafe) as [Hagain Hvalid].
  rewrite He1, Hagain, <- He1 in He2. rewrite He1, Hvalid, <- Hc1 in Hc2.
  destruct (I18n.applyTranslations st (I18n.applyTranslations st d).1) as [d2 c2].
  destruct (I18n.applyTranslations st d) as [d1 c1].
  cbn [fst snd] in *. subst c2. f_equal. by apply document_of_elements.
Qed.

Lemma applyTranslations_idempotent_witness :
  I18n.applyTranslations (RT := bare_runtime) (scenario_store "lo")
    (I18n.applyTranslations (RT := bare_runtime) (scenario_store "lo")
       mistargeted_document).1
  = I18n.applyTranslations (RT := bare_runtime) (scenario_store "lo") mistargeted_document.
Proof.
  apply (applyTranslations_idempotent (RT := bare_runtime) (scenario_store "lo")
           mistargeted_document).
  vm_compute. reflexivity.
Defined.

(** On that page the binder raises at the second link, with the first link
    translated and the third as it was served. *)
Example binder_stops_at_bad_target :
  (I18n.applyTranslations (RT := bare_runtime) (scenario_store "lo")
     mistargeted_document).2
  = Throw "InvalidCharacterError"
  ∧ text <$> descendants
               (I18n.applyTranslations (RT := bare_runtime) (scenario_store "lo")
                  mistargeted_document).1
    = ["Home"; EmptyString; "Start"].
Proof. vm_compute. done. Qed.


(** ** The locale of the page *)

Lemma find_update_first sel f l :
  (∀ x, sel x = true → sel (f x) = true) →
  List.find sel (update_first sel f l) = f <$> List.find sel l.
Proof.
  intros Hf. induction l as [|x l IH]; simpl; [done|].
  destruct (sel x) eqn:Hx; simpl.
  - by rewrite (Hf x Hx).
  - by rewrite Hx.
Qed.

Lemma find_Forall2 {A} (R : A → A → Prop) (sel : A → bool) l l' :
  Forall2 R l l' →
  (∀ e e', R e e' → sel e' = sel e) →
  match List.find sel l, List.find sel l' with
  | Some e, Some e' => R e e'
  | None, None => True
  | _, _ => False
  end.
Proof.
  intros HR Hsel. induction HR as [|x y l l' Hxy _ IH]; simpl; [done|].
  rewrite (Hsel x y Hxy). by destruct (sel x).
Qed.

Lemma og_locale_meta_step `{RT : JsRuntime} st e e' :
  meta_step st e e' → og_locale_meta e' = og_locale_meta e.
Proof.
  intros (Htag & Hattrs & _). unfold og_locale_meta, is_tag, attr_is.
  rewrite Htag, Hattrs; done.
Qed.

Lemma updateMetaTags_stages `{RT : JsRuntime} st d :
  ∃ d4, I18n.updateMetaTags st d
        = Normal (I18n.set_content_of og_locale_meta
                    (locale_of (I18n.currentLang st)) d4)
        ∧ Forall2 (meta_step st) (elements d) (elements d4).
Proof.
  unfold I18n.updateMetaTags.
  destruct (translate_into_title st d) as (d1 & -> & H1). simpl.
  destruct (translate_into_content st "name" "description" d1) as (d2 & -> & H2). simpl.
  destruct (translate_into_content st "property" "og:title" d2) as (d3 & -> & H3). simpl.
  destruct (translate_into_content st "property" "og:description" d3) as (d4 & -> & H4).
  simpl. exists d4. split; [done|].
  eapply Forall2_compose; [apply meta_step_trans | | exact H4].
  eapply Forall2_compose; [apply meta_step_trans | | exact H3].
  eapply Forall2_compose; [apply meta_step_trans | exact H1 | exact H2].
Qed.


(** ** The projects page beyond the claims *)

Section ProjectFacts.
Context {RT : JsRuntime}.
Variable translator : I18n.State.

Lemma status_is_reads status p :
  object_or_hole p = true →
  App.status_is status p = Normal (status_reads status p).
Proof.
  unfold object_or_hole, App.status_is, status_reads, object_get.
  destruct p as [| | | | | |props|]; simpl; try done;
    try (by intros ->%negb_true_iff).
  intros _. by destruct (props !! "status").
Qed.

Lemma filterM_reads status items :
  forallb object_or_hole items = true →
  filterM (App.status_is status) items
  = Normal (List.filter (status_reads status) items).
Proof.
  induction items as [|p items IH]; simpl; [done|].
  intros [Hp Hrest]%andb_prop.
  rewrite (status_is_reads status p Hp). simpl.
  rewrite (IH Hrest). simpl. by destruct (status_reads status p).
Qed.

Lemma createProjectCard_object props index :
  ∃ card, App.createProjectCard translator (JObj props) index = Normal card
          ∧ App.card_project card = JObj props ∧ App.card_index card = index.
Proof.
  unfold App.createProjectCard.
  destruct (field_text_object props "slug") as [? ->].
  destruct (summary_of_object translator props) as [? ->].
  destruct (field_text_object props "cover") as [? ->].
  destruct (field_text_object props "title") as [? ->].
  destruct (field_text_object props "location") as [? ->].
  destruct (field_text_object props "year") as [? ->].
  destruct (field_text_object props "scope") as [? ->].
  simpl. eauto.
Qed.

Lemma append_cards_objects ps index placed :
  forallb is_object ps = true →
  ∃ cards,
    App.append_cards translator ps index placed = ((placed ++ cards)%list, Normal ())
    ∧ App.card_project <$> cards = ps.
Proof.
  revert index placed.
  induction ps as [|p ps IH]; intros index placed; simpl.
  - intros _. exists []. by rewrite app_nil_r.
  - intros [Hp Hrest]%andb_prop. destruct p as [| | | | | |props|]; try discriminate.
    destruct (createProjectCard_object props index) as (card & -> & Hproj & _).
    destruct (IH (S index) (placed ++ [card])%list Hrest) as (cards & -> & Hps).
    exists (card :: cards). rewrite <- app_assoc. simpl.
    split; [done|]. by f_equal.
Qed.

Lemma renderProjectGrid_objects ps :
  forallb is_object ps = true →
  ∃ g, App.renderProjectGrid translator ps = (g, Normal ())
       ∧ App.grid_records g = ps.
Proof.
  intros Hps. unfold App.renderProjectGrid.
  destruct ps as [|p ps].
  - destruct (t_normal translator "projects.empty"
                (JStr "No projects found in this category.")) as [r ->].
    eauto.
  - destruct (append_cards_objects (p :: ps) 0 [] Hps) as (cards & -> & Hproj).
    simpl. eauto.
Qed.

Lemma filter_reads_objects status items :
  forallb is_object (List.filter (status_reads status) items) = true.
Proof.
  apply forallb_forall. intros p [_ Hp]%filter_In. by destruct p.
Qed.

End ProjectFacts.


(** X11. rendering the tabs again gives the same page. *)
Theorem renderProjectTabs_idempotent `{RT : JsRuntime}
    (translator : I18n.State) (a : App.State) :
  App.renderProjectTabs translator (App.renderProjectTabs translator a)
  = App.renderProjectTabs translator a.
Proof.
  unfold App.renderProjectTabs.
  destruct (App.ongoingGrid a) as [o|] eqn:Ho; [|by rewrite Ho].
  destruct (App.completedGrid a) as [c|] eqn:Hc; [|by rewrite Ho, Hc].
  destruct (App.projects a) as [| | | | |items| |] eqn:Hp;
    try (by rewrite Ho, Hc, Hp).
  destruct (filterM (App.status_is "ongoing") items) as [ongoing|] eqn:H1;
    simpl; [|by rewrite Ho, Hc, Hp, H1].
  destruct (filterM (App.status_is "completed") items) as [completed|] eqn:H2;
    simpl; [|by rewrite Ho, Hc, Hp, H1; simpl; rewrite H2].
  destruct (App.renderProjectGrid translator ongoing) as [g1 [|]] eqn:Hg1.
  - destruct (App.renderProjectGrid translator completed) as [g2 r2] eqn:Hg2.
    cbn [App.with_grids App.ongoingGrid App.completedGrid App.projects].
    rewrite Hp, H1. simpl. rewrite H2. simpl. rewrite Hg1, Hg2. done.
  - cbn [App.with_grids App.ongoingGrid App.completedGrid App.projects].
    rewrite Hp, H1. simpl. rewrite H2. simpl. rewrite Hg1. done.
Qed.


(** ** Loading the project list: failures and odd payloads *)

Section LoadEdges.
Context {RT : JsRuntime}.
Variable translator : I18n.State.

Lemma renderProjectGrid_empty :
  App.renderProjectGrid translator []
  = (App.GridEmpty (empty_message translator), Normal ()).
Proof.
  unfold App.renderProjectGrid, empty_message.
  by destruct (t_normal translator "projects.empty"
                 (JStr "No projects found in this category.")) as [r ->].
Qed.

End LoadEdges.

(** X12. when every request for the project list fails, [loadProjects]
    still settles without an error: after four requests and seven seconds of
    waiting the collection is the empty list and each grid that exists shows
    the error message. *)
Theorem failed_load_shows_error `{RT : JsRuntime}
    (translator : I18n.State) (network : Network) (e : Env) (a : App.State) :
  (∀ n, ∃ err,
     ErrorHandler.checked (network "/assets/data/projects.json" n) = Throw err) →
  App.loadProjects_resume translator network ErrorHandler.create e a
  = (App.with_grids ((λ _, App.GridMarkup error_markup) <$> App.ongoingGrid a)
                    ((λ _, App.GridMarkup error_markup) <$> App.completedGrid a)
                    (App.with_projects (JArr []) a),
     Normal (), ErrorHandler.create, after_requests 4 [1000; 2000; 4000] e).
Proof.
  intros Hdown. unfold App.loadProjects_resume, ErrorHandler.fetch.
  destruct (Hdown (requests e + 3)%nat) as [error Herror].
  rewrite (fetchWithRetry_exhausted network "/assets/data/projects.json" "{}" 3
             ErrorHandler.create e error eq_refl (λ i _, Hdown _) Herror).
  rewrite delete_attempts_create. reflexivity.
Qed.

Lemma failed_load_shows_error_witness :
  App.loadProjects_resume (RT := bare_runtime) (scenario_store "en") offline_network
    ErrorHandler.create fresh_env (App.loadProjects_begin (projects_page "#road-b"))
  = (App.with_grids (Some (App.GridMarkup error_markup))
                    (Some (App.GridMarkup error_markup))
                    (App.with_projects (JArr []) (projects_page "#road-b")),
     Normal (), ErrorHandler.create,
     {| localStorage := ∅; storage_reads := []; requests := 4;
        slept := [1000; 2000; 4000]; clock := 7000 |}).
Proof.
  apply (failed_load_shows_error (RT := bare_runtime) (scenario_store "en")
           offline_network fresh_env (App.loadProjects_begin (projects_page "#road-b"))).
  intros n. eexists. reflexivity.
Defined.



Section OddPayload.
Context {RT : JsRuntime}.
Variable translator : I18n.State.

Lemma initProjectsPage_create o c d hash :
  App.initProjectsPage (App.create o c d hash)
  = (App.with_hashchange
       (App.with_initialHash (App.substring_from_1 hash)
          (App.showProjectsLoading (App.create o c d hash))),
     Normal ()).
Proof.
  unfold App.initProjectsPage, App.setupProjectDeepLinking, App.loadProjects_begin.
  cbn [App.showProjectsLoading App.fill_grids App.with_grids App.create
       App.location_hash App.projects App.with_initialHash].
  change (truthy JNull) with false. by rewrite andb_false_r.
Qed.

Lemma after_loading_object a props :
  App.projects a = JObj props →
  App.after_loading translator a
  = (a, match App.initialHash a with
        | Some hash => if truthy (JStr hash) then Throw "TypeError" else Normal ()
        | None => Normal ()
        end).
Proof.
  intros Hp. unfold App.after_loading. rewrite Hp.
  assert (Hlen : ∃ n, js_get (JObj props) "length" = Normal n).
  { simpl. destruct (props !! "length"); eauto. }
  destruct Hlen as [n ->].
  assert (Hsame : App.renderProjectTabs translator a = a).
  { unfold App.renderProjectTabs. rewrite Hp.
    by destruct (App.ongoingGrid a), (App.completedGrid a). }
  rewrite Hsame, Hp.
  destruct (App.initialHash a) as [hash|]; [|done].
  by destruct (truthy (JStr hash)).
Qed.

End OddPayload.



(** ** Following the hash *)


(** ** Contact links *)

Lemma keep_phone_characters_class s :
  all_chars (λ c, is_digit c || Ascii.eqb c "+") (keep_phone_characters s) = true.
Proof.
  induction s as [|c rest IH]; simpl; [done|].
  destruct (is_digit c || Ascii.eqb c "+") eqn:Hc; [|done].
  simpl. by rewrite Hc.
Qed.

Lemma keep_phone_characters_clean s :
  all_chars (λ c, is_digit c || Ascii.eqb c "+") s = true →
  keep_phone_characters s = s.
Proof.
  induction s as [|c rest IH]; simpl; [done|].
  intros [Hc Hrest]%andb_prop. rewrite Hc. f_equal. by apply IH.
Qed.

Lemma hex_digit_unreserved n : (n < 16)%nat → uri_unreserved (hex_digit n) = true.
Proof.
  intros Hn.
  do 16 (destruct n as [|n]; [reflexivity|]). lia.
Qed.

Lemma encodeURIComponent_class s :
  all_chars (λ c, uri_unreserved c || Ascii.eqb c "%") (encodeURIComponent s) = true.
Proof.
  induction s as [|c rest IH]; [done|]. cbn [encodeURIComponent].
  destruct (uri_unreserved c) eqn:Hc; cbn [all_chars].
  - by rewrite Hc.
  - rewrite !hex_digit_unreserved; [by rewrite IH| |].
    + apply Nat.mod_upper_bound. lia.
    + apply Nat.Div0.div_lt_upper_bound.
      pose proof (nat_ascii_bounded c). lia.
Qed.

Lemma prefix_app n s : String.prefix n (n +:+ s) = true.
Proof.
  induction n as [|c n IH]; simpl; [by destruct s|].
  destruct (ascii_dec c c); [done|congruence].
Qed.

Lemma includes_app_r s n t : includes t n = true → includes (s +:+ t) n = true.
Proof.
  intros H. induction s as [|c s IH]; simpl; [done|].
  rewrite IH. apply orb_true_r.
Qed.

Lemma includes_of_prefix s n : String.prefix n s = true → includes s n = true.
Proof. intros H. destruct s; cbn [includes]; by rewrite H. Qed.

Lemma includes_prefix n s : includes (n +:+ s) n = true.
Proof. apply includes_of_prefix, prefix_app. Qed.

Section ContactFacts.
Context {RT : JsRuntime}.
Variable translator : I18n.State.

Lemma encoded_translation_normal key fallback :
  ∃ text, App.encoded_translation translator key fallback = Normal text
          ∧ all_chars (λ c, uri_unreserved c || Ascii.eqb c "%") text = true.
Proof.
  unfold App.encoded_translation.
  destruct (t_normal translator key (JStr fallback)) as [v ->]. simpl.
  eexists. split; [done|]. apply encodeURIComponent_class.
Qed.

End ContactFacts.





(** ** The dictionary cache, written and read back *)



(** ** Readable text from a key *)

Lemma upcase_facts c :
  is_lower (upcase c) = false
  ∧ is_word (upcase c) = is_word c
  ∧ upcase (upcase c) = upcase c
  ∧ key_punctuation (upcase c) = key_punctuation c
  ∧ (is_lower c = false → upcase c = c).
Proof.
  destruct c as [[] [] [] [] [] [] [] []]; vm_compute; repeat split; done.
Qed.

Lemma word_punctuation c :
  is_lower c = true ∨ is_upper c = true → key_punctuation c = false.
Proof.
  destruct c as [[] [] [] [] [] [] [] []]; vm_compute; intros [?|?]; done.
Qed.

Lemma split_segments_clean sep s :
  Forall (λ segment, all_chars (λ c, negb (Ascii.eqb c sep)) segment = true) (split sep s).
Proof.
  induction s as [|c rest IH]; simpl; [by repeat constructor|].
  destruct (Ascii.eqb c sep) eqn:Hc; [by constructor|].
  destruct (split sep rest) as [|segment segments]; [by repeat constructor; simpl; rewrite Hc|].
  inversion IH; subst. constructor; [|done]. simpl. by rewrite Hc.
Qed.

Lemma split_clean sep s :
  all_chars (λ c, negb (Ascii.eqb c sep)) s = true → split sep s = [s].
Proof.
  induction s as [|c rest IH]; simpl; [done|].
  intros [Hc Hrest]%andb_prop. apply negb_true_iff in Hc. rewrite Hc.
  by rewrite (IH Hrest).
Qed.

Lemma last_part_clean segment key :
  last_part (split "." key) = Some segment →
  all_chars (λ c, negb (Ascii.eqb c ".")) segment = true.
Proof.
  unfold last_part. intros H.
  pose proof (split_segments_clean "." key) as Hall.
  rewrite Forall_lookup in Hall. by apply (Hall _ _ H).
Qed.

Lemma replace_separators_clean s :
  all_chars (λ c, negb (Ascii.eqb c ".")) s = true →
  all_chars (λ c, negb (key_punctuation c)) (replace_separators s) = true.
Proof.
  induction s as [|c rest IH]; simpl; [done|].
  intros [Hc Hrest]%andb_prop. rewrite (IH Hrest), andb_true_r.
  apply negb_true_iff in Hc. unfold key_punctuation.
  destruct (Ascii.eqb c "_") eqn:H1; [reflexivity|].
  destruct (Ascii.eqb c "-") eqn:H2; [reflexivity|].
  simpl. by rewrite Hc, H1, H2.
Qed.

Lemma replace_separators_fixed s :
  all_chars (λ c, negb (key_punctuation c)) s = true → replace_separators s = s.
Proof.
  induction s as [|c rest IH]; simpl; [done|].
  intros [Hc Hrest]%andb_prop. rewrite (IH Hrest).
  unfold key_punctuation in Hc. apply negb_true_iff in Hc.
  apply orb_false_elim in Hc as [Hc1 Hc3]. apply orb_false_elim in Hc1 as [_ Hc2].
  by rewrite Hc2, Hc3.
Qed.

Lemma split_camel_cons c rest :
  split_camel (String c rest)
  = match rest with
    | String d _ =>
        if is_lower c && is_upper d
        then String c (String " " (split_camel rest))
        else String c (split_camel rest)
    | EmptyString => String c EmptyString
    end.
Proof. reflexivity. Qed.

Lemma has_hump_cons c rest :
  has_hump (String c rest)
  = match rest with
    | String d _ => (is_lower c && is_upper d) || has_hump rest
    | EmptyString => false
    end.
Proof. reflexivity. Qed.

Lemma split_camel_head c rest :
  ∃ tail, split_camel (String c rest) = String c tail.
Proof.
  rewrite split_camel_cons. destruct rest as [|d rest']; [eauto|].
  destruct (is_lower c && is_upper d); eauto.
Qed.

Lemma split_camel_clean s :
  all_chars (λ c, negb (key_punctuation c)) s = true →
  all_chars (λ c, negb (key_punctuation c)) (split_camel s) = true.
Proof.
  induction s as [|c rest IH]; [done|]. rewrite split_camel_cons.
  cbn [all_chars]. intros [Hc Hrest]%andb_prop.
  destruct rest as [|d rest']; [simpl; by rewrite Hc|].
  destruct (is_lower c && is_upper d); cbn [all_chars]; rewrite Hc, (IH Hrest); reflexivity.
Qed.

Lemma split_camel_no_hump s : has_hump (split_camel s) = false.
Proof.
  induction s as [|c rest IH]; [done|]. rewrite split_camel_cons.
  destruct rest as [|d rest']; [done|].
  destruct (split_camel_head d rest') as [tail Htail]. rewrite Htail in *.
  destruct (is_lower c && is_upper d) eqn:Hcd.
  - rewrite has_hump_cons. rewrite has_hump_cons. rewrite IH.
    replace (is_upper " ") with false by reflexivity.
    replace (is_lower " ") with false by reflexivity.
    by rewrite andb_false_r.
  - rewrite has_hump_cons. by rewrite Hcd, IH.
Qed.

Lemma capitalize_from_clean inside s :
  all_chars (λ c, negb (key_punctuation c)) s = true →
  all_chars (λ c, negb (key_punctuation c)) (capitalize_from inside s) = true.
Proof.
  revert inside. induction s as [|c rest IH]; intros inside; simpl; [done|].
  intros [Hc Hrest]%andb_prop. rewrite (IH _ Hrest), andb_true_r.
  destruct (is_word c && negb inside); [|done].
  destruct (upcase_facts c) as (_ & _ & _ & -> & _). done.
Qed.

Lemma capitalize_from_idempotent inside s :
  capitalize_from inside (capitalize_from inside s) = capitalize_from inside s.
Proof.
  revert inside. induction s as [|c rest IH]; intros inside; simpl; [done|].
  destruct (upcase_facts c) as (_ & Hword & Hup & _).
  destruct (is_word c && negb inside) eqn:Hcap.
  - rewrite Hword, Hcap, Hup, IH. done.
  - rewrite Hcap, IH. done.
Qed.

Lemma capitalize_from_no_hump inside s :
  has_hump s = false → has_hump (capitalize_from inside s) = false.
Proof.
  revert inside. induction s as [|c rest IH]; intros inside; [done|].
  rewrite has_hump_cons. destruct rest as [|d rest']; [done|].
  intros [Hcd Hrest]%orb_false_elim.
  change (capitalize_from inside (String c (String d rest')))
    with (String (if is_word c && negb inside then upcase c else c)
            (capitalize_from (is_word c) (String d rest'))).
  specialize (IH (is_word c) Hrest).
  change (capitalize_from (is_word c) (String d rest'))
    with (String (if is_word d && negb (is_word c) then upcase d else d)
            (capitalize_from (is_word d) rest')) in *.
  rewrite has_hump_cons, IH, orb_false_r.
  destruct (upcase_facts c) as (Hlow & _).
  destruct (is_word c && negb inside); [by rewrite Hlow|].
  destruct (is_word d && negb (is_word c)) eqn:Hd; [|done].
  apply andb_prop in Hd as [_ Hc%negb_true_iff].
  assert (is_lower c = false) as ->; [|done].
  unfold is_word in Hc. by destruct (is_lower c).
Qed.

(** X20. [generateFallbackText] never raises, and its result is in a normal
    form: it has no dot, underscore or hyphen, no lower-case letter directly
    followed by an upper-case one, and the function maps it to itself. *)
Theorem generateFallbackText_normal_form (key : string) :
  ∃ text,
    ErrorHandler.generateFallbackText key = Normal text
    ∧ all_chars (λ c, negb (key_punctuation c)) text = true
    ∧ has_hump text = false
    ∧ ErrorHandler.generateFallbackText text = Normal text.
Proof.
  unfold ErrorHandler.generateFallbackText.
  destruct (last_part_split "." key) as [segment Hsegment]. rewrite Hsegment.
  set (text := capitalize_words (split_camel (replace_separators segment))).
  assert (Hclean : all_chars (λ c, negb (key_punctuation c)) text = true).
  { apply capitalize_from_clean, split_camel_clean, replace_separators_clean.
    by apply (last_part_clean segment key). }
  assert (Hhump : has_hump text = false).
  { apply capitalize_from_no_hump, split_camel_no_hump. }
  exists text. split; [done|]. split; [done|]. split; [done|].
  assert (Hdots : all_chars (λ c, negb (Ascii.eqb c ".")) text = true).
  { clear -Hclean. induction text as [|c rest IH]; simpl in *; [done|].
    apply andb_prop in Hclean as [Hc Hrest]. rewrite (IH Hrest), andb_true_r.
    unfold key_punctuation in Hc. apply negb_true_iff in Hc.
    apply orb_false_elim in Hc as [Hc _]. apply orb_false_elim in Hc as [Hc _].
    by rewrite Hc. }
  rewrite (split_clean "." text Hdots). unfold last_part. cbn [length Nat.sub lookup list_lookup].
  rewrite (replace_separators_fixed text Hclean).
  rewrite (split_camel_without_hump text Hhump).
  unfold capitalize_words, text. unfold capitalize_words.
  by rewrite capitalize_from_idempotent.
Qed.

(** ** The error handler's translation fallbacks *)

Lemma generateFallbackText_normal key :
  ∃ text, ErrorHandler.generateFallbackText key = Normal text.
Proof.
  unfold ErrorHandler.generateFallbackText.
  destruct (last_part_split "." key) as [segment ->]. eauto.
Qed.

Lemma fallback_element_normal e :
  ∃ e', ErrorHandler.fallback_element e = Normal e'.
Proof.
  unfold ErrorHandler.fallback_element.
  destruct (attrs e !! "data-i18n") as [key|]; [|eauto].
  destruct (ErrorHandler.needs_fallback e); [|eauto].
  destruct (generateFallbackText_normal key) as [fallbackText ->].
  cbn [mbind completion_bind cbind]. eauto.
Qed.

Lemma enableTranslationFallbacks_run d :
  ∃ d', ErrorHandler.enableTranslationFallbacks d = Normal d'
        ∧ Forall2 (λ e e', ErrorHandler.fallback_element e = Normal e')
                  (elements d) (elements d').
Proof.
  assert (Hall : ∀ l : list Element,
             ∃ l', mapM ErrorHandler.fallback_element l = Normal l'
                   ∧ Forall2 (λ e e', ErrorHandler.fallback_element e = Normal e') l l').
  { induction l as [|e l (l' & Hl & Hf)]; simpl; [by exists []; split; [|constructor]|].
    destruct (fallback_element_normal e) as [e' He].
    rewrite He. simpl. rewrite Hl. simpl. exists (e' :: l'). split; [done|]. by constructor. }
  unfold ErrorHandler.enableTranslationFallbacks.
  destruct (fallback_element_normal (root d)) as [r Hr].
  destruct (Hall (descendants d)) as (rest & Hrest & Hf).
  rewrite Hr. simpl. rewrite Hrest. simpl. eexists. split; [done|].
  by constructor.
Qed.

(** X21. what [enableTranslationFallbacks] does to each element it visits,
    for an element without child elements.  It never raises.  It keeps the
    tag and every attribute but [class]; it leaves alone an element without
    [data-i18n] and an element whose text is neither blank nor contains the
    bare marker [[MISSING]]; any other element gets the readable form of its
    key as text and the class [translation-fallback] added to its class
    list. *)
Theorem fallbacks_repair_blank_or_marked (e : Element) :
  ∃ e', ErrorHandler.fallback_element e = Normal e'
        ∧ tag e' = tag e
        ∧ (∀ k, k ≠ "class" → attrs e' !! k = attrs e !! k)
        ∧ (bound e = false ∨ ErrorHandler.needs_fallback e = false → e' = e)
        ∧ (ErrorHandler.needs_fallback e = true →
           ∀ key, attrs e !! "data-i18n" = Some key →
                  ErrorHandler.generateFallbackText key = Normal (text e')
                  ∧ attrs e' !! "class"
                    = Some (join_tokens
                              (set_append (classList e) "translation-fallback"))).
Proof.
  unfold ErrorHandler.fallback_element, bound, has_attr.
  destruct (attrs e !! "data-i18n") as [key|] eqn:Hkey.
  - destruct (ErrorHandler.needs_fallback e) eqn:Hneeds.
    + destruct (generateFallbackText_normal key) as [fallbackText Htext].
      rewrite Htext. cbn [mbind completion_bind cbind]. eexists. split; [done|].
      unfold classList_add, set_textContent. cbn [tag attrs text].
      split; [done|].
      split; [intros k Hk; by rewrite lookup_insert_ne|].
      split.
      * intros [H%bool_decide_eq_false_1|H]; [|done]. exfalso. apply H. eauto.
      * intros _ key' [= <-]. split; [done|]. by rewrite lookup_insert_eq.
    + exists e. repeat split; try done.
  - exists e. repeat split; try done.
Qed.

Lemma includes_other_head c rest n :
  Ascii.eqb c "[" = false →
  includes (String c rest) (String "[" n) = includes rest (String "[" n).
Proof.
  intros Hc. cbn [includes String.prefix].
  destruct (ascii_dec "[" c) as [<-|_]; [discriminate|]. done.
Qed.

Lemma includes_without_bracket s t n :
  all_chars (λ c, negb (Ascii.eqb c "[")) s = true →
  includes (s +:+ t) (String "[" n) = includes t (String "[" n).
Proof.
  induction s as [|c rest IH]; [done|]. cbn [all_chars].
  intros [Hc Hrest]%andb_prop. apply negb_true_iff in Hc.
  change (String c rest +:+ t) with (String c (rest +:+ t)).
  rewrite (includes_other_head c _ n Hc). by apply IH.
Qed.

Lemma capitalize_without_bracket inside segment :
  all_chars (λ c, negb (Ascii.eqb c "[")) segment = true →
  all_chars (λ c, negb (Ascii.eqb c "["))
            (capitalize_from inside (replace_separators segment)) = true.
Proof.
  revert inside. induction segment as [|c rest IH]; intros inside H; [done|].
  cbn [all_chars] in H. apply andb_prop in H as [Hc Hrest].
  cbn [replace_separators capitalize_from all_chars].
  rewrite (IH _ Hrest), andb_true_r.
  revert Hc. destruct c as [[] [] [] [] [] [] [] []]; destruct inside; vm_compute; done.
Qed.

Lemma title_without_bracket segment :
  all_chars (λ c, negb (Ascii.eqb c "[")) segment = true →
  all_chars (λ c, negb (Ascii.eqb c "["))
            (capitalize_words (replace_separators segment)) = true.
Proof. apply capitalize_without_bracket. Qed.

Lemma placeholder_not_marked segment :
  all_chars (λ c, negb (Ascii.eqb c "[")) segment = true →
  includes (I18n.placeholder segment) "[MISSING]" = false
  ∧ is_blank (I18n.placeholder segment) = false.
Proof.
  intros H. split; [|reflexivity].
  unfold I18n.placeholder.
  set (title := capitalize_words (replace_separators segment)).
  change ("[MISSING: " +:+ title +:+ "]")
    with (String "[" ("MISSING: " +:+ title +:+ "]")).
  cbn [includes]. 
  assert (Hp : String.prefix "[MISSING]" (String "[" ("MISSING: " +:+ title +:+ "]")) = false)
    by reflexivity.
  rewrite Hp. cbn [orb].
  change ("MISSING: " +:+ title +:+ "]") with ("MISSING: " +:+ (title +:+ "]")).
  rewrite (includes_without_bracket "MISSING: " _ "MISSING]" eq_refl).
  rewrite (includes_without_bracket title "]" "MISSING]" (title_without_bracket segment H)).
  reflexivity.
Qed.

(** X22. a missing key stays displayed as the binder shows it.  When a key
    resolves in neither language and its last segment has no opening
    bracket, the binder fills the element with [[MISSING: Title]], and
    [enableTranslationFallbacks] leaves such an element exactly as it is: the
    text neither is blank nor contains the bare marker [[MISSING]] that the
    fallback looks for. *)
Theorem placeholders_survive_fallbacks `{RT : JsRuntime}
    (st : I18n.State) (e : Element) (key segment : string) :
  attrs e !! "data-i18n" = Some key →
  attrs e !! "data-i18n-attr" = None →
  I18n.resolves st (I18n.currentLang st) key = false →
  I18n.resolves st (I18n.fallbackLang st) key = false →
  last_part (split "." key) = Some segment →
  all_chars (λ c, negb (Ascii.eqb c "[")) segment = true →
  ∃ shown,
    I18n.bind_element st e = Normal shown
    ∧ text shown = "[MISSING: " +:+ capitalize_words (replace_separators segment) +:+ "]"
    ∧ ErrorHandler.needs_fallback shown = false
    ∧ ErrorHandler.fallback_element shown = Normal shown.
Proof.
  intros Hkey Htarget Hcur Hfb Hsegment Hclean.
  assert (Ht : I18n.t st key JUndefined = Normal (JStr (I18n.placeholder segment))).
  { destruct (t_cases st key JUndefined)
      as [(v & Hv & Hu & _) | [(_ & v & Hv & Hu & _) | (_ & _ & Ht)]].
    - unfold I18n.resolves in Hcur. rewrite Hv in Hcur. congruence.
    - unfold I18n.resolves in Hfb. rewrite Hv in Hfb. congruence.
    - rewrite Ht. simpl. unfold I18n.handleMissingKey. simpl. by rewrite Hsegment. }
  unfold I18n.bind_element. rewrite Hkey, Ht, Htarget. simpl.
  eexists. split; [done|]. split; [done|].
  destruct (placeholder_not_marked segment Hclean) as [Hmark Hblank].
  assert (Hneeds : ErrorHandler.needs_fallback
                     (set_textContent (I18n.placeholder segment) e) = false).
  { unfold ErrorHandler.needs_fallback. cbn [set_textContent text].
    by rewrite Hmark, Hblank. }
  split; [exact Hneeds|].
  assert (Hkeep : ∀ x, ErrorHandler.needs_fallback x = false →
                       ErrorHandler.fallback_element x = Normal x).
  { intros x Hx. unfold ErrorHandler.fallback_element.
    destruct (attrs x !! "data-i18n"); [by rewrite Hx | done]. }
  apply Hkeep. exact Hneeds.
Qed.

Lemma placeholders_survive_fallbacks_witness :
  ∃ shown,
    I18n.bind_element (RT := bare_runtime) (scenario_store "lo")
      {| tag := "a"; attrs := {[ "data-i18n" := "nav.about_us" ]}; text := "About" |}
    = Normal shown
    ∧ text shown = "[MISSING: About Us]"
    ∧ ErrorHandler.needs_fallback shown = false
    ∧ ErrorHandler.fallback_element shown = Normal shown.
Proof.
  apply (placeholders_survive_fallbacks (RT := bare_runtime) (scenario_store "lo")
           {| tag := "a"; attrs := {[ "data-i18n" := "nav.about_us" ]}; text := "About" |}
           "nav.about_us" "about_us").
  - reflexivity.
  - reflexivity.
  - vm_compute. reflexivity.
  - vm_compute. reflexivity.
  - reflexivity.
  - reflexivity.
Defined.

(** ** Errors caught by the global handlers *)

Lemma set_append_NoDup tokens token :
  NoDup tokens → NoDup (set_append tokens token).
Proof.
  intros H. unfold set_append.
  destruct (bool_decide (token ∈ tokens)) eqn:Hin; [done|].
  apply bool_decide_eq_false_1 in Hin.
  apply NoDup_app. split; [done|]. split; [|apply NoDup_singleton].
  intros x Hx ->%list_elem_of_singleton. done.
Qed.

Lemma fold_set_append_NoDup added tokens :
  NoDup tokens → NoDup (fold_left set_append added tokens).
Proof.
  revert tokens. induction added as [|token added IH]; intros tokens H; simpl; [done|].
  by apply IH, set_append_NoDup.
Qed.

Lemma injectCSS_keeps css id s :
  ErrorHandler.errors (ErrorHandler.injectCSS css id s) = ErrorHandler.errors s
  ∧ ErrorHandler.body_classes (ErrorHandler.injectCSS css id s) = ErrorHandler.body_classes s
  ∧ ErrorHandler.page (ErrorHandler.injectCSS css id s) = ErrorHandler.page s
  ∧ ErrorHandler.banners (ErrorHandler.injectCSS css id s) = ErrorHandler.banners s
  ∧ ErrorHandler.sessionStorage (ErrorHandler.injectCSS css id s)
    = ErrorHandler.sessionStorage s
  ∧ ErrorHandler.timeouts (ErrorHandler.injectCSS css id s) = ErrorHandler.timeouts s
  ∧ (NoDup (style_ids s) → NoDup (style_ids (ErrorHandler.injectCSS css id s))).
Proof.
  unfold ErrorHandler.injectCSS.
  destruct (ErrorHandler.has_id id s) eqn:Hid; [done|].
  repeat split; try done.
  intros Hnd. unfold style_ids. cbn [ErrorHandler.with_head_styles ErrorHandler.head_styles].
  rewrite fmap_app. change (fst <$> [(id, css)]) with [id].
  apply NoDup_app. split; [done|]. split; [|apply NoDup_singleton].
  intros x Hx ->%list_elem_of_singleton.
  unfold ErrorHandler.has_id in Hid. apply orb_false_elim in Hid as [Hid _].
  apply list_elem_of_fmap in Hx as (style & -> & Hstyle).
  assert (existsb (λ style0, String.eqb style0.1 style.1) (ErrorHandler.head_styles s) = true)
    as Hex; [|congruence].
  apply existsb_exists. exists style. split; [by apply list_elem_of_In|].
  apply String.eqb_refl.
Qed.

Section ErrorFacts.
Context {RT : JsRuntime}.

Lemma handleJavaScriptError_keeps info s :
  let s' := (ErrorHandler.handleJavaScriptError info s).1 in
  ErrorHandler.errors s' = ErrorHandler.errors s
  ∧ ErrorHandler.banners s' = ErrorHandler.banners s
  ∧ ErrorHandler.sessionStorage s' = ErrorHandler.sessionStorage s
  ∧ ErrorHandler.timeouts s' = ErrorHandler.timeouts s
  ∧ (NoDup (style_ids s) → NoDup (style_ids s'))
  ∧ (NoDup (ErrorHandler.body_classes s) → NoDup (ErrorHandler.body_classes s')).
Proof.
  unfold ErrorHandler.handleJavaScriptError.
  destruct (ErrorHandler.includes_either _ "gsap" "ScrollTrigger") as [animation|];
    [|by repeat split].
  set (s1 := if animation then _ else s).
  assert (H1 : ErrorHandler.errors s1 = ErrorHandler.errors s
               ∧ ErrorHandler.banners s1 = ErrorHandler.banners s
               ∧ ErrorHandler.sessionStorage s1 = ErrorHandler.sessionStorage s
               ∧ ErrorHandler.timeouts s1 = ErrorHandler.timeouts s
               ∧ (NoDup (style_ids s) → NoDup (style_ids s1))
               ∧ (NoDup (ErrorHandler.body_classes s) → NoDup (ErrorHandler.body_classes s1))).
  { subst s1. destruct animation; [|by repeat split].
    unfold ErrorHandler.enableCSSAnimationFallbacks.
    destruct (injectCSS_keeps ErrorHandler.AnimationFallbackSheet "animation-fallbacks"
                (ErrorHandler.body_classList_add ["no-gsap"; "no-animations"] s))
      as (He & Hb & _ & Hn & Hs & Ht & Hnd).
    split; [by rewrite He|]. split; [by rewrite Hn|]. split; [by rewrite Hs|].
    split; [by rewrite Ht|]. split; [intros H; by apply Hnd|].
    intros H. rewrite Hb. by apply fold_set_append_NoDup. }
  clearbody s1.
  destruct H1 as (He & Hn & Hs & Ht & Hnd1 & Hnd2).
  destruct (ErrorHandler.includes_either _ "i18n" "translation") as [translation|];
    [|by repeat split].
  destruct translation; [|by repeat split].
  destruct (ErrorHandler.enableTranslationFallbacks (ErrorHandler.page s1));
    by repeat split.
Qed.

Lemma showUserErrorMessage_keeps s :
  ErrorHandler.errors (ErrorHandler.showUserErrorMessage s) = ErrorHandler.errors s
  ∧ (NoDup (style_ids s) → NoDup (style_ids (ErrorHandler.showUserErrorMessage s)))
  ∧ ErrorHandler.body_classes (ErrorHandler.showUserErrorMessage s)
    = ErrorHandler.body_classes s
  ∧ ErrorHandler.message_shown (ErrorHandler.showUserErrorMessage s) = true
  ∧ ErrorHandler.banners (ErrorHandler.showUserErrorMessage s)
    = (ErrorHandler.banners s + if ErrorHandler.message_shown s then 0 else 1)%nat
  ∧ (ErrorHandler.message_shown s = true → ErrorHandler.showUserErrorMessage s = s).
Proof.
  unfold ErrorHandler.showUserErrorMessage.
  destruct (ErrorHandler.message_shown s) eqn:Hshown.
  - repeat split; try done; lia.
  - destruct (injectCSS_keeps ErrorHandler.ErrorBannerSheet "error-banner-styles" s)
      as (He & Hb & _ & Hn & _ & _ & Hnd).
    cbn [ErrorHandler.errors ErrorHandler.body_classes ErrorHandler.banners].
    rewrite He, Hb, Hn.
    split; [done|]. split; [exact Hnd|]. split; [done|].
    split; [|split; [lia|done]].
    unfold ErrorHandler.message_shown. cbn [ErrorHandler.sessionStorage].
    by rewrite lookup_insert_eq.
Qed.

(** One call of [handleError]. *)
Lemma handleError_step now info s :
  let s' := (ErrorHandler.handleError now info s).1 in
  ErrorHandler.errors s' = (ErrorHandler.errors s ++ [ErrorHandler.error_record now info])%list
  ∧ (NoDup (style_ids s) → NoDup (style_ids s'))
  ∧ (NoDup (ErrorHandler.body_classes s) → NoDup (ErrorHandler.body_classes s'))
  ∧ (ErrorHandler.message_shown s = true →
     ErrorHandler.message_shown s' = true
     ∧ ErrorHandler.banners s' = ErrorHandler.banners s)
  ∧ (ErrorHandler.banners s' = ErrorHandler.banners s
     ∨ (ErrorHandler.message_shown s = false
        ∧ ErrorHandler.message_shown s' = true
        ∧ ErrorHandler.banners s' = S (ErrorHandler.banners s))).
Proof.
  unfold ErrorHandler.handleError.
  set (s1 := ErrorHandler.with_errors _ s).
  assert (Hhandled :
    ∃ s2 handled,
      match object_get info "type" with
      | JStr type =>
          if String.eqb type "javascript" then ErrorHandler.handleJavaScriptError info s1
          else if String.eqb type "promise"
               then (s1, ErrorHandler.handlePromiseError info)
               else (s1, Normal ())
      | _ => (s1, Normal ())
      end = (s2, handled)
      ∧ ErrorHandler.errors s2 = ErrorHandler.errors s1
      ∧ ErrorHandler.banners s2 = ErrorHandler.banners s
      ∧ ErrorHandler.sessionStorage s2 = ErrorHandler.sessionStorage s
      ∧ (NoDup (style_ids s) → NoDup (style_ids s2))
      ∧ (NoDup (ErrorHandler.body_classes s) → NoDup (ErrorHandler.body_classes s2))).
  { assert (Hsame : ∀ r : Completion unit,
               ∃ s2 handled, (s1, r) = (s2, handled)
                 ∧ ErrorHandler.errors s2 = ErrorHandler.errors s1
                 ∧ ErrorHandler.banners s2 = ErrorHandler.banners s
                 ∧ ErrorHandler.sessionStorage s2 = ErrorHandler.sessionStorage s
                 ∧ (NoDup (style_ids s) → NoDup (style_ids s2))
                 ∧ (NoDup (ErrorHandler.body_classes s)
                    → NoDup (ErrorHandler.body_classes s2))).
    { intros r. exists s1, r. by repeat split. }
    destruct (object_get info "type") as [| | | |type| | |]; try apply Hsame.
    destruct (String.eqb type "javascript"); [|destruct (String.eqb type "promise"); apply Hsame].
    pose proof (handleJavaScriptError_keeps info s1) as Hjs. cbv zeta in Hjs.
    destruct (ErrorHandler.handleJavaScriptError info s1) as [s2 handled].
    cbn [fst] in Hjs. destruct Hjs as (He & Hn & Hs & _ & Hnd1 & Hnd2).
    exists s2, handled.
    split; [done|]. split; [done|]. split; [done|]. split; [done|].
    split; [exact Hnd1 | exact Hnd2]. }
  destruct Hhandled as (s2 & handled & -> & He & Hn & Hs & Hnd1 & Hnd2).
  assert (Hshown : ErrorHandler.message_shown s2 = ErrorHandler.message_shown s).
  { unfold ErrorHandler.message_shown. by rewrite Hs. }
  assert (Hkeep : ErrorHandler.errors s2
                  = (ErrorHandler.errors s ++ [ErrorHandler.error_record now info])%list
                  ∧ (NoDup (style_ids s) → NoDup (style_ids s2))
                  ∧ (NoDup (ErrorHandler.body_classes s)
                     → NoDup (ErrorHandler.body_classes s2))
                  ∧ (ErrorHandler.message_shown s = true
                     → ErrorHandler.message_shown s2 = true
                       ∧ ErrorHandler.banners s2 = ErrorHandler.banners s)
                  ∧ (ErrorHandler.banners s2 = ErrorHandler.banners s
                     ∨ ErrorHandler.message_shown s = false
                       ∧ ErrorHandler.message_shown s2 = true
                       ∧ ErrorHandler.banners s2 = S (ErrorHandler.banners s))).
  { split; [by rewrite He|]. split; [done|]. split; [done|].
    split; [intros H; by rewrite Hshown|]. by left. }
  destruct handled as [[]|]; [|exact Hkeep].
  destruct (ErrorHandler.isCriticalError info) as [critical|]; [|exact Hkeep].
  destruct critical; [|exact Hkeep]. cbn [fst].
  destruct (showUserErrorMessage_keeps s2) as (He' & Hnd' & Hb' & Hshown' & Hn' & Hid).
  split; [by rewrite He', He|].
  split; [intros H; by apply Hnd', Hnd1|].
  split; [rewrite Hb'; exact Hnd2|].
  split.
  - intros H. split; [done|]. rewrite Hn', Hshown, H, Hn. lia.
  - rewrite Hn', Hshown, Hn.
    destruct (ErrorHandler.message_shown s); [left; lia | right; split; [done|]; split; [done|lia]].
Qed.

Lemma handle_all_cons now info reports s :
  ErrorHandler.handle_all ((now, info) :: reports) s
  = ErrorHandler.handle_all reports (ErrorHandler.handleError now info s).1.
Proof. reflexivity. Qed.

End ErrorFacts.

(** X23. every error reported to [handleError] is recorded, in the order of
    arrival and with the moment it was reported at, whether or not handling
    it raises. *)
Theorem every_error_is_recorded `{RT : JsRuntime}
    (reports : list (ErrorHandler.Moment * gmap string JsValue))
    (s : ErrorHandler.Screen) :
  ErrorHandler.errors (ErrorHandler.handle_all reports s)
  = (ErrorHandler.errors s
       ++ ((λ report, ErrorHandler.error_record report.1 report.2) <$> reports))%list.
Proof.
  revert s. induction reports as [|[now info] reports IH]; intros s.
  - by rewrite app_nil_r.
  - rewrite handle_all_cons, IH.
    destruct (handleError_step now info s) as (-> & _).
    by rewrite <- app_assoc.
Qed.


(** X25. handling errors never injects a style sheet a second time and never
    repeats a class of the body: the ids of the injected style elements and
    the class tokens of the body stay free of repetitions. *)
Theorem styles_and_classes_never_repeat `{RT : JsRuntime}
    (reports : list (ErrorHandler.Moment * gmap string JsValue))
    (s : ErrorHandler.Screen) :
  NoDup (style_ids s) →
  NoDup (ErrorHandler.body_classes s) →
  NoDup (style_ids (ErrorHandler.handle_all reports s))
  ∧ NoDup (ErrorHandler.body_classes (ErrorHandler.handle_all reports s))
  ∧ NoDup (style_ids (ErrorHandler.enableFontFallbacks s))
  ∧ NoDup (ErrorHandler.body_classes (ErrorHandler.enableFontFallbacks s)).
Proof.
  intros Hstyles Hclasses. split; [|split; [|split]].
  - revert s Hstyles Hclasses.
    induction reports as [|[now info] reports IH]; intros s Hstyles Hclasses; [done|].
    rewrite handle_all_cons.
    destruct (handleError_step now info s) as (_ & H1 & H2 & _). apply IH; auto.
  - revert s Hstyles Hclasses.
    induction reports as [|[now info] reports IH]; intros s Hstyles Hclasses; [done|].
    rewrite handle_all_cons.
    destruct (handleError_step now info s) as (_ & H1 & H2 & _). apply IH; auto.
  - unfold ErrorHandler.enableFontFallbacks.
    destruct (injectCSS_keeps ErrorHandler.FontFallbackSheet "font-fallbacks" s)
      as (_ & _ & _ & _ & _ & _ & Hnd).
    by apply Hnd.
  - unfold ErrorHandler.enableFontFallbacks, ErrorHandler.body_classList_add.
    cbn [ErrorHandler.with_body_classes ErrorHandler.body_classes].
    apply fold_set_append_NoDup.
    destruct (injectCSS_keeps ErrorHandler.FontFallbackSheet "font-fallbacks" s)
      as (_ & -> & _). done.
Qed.

Section CriticalFacts.
Context {RT : JsRuntime}.

Lemma some_pattern_text m patterns :
  ErrorHandler.some_pattern (JStr m) patterns = Normal (existsb (includes m) patterns).
Proof.
  induction patterns as [|pattern rest IH]; simpl; [done|].
  destruct (includes m pattern); [done|]. exact IH.
Qed.

Lemma includes_either_text m p q :
  ErrorHandler.includes_either (JStr m) p q = Normal (includes m p || includes m q).
Proof. unfold ErrorHandler.includes_either. simpl. by destruct (includes m p). Qed.

Lemma handleJavaScriptError_text info m s :
  object_get info "message" = JStr m →
  (ErrorHandler.handleJavaScriptError info s).2 = Normal ().
Proof.
  intros Hm. unfold ErrorHandler.handleJavaScriptError. rewrite Hm.
  rewrite !includes_either_text.
  destruct (includes m "i18n" || includes m "translation"); [|done].
  match goal with |- context [ErrorHandler.enableTranslationFallbacks ?d] =>
    destruct (enableTranslationFallbacks_run d) as (d' & -> & _)
  end. done.
Qed.

End CriticalFacts.



Lemma styles_and_classes_never_repeat_witness :
  NoDup (style_ids
           (ErrorHandler.handle_all (RT := bare_runtime)
              [(visit_moment, script_error "gsap is not defined");
               (visit_moment, script_error "gsap is not defined")]
              (clean_screen served_document)))
  ∧ NoDup (ErrorHandler.body_classes
             (ErrorHandler.handle_all (RT := bare_runtime)
                [(visit_moment, script_error "gsap is not defined");
                 (visit_moment, script_error "gsap is not defined")]
                (clean_screen served_document)))
  ∧ NoDup (style_ids (ErrorHandler.enableFontFallbacks (clean_screen served_document)))
  ∧ NoDup (ErrorHandler.body_classes
             (ErrorHandler.enableFontFallbacks (clean_screen served_document))).
Proof.
  apply (styles_and_classes_never_repeat (RT := bare_runtime)
           [(visit_moment, script_error "gsap is not defined");
            (visit_moment, script_error "gsap is not defined")]
           (clean_screen served_document)).
  - simpl. constructor.
  - simpl. constructor.
Defined.

(** The same error twice on a clean page: both are recorded, the body gets
    its two classes once, the two style sheets are injected once each, and
    one banner is shown. *)
Example gsap_error_twice :
  let after := ErrorHandler.handle_all (RT := bare_runtime)
                 [(visit_moment, script_error "gsap is not defined");
                  (visit_moment, script_error "gsap is not defined")]
                 (clean_screen served_document) in
  length (ErrorHandler.errors after) = 2%nat
  ∧ ErrorHandler.body_classes after = ["no-gsap"; "no-animations"]
  ∧ style_ids after = ["animation-fallbacks"; "error-banner-styles"]
  ∧ ErrorHandler.banners after = 1%nat
  ∧ ErrorHandler.timeouts after = [10000].
Proof. repeat split; vm_compute; reflexivity. Qed.

(** ** Enabling a fallback twice *)

Lemma has_id_injected css id s :
  ErrorHandler.has_id id (ErrorHandler.injectCSS css id s) = true.
Proof.
  unfold ErrorHandler.injectCSS.
  destruct (ErrorHandler.has_id id s) eqn:Hid; [done|].
  unfold ErrorHandler.has_id. cbn [ErrorHandler.with_head_styles ErrorHandler.head_styles].
  rewrite existsb_app. simpl. by rewrite String.eqb_refl, orb_true_r.
Qed.

Lemma injectCSS_again css id s :
  ErrorHandler.has_id id s = true → ErrorHandler.injectCSS css id s = s.
Proof. unfold ErrorHandler.injectCSS. by intros ->. Qed.

Lemma set_append_again tokens token :
  set_append (set_append tokens token) token = set_append tokens token.
Proof.
  assert (Hin : token ∈ set_append tokens token).
  { unfold set_append. case_bool_decide; [done|].
    set_solver. }
  generalize dependent (set_append tokens token). intros l Hin.
  unfold set_append. by rewrite bool_decide_eq_true_2.
Qed.


